(** * Replication engine of the appointment backend: document sync,
      schema tracking, collection discovery and the run coordinator.

    Sources embedded here:
    - [src/services/syncService.js], class [SyncService]: schema tracking,
      collection discovery, the incremental scan, the duplicate check, the
      two collection syncs, the integrity check and [forceFullSync];
    - [src/services/enhancedSyncService.js], class [EnhancedSyncService]:
      the stats file, the health check, the forward run and the recovery
      (they override [performFullSync] and [performRecovery] of the base
      class, which are therefore not embedded);
    - [src/services/authSyncService.js], class [AuthSyncService]: the
      effect of one authentication pass on the counters it shares with the
      coordinator, and, on a state of its own, the export, the import, the
      custom claims, the full pass and the integrity report;
    - of the server, the route that resets the statistics, and the calls
      it makes on the service, which the event loop interleaves at their
      [await]s.

    The two Firestore databases are finite maps from collection names to
    finite maps from document ids to document data.  What the outside
    world does during a call (a rejected promise, the wall clock, the four
    health probes) is an explicit environment.  Calls to [logger.info] and
    [logger.error] are left out; the lines logged with [logger.warn] are
    kept, without their leading pictogram. *)

From stdpp Require Import gmap strings list fin_maps pretty.

Local Open Scope string_scope.
Local Open Scope list_scope.
Local Open Scope nat_scope.

#[local] Set Warnings "-register-all,-clear-no-such-hyp".

(** ** JavaScript values held in documents *)

Module Js.

(** Field values of a Firestore document.  An object keeps its entries in
    insertion order, as [Object.entries] reports them. *)
Inductive jsval : Type :=
  | JNull
  | JBool (b : bool)
  | JNum (n : Z)
  | JStr (s : string)
  | JArr (items : list jsval)
  | JObj (fields : list (string * jsval)).

Abbreviation obj := (list (string * jsval)).

(** [o.k]: [None] is [undefined]. *)
Fixpoint field (k : string) (o : obj) : option jsval :=
  match o with
  | [] => None
  | (k', v) :: rest => if String.eqb k k' then Some v else field k rest
  end.

(** Timestamps are ISO-8601 strings (data model of the engine); a
    timestamp field that is missing or does not hold a string reads as
    [undefined].  For a value that JavaScript takes for false ([null],
    [false], [0]) this is what the program sees wherever it reads a
    timestamp.  A truthy value that is not a string (a number, a Firestore
    [Timestamp], a map) is kept and compared by the program; the embedding
    does not follow it there, and the statements that depend on it are
    made for documents without such values ([textStamps] below). *)
Definition strField (k : string) (o : obj) : option string :=
  match field k o with
  | Some (JStr s) => Some s
  | _ => None
  end.

(** Truthiness of a value that is a string or [undefined]/[null]. *)
Definition truthy (t : option string) : bool :=
  match t with
  | Some s => negb (String.eqb s "")
  | None => false
  end.

(** [a || b] *)
Definition or (a b : option string) : option string :=
  if truthy a then a else b.

(** [a > b] and [a >= b] on strings.  [String.ltb] and [String.leb] order
    strings byte by byte: on strings of ASCII characters, as timestamps
    are, this is the order of the code units, by which JavaScript
    compares, and the order of the UTF-8 bytes, by which Firestore
    does. *)
Definition gt (a b : string) : bool := String.ltb b a.
Definition ge (a b : string) : bool := String.leb b a.

(** [a > b] and [a >= b] where an operand may be [undefined]: the
    comparison with [undefined] is false. *)
Definition ogt (a b : option string) : bool :=
  match a, b with
  | Some x, Some y => gt x y
  | _, _ => false
  end.

Definition oge (a b : option string) : bool :=
  match a, b with
  | Some x, Some y => ge x y
  | _, _ => false
  end.

End Js.

Import Js.

(** ** The Firestore databases *)

Module Firestore.

(** Deep merge of [set(ref, data, {merge: true})]: the fields of [new]
    replace those of [old], nested non-empty maps are merged field by
    field, every other value (arrays, empty maps, scalars) replaces the
    stored one. *)
Fixpoint upsert (k : string) (v : jsval) (o : obj) : obj :=
  match o with
  | [] => [(k, v)]
  | (k', v') :: rest =>
      if String.eqb k k' then (k, v) :: rest else (k', v') :: upsert k v rest
  end.

Fixpoint mergeVal (old : option jsval) (new : jsval) : jsval :=
  match new with
  | JObj [] => new
  | JObj nf =>
      let base := match old with Some (JObj stored) => stored | _ => [] end in
      JObj ((fix go (nf : obj) (acc : obj) : obj :=
               match nf with
               | [] => acc
               | (k, v) :: rest => go rest (upsert k (mergeVal (field k acc) v) acc)
               end) nf base)
  | _ => new
  end.

Definition mergeData (old new : obj) : obj :=
  match new, mergeVal (Some (JObj old)) (JObj new) with
  | _ :: _, JObj o => o
  | _, _ => old
  end.

(** One write of a batch applied to a collection. *)
Definition setMerge (target : gmap string obj) (op : string * obj) : gmap string obj :=
  match target !! op.1 with
  | Some old => <[op.1 := mergeData old op.2]> target
  | None => <[op.1 := op.2]> target
  end.

Definition applyOps (ops : list (string * obj)) (target : gmap string obj) : gmap string obj :=
  foldl setMerge target ops.

(** [db.collection(c)]: a collection that was never written is empty. *)
Definition collection (db : gmap string (gmap string obj)) (c : string) : gmap string obj :=
  default ∅ (db !! c).

(** [db.collection(c).get()] *)
Definition getDocs (db : gmap string (gmap string obj)) (c : string) : list (string * obj) :=
  map_to_list (collection db c).

(** [.where('updatedAt', '>', since)]: documents whose [updatedAt] field is
    a string above [since]; a document without the field is not returned. *)
Definition whereUpdatedAtGt (since : string) (docs : list (string * obj)) : list (string * obj) :=
  filter (λ d : string * obj, ogt (strField "updatedAt" d.2) (Some since) = true) docs.

(** [db.getAll(...refs)]: one snapshot per reference, in the order of the
    references; [None] is a snapshot whose [exists] is false. *)
Definition getAll (db : gmap string (gmap string obj)) (c : string) (ids : list string)
  : list (option obj) :=
  map (λ i, collection db c !! i) ids.

(** [db.listCollections()]: the collections that hold a document. *)
Definition listCollections (db : gmap string (gmap string obj)) : list string :=
  (filter (λ e : string * gmap string obj, e.2 ≠ ∅) (map_to_list db)).*1.

(** [WriteBatch] of the Firestore SDK: the writes queued by [set], and
    whether [commit] has been called.  [set] checks that flag before it
    queues anything and throws once [commit] has been called ("Cannot
    modify a WriteBatch that has been committed."); [commit] raises the
    flag before it sends the writes, and may be called again. *)
Record WriteBatch := { ops : list (string * obj); committed : bool }.

Definition batch : WriteBatch := {| ops := []; committed := false |}.

Definition set (b : WriteBatch) (i : string) (d : obj) : option WriteBatch :=
  if committed b then None
  else Some {| ops := ops b ++ [(i, d)]; committed := false |}.

End Firestore.

(** ** Engine state *)

(** Counters of the authentication replicator ([authSyncStats]). *)
Module Auth.

Record t := {
  totalUsers : nat;
  syncedUsers : nat;
  errors : nat;
  lastSync : option string;
  customClaims : nat
}.

Definition zero : t :=
  {| totalUsers := 0; syncedUsers := 0; errors := 0; lastSync := None; customClaims := 0 |}.

End Auth.

Inductive Status := idle | syncing | recovering | paused | error | completed.

(** [syncStats.authSync] is either an object of its own or, after an
    authentication pass has returned, the very object the authentication
    service keeps mutating. *)
Inductive AuthRef := AuthOwn (a : Auth.t) | AuthShared.

(** [syncStats] *)
Module Stats.

Record t := {
  totalSynced : nat;
  lastSync : option string;
  errors : nat;
  collections : list string;
  status : Status;
  duplicatesSkipped : nat;
  incrementalSyncs : nat;
  lastFullSync : option string;
  authSync : AuthRef
}.

Definition with_totalSynced (v : nat) (r : t) : t :=
  {| totalSynced := v; lastSync := lastSync r; errors := errors r; collections := collections r; status := status r; duplicatesSkipped := duplicatesSkipped r; incrementalSyncs := incrementalSyncs r; lastFullSync := lastFullSync r; authSync := authSync r |}.
Definition with_lastSync (v : option string) (r : t) : t :=
  {| totalSynced := totalSynced r; lastSync := v; errors := errors r; collections := collections r; status := status r; duplicatesSkipped := duplicatesSkipped r; incrementalSyncs := incrementalSyncs r; lastFullSync := lastFullSync r; authSync := authSync r |}.
Definition with_errors (v : nat) (r : t) : t :=
  {| totalSynced := totalSynced r; lastSync := lastSync r; errors := v; collections := collections r; status := status r; duplicatesSkipped := duplicatesSkipped r; incrementalSyncs := incrementalSyncs r; lastFullSync := lastFullSync r; authSync := authSync r |}.
Definition with_collections (v : list string) (r : t) : t :=
  {| totalSynced := totalSynced r; lastSync := lastSync r; errors := errors r; collections := v; status := status r; duplicatesSkipped := duplicatesSkipped r; incrementalSyncs := incrementalSyncs r; lastFullSync := lastFullSync r; authSync := authSync r |}.
Definition with_status (v : Status) (r : t) : t :=
  {| totalSynced := totalSynced r; lastSync := lastSync r; errors := errors r; collections := collections r; status := v; duplicatesSkipped := duplicatesSkipped r; incrementalSyncs := incrementalSyncs r; lastFullSync := lastFullSync r; authSync := authSync r |}.
Definition with_duplicatesSkipped (v : nat) (r : t) : t :=
  {| totalSynced := totalSynced r; lastSync := lastSync r; errors := errors r; collections := collections r; status := status r; duplicatesSkipped := v; incrementalSyncs := incrementalSyncs r; lastFullSync := lastFullSync r; authSync := authSync r |}.
Definition with_incrementalSyncs (v : nat) (r : t) : t :=
  {| totalSynced := totalSynced r; lastSync := lastSync r; errors := errors r; collections := collections r; status := status r; duplicatesSkipped := duplicatesSkipped r; incrementalSyncs := v; lastFullSync := lastFullSync r; authSync := authSync r |}.
Definition with_lastFullSync (v : option string) (r : t) : t :=
  {| totalSynced := totalSynced r; lastSync := lastSync r; errors := errors r; collections := collections r; status := status r; duplicatesSkipped := duplicatesSkipped r; incrementalSyncs := incrementalSyncs r; lastFullSync := v; authSync := authSync r |}.
Definition with_authSync (v : AuthRef) (r : t) : t :=
  {| totalSynced := totalSynced r; lastSync := lastSync r; errors := errors r; collections := collections r; status := status r; duplicatesSkipped := duplicatesSkipped r; incrementalSyncs := incrementalSyncs r; lastFullSync := lastFullSync r; authSync := v |}.

(** The literal of the constructor (and of the reset route). *)
Definition zero : t :=
  {| totalSynced := 0; lastSync := None; errors := 0; collections := [];
     status := idle; duplicatesSkipped := 0; incrementalSyncs := 0;
     lastFullSync := None; authSync := AuthOwn Auth.zero |}.

End Stats.

Inductive Side := Main | Backup.

(** Payloads of [io.emit].  The progress events of the authentication
    service are not part of the trace. *)
Inductive Event :=
  | schemaChange (collection : string) (newKeys : list string) (totalKeys : nat)
  | syncProgress (collection : string) (documentCount total : nat)
  | recoveryProgress (collection : string) (documentCount total : nat)
  | collectionSynced (collection : string) (documentCount : nat) (incremental : bool)
  | collectionRecovered (collection : string) (documentCount : nat)
  | healthCheck (mainDbUp backupDbUp mainAuthUp backupAuthUp : bool)
  | syncStatsEvent (stats : Stats.t) (authStats : Auth.t)
                   (mainDbUp backupDbUp mainAuthUp backupAuthUp : bool).

(** The service object, the two databases, the stats file ([None]: the file
    does not exist), the events emitted, the lines logged at level [warn],
    and the batches the databases have committed. *)
Record World := {
  syncStats : Stats.t;
  collections : list string;
  collectionsSchema : gmap string (list string);
  isSyncing : bool;
  syncMetadata : gmap string (option string);
  isMainDbOnline : bool;
  isBackupDbOnline : bool;
  isMainAuthOnline : bool;
  isBackupAuthOnline : bool;
  lastAuthSync : option string;
  authSyncStats : Auth.t;
  mainDb : gmap string (gmap string obj);
  backupDb : gmap string (gmap string obj);
  statsFile : option Stats.t;
  emitted : list Event;
  warnings : list string;
  commitLog : list (Side * string * list (string * obj))
}.

Definition with_syncStats (v : Stats.t) (r : World) : World :=
  {| syncStats := v; collections := collections r; collectionsSchema := collectionsSchema r; isSyncing := isSyncing r; syncMetadata := syncMetadata r; isMainDbOnline := isMainDbOnline r; isBackupDbOnline := isBackupDbOnline r; isMainAuthOnline := isMainAuthOnline r; isBackupAuthOnline := isBackupAuthOnline r; lastAuthSync := lastAuthSync r; authSyncStats := authSyncStats r; mainDb := mainDb r; backupDb := backupDb r; statsFile := statsFile r; emitted := emitted r; warnings := warnings r; commitLog := commitLog r |}.
Definition with_collections (v : list string) (r : World) : World :=
  {| syncStats := syncStats r; collections := v; collectionsSchema := collectionsSchema r; isSyncing := isSyncing r; syncMetadata := syncMetadata r; isMainDbOnline := isMainDbOnline r; isBackupDbOnline := isBackupDbOnline r; isMainAuthOnline := isMainAuthOnline r; isBackupAuthOnline := isBackupAuthOnline r; lastAuthSync := lastAuthSync r; authSyncStats := authSyncStats r; mainDb := mainDb r; backupDb := backupDb r; statsFile := statsFile r; emitted := emitted r; warnings := warnings r; commitLog := commitLog r |}.
Definition with_collectionsSchema (v : gmap string (list string)) (r : World) : World :=
  {| syncStats := syncStats r; collections := collections r; collectionsSchema := v; isSyncing := isSyncing r; syncMetadata := syncMetadata r; isMainDbOnline := isMainDbOnline r; isBackupDbOnline := isBackupDbOnline r; isMainAuthOnline := isMainAuthOnline r; isBackupAuthOnline := isBackupAuthOnline r; lastAuthSync := lastAuthSync r; authSyncStats := authSyncStats r; mainDb := mainDb r; backupDb := backupDb r; statsFile := statsFile r; emitted := emitted r; warnings := warnings r; commitLog := commitLog r |}.
Definition with_isSyncing (v : bool) (r : World) : World :=
  {| syncStats := syncStats r; collections := collections r; collectionsSchema := collectionsSchema r; isSyncing := v; syncMetadata := syncMetadata r; isMainDbOnline := isMainDbOnline r; isBackupDbOnline := isBackupDbOnline r; isMainAuthOnline := isMainAuthOnline r; isBackupAuthOnline := isBackupAuthOnline r; lastAuthSync := lastAuthSync r; authSyncStats := authSyncStats r; mainDb := mainDb r; backupDb := backupDb r; statsFile := statsFile r; emitted := emitted r; warnings := warnings r; commitLog := commitLog r |}.
Definition with_syncMetadata (v : gmap string (option string)) (r : World) : World :=
  {| syncStats := syncStats r; collections := collections r; collectionsSchema := collectionsSchema r; isSyncing := isSyncing r; syncMetadata := v; isMainDbOnline := isMainDbOnline r; isBackupDbOnline := isBackupDbOnline r; isMainAuthOnline := isMainAuthOnline r; isBackupAuthOnline := isBackupAuthOnline r; lastAuthSync := lastAuthSync r; authSyncStats := authSyncStats r; mainDb := mainDb r; backupDb := backupDb r; statsFile := statsFile r; emitted := emitted r; warnings := warnings r; commitLog := commitLog r |}.
Definition with_isMainDbOnline (v : bool) (r : World) : World :=
  {| syncStats := syncStats r; collections := collections r; collectionsSchema := collectionsSchema r; isSyncing := isSyncing r; syncMetadata := syncMetadata r; isMainDbOnline := v; isBackupDbOnline := isBackupDbOnline r; isMainAuthOnline := isMainAuthOnline r; isBackupAuthOnline := isBackupAuthOnline r; lastAuthSync := lastAuthSync r; authSyncStats := authSyncStats r; mainDb := mainDb r; backupDb := backupDb r; statsFile := statsFile r; emitted := emitted r; warnings := warnings r; commitLog := commitLog r |}.
Definition with_isBackupDbOnline (v : bool) (r : World) : World :=
  {| syncStats := syncStats r; collections := collections r; collectionsSchema := collectionsSchema r; isSyncing := isSyncing r; syncMetadata := syncMetadata r; isMainDbOnline := isMainDbOnline r; isBackupDbOnline := v; isMainAuthOnline := isMainAuthOnline r; isBackupAuthOnline := isBackupAuthOnline r; lastAuthSync := lastAuthSync r; authSyncStats := authSyncStats r; mainDb := mainDb r; backupDb := backupDb r; statsFile := statsFile r; emitted := emitted r; warnings := warnings r; commitLog := commitLog r |}.
Definition with_isMainAuthOnline (v : bool) (r : World) : World :=
  {| syncStats := syncStats r; collections := collections r; collectionsSchema := collectionsSchema r; isSyncing := isSyncing r; syncMetadata := syncMetadata r; isMainDbOnline := isMainDbOnline r; isBackupDbOnline := isBackupDbOnline r; isMainAuthOnline := v; isBackupAuthOnline := isBackupAuthOnline r; lastAuthSync := lastAuthSync r; authSyncStats := authSyncStats r; mainDb := mainDb r; backupDb := backupDb r; statsFile := statsFile r; emitted := emitted r; warnings := warnings r; commitLog := commitLog r |}.
Definition with_isBackupAuthOnline (v : bool) (r : World) : World :=
  {| syncStats := syncStats r; collections := collections r; collectionsSchema := collectionsSchema r; isSyncing := isSyncing r; syncMetadata := syncMetadata r; isMainDbOnline := isMainDbOnline r; isBackupDbOnline := isBackupDbOnline r; isMainAuthOnline := isMainAuthOnline r; isBackupAuthOnline := v; lastAuthSync := lastAuthSync r; authSyncStats := authSyncStats r; mainDb := mainDb r; backupDb := backupDb r; statsFile := statsFile r; emitted := emitted r; warnings := warnings r; commitLog := commitLog r |}.
Definition with_lastAuthSync (v : option string) (r : World) : World :=
  {| syncStats := syncStats r; collections := collections r; collectionsSchema := collectionsSchema r; isSyncing := isSyncing r; syncMetadata := syncMetadata r; isMainDbOnline := isMainDbOnline r; isBackupDbOnline := isBackupDbOnline r; isMainAuthOnline := isMainAuthOnline r; isBackupAuthOnline := isBackupAuthOnline r; lastAuthSync := v; authSyncStats := authSyncStats r; mainDb := mainDb r; backupDb := backupDb r; statsFile := statsFile r; emitted := emitted r; warnings := warnings r; commitLog := commitLog r |}.
Definition with_authSyncStats (v : Auth.t) (r : World) : World :=
  {| syncStats := syncStats r; collections := collections r; collectionsSchema := collectionsSchema r; isSyncing := isSyncing r; syncMetadata := syncMetadata r; isMainDbOnline := isMainDbOnline r; isBackupDbOnline := isBackupDbOnline r; isMainAuthOnline := isMainAuthOnline r; isBackupAuthOnline := isBackupAuthOnline r; lastAuthSync := lastAuthSync r; authSyncStats := v; mainDb := mainDb r; backupDb := backupDb r; statsFile := statsFile r; emitted := emitted r; warnings := warnings r; commitLog := commitLog r |}.
Definition with_mainDb (v : gmap string (gmap string obj)) (r : World) : World :=
  {| syncStats := syncStats r; collections := collections r; collectionsSchema := collectionsSchema r; isSyncing := isSyncing r; syncMetadata := syncMetadata r; isMainDbOnline := isMainDbOnline r; isBackupDbOnline := isBackupDbOnline r; isMainAuthOnline := isMainAuthOnline r; isBackupAuthOnline := isBackupAuthOnline r; lastAuthSync := lastAuthSync r; authSyncStats := authSyncStats r; mainDb := v; backupDb := backupDb r; statsFile := statsFile r; emitted := emitted r; warnings := warnings r; commitLog := commitLog r |}.
Definition with_backupDb (v : gmap string (gmap string obj)) (r : World) : World :=
  {| syncStats := syncStats r; collections := collections r; collectionsSchema := collectionsSchema r; isSyncing := isSyncing r; syncMetadata := syncMetadata r; isMainDbOnline := isMainDbOnline r; isBackupDbOnline := isBackupDbOnline r; isMainAuthOnline := isMainAuthOnline r; isBackupAuthOnline := isBackupAuthOnline r; lastAuthSync := lastAuthSync r; authSyncStats := authSyncStats r; mainDb := mainDb r; backupDb := v; statsFile := statsFile r; emitted := emitted r; warnings := warnings r; commitLog := commitLog r |}.
Definition with_statsFile (v : option Stats.t) (r : World) : World :=
  {| syncStats := syncStats r; collections := collections r; collectionsSchema := collectionsSchema r; isSyncing := isSyncing r; syncMetadata := syncMetadata r; isMainDbOnline := isMainDbOnline r; isBackupDbOnline := isBackupDbOnline r; isMainAuthOnline := isMainAuthOnline r; isBackupAuthOnline := isBackupAuthOnline r; lastAuthSync := lastAuthSync r; authSyncStats := authSyncStats r; mainDb := mainDb r; backupDb := backupDb r; statsFile := v; emitted := emitted r; warnings := warnings r; commitLog := commitLog r |}.
Definition with_emitted (v : list Event) (r : World) : World :=
  {| syncStats := syncStats r; collections := collections r; collectionsSchema := collectionsSchema r; isSyncing := isSyncing r; syncMetadata := syncMetadata r; isMainDbOnline := isMainDbOnline r; isBackupDbOnline := isBackupDbOnline r; isMainAuthOnline := isMainAuthOnline r; isBackupAuthOnline := isBackupAuthOnline r; lastAuthSync := lastAuthSync r; authSyncStats := authSyncStats r; mainDb := mainDb r; backupDb := backupDb r; statsFile := statsFile r; emitted := v; warnings := warnings r; commitLog := commitLog r |}.
Definition with_warnings (v : list string) (r : World) : World :=
  {| syncStats := syncStats r; collections := collections r; collectionsSchema := collectionsSchema r; isSyncing := isSyncing r; syncMetadata := syncMetadata r; isMainDbOnline := isMainDbOnline r; isBackupDbOnline := isBackupDbOnline r; isMainAuthOnline := isMainAuthOnline r; isBackupAuthOnline := isBackupAuthOnline r; lastAuthSync := lastAuthSync r; authSyncStats := authSyncStats r; mainDb := mainDb r; backupDb := backupDb r; statsFile := statsFile r; emitted := emitted r; warnings := v; commitLog := commitLog r |}.
Definition with_commitLog (v : list (Side * string * list (string * obj))) (r : World) : World :=
  {| syncStats := syncStats r; collections := collections r; collectionsSchema := collectionsSchema r; isSyncing := isSyncing r; syncMetadata := syncMetadata r; isMainDbOnline := isMainDbOnline r; isBackupDbOnline := isBackupDbOnline r; isMainAuthOnline := isMainAuthOnline r; isBackupAuthOnline := isBackupAuthOnline r; lastAuthSync := lastAuthSync r; authSyncStats := authSyncStats r; mainDb := mainDb r; backupDb := backupDb r; statsFile := statsFile r; emitted := emitted r; warnings := warnings r; commitLog := v |}.

(** ** The environment of a call *)

(** How one authentication pass goes: the first export rejects; or export
    and import are done ([failedBatches] import batches rejected) and the
    second export, made for the custom claims, rejects; or the pass
    returns. *)
Inductive AuthPlan :=
  | authExportFails
  | authClaimsFail (users imported failedBatches : nat)
  | authOk (users imported failedBatches claims : nat).

(** What the outside world does during one call: the string
    [new Date().toISOString()] returns, the results of the four health
    probes, and which promises reject: [listCollections], the schema
    sample, the scan of a collection, the [n]-th [getAll] of a duplicate
    check, the [n]-th [commit] of a collection sync, the verification read
    that ends a forward collection sync.  File-system calls succeed. *)
Record Env := {
  now : string;
  probeMainDb : bool;
  probeBackupDb : bool;
  probeMainAuth : bool;
  probeBackupAuth : bool;
  listFails : bool;
  sampleFails : string → bool;
  scanFails : Side → string → bool;
  getAllFails : Side → string → nat → bool;
  commitFails : Side → string → nat → bool;
  verifyFails : string → bool;
  authPlan : AuthPlan
}.

(** A resolved promise or a rejected one. *)
Inductive Res (A : Type) := Ok (a : A) | Throw.
Arguments Ok {A} a.
Arguments Throw {A}.

(** The wrapper [{id, data, updatedAt}] built by [getIncrementalDocuments]. *)
Module Doc.
Record t := { id : string; data : obj; updatedAt : option string }.
End Doc.

Definition db (side : Side) (w : World) : gmap string (gmap string obj) :=
  match side with Main => mainDb w | Backup => backupDb w end.

Definition with_db (side : Side) (d : gmap string (gmap string obj)) (w : World) : World :=
  match side with Main => with_mainDb d w | Backup => with_backupDb d w end.

Definition emit (e : Event) (w : World) : World := with_emitted (emitted w ++ [e]) w.

Definition warn (line : string) (w : World) : World := with_warnings (warnings w ++ [line]) w.

(** [this.syncStats.errors++] *)
Definition countError (w : World) : World :=
  with_syncStats (Stats.with_errors (S (Stats.errors (syncStats w))) (syncStats w)) w.

(** [syncStats] as [JSON.stringify] and the socket see it: the shared
    authentication counters are read through the reference. *)
Definition statsView (w : World) : Stats.t :=
  match Stats.authSync (syncStats w) with
  | AuthOwn _ => syncStats w
  | AuthShared => Stats.with_authSync (AuthOwn (authSyncStats w)) (syncStats w)
  end.

(** [EnhancedSyncService.emitStats], which the base class reaches through
    [this.emitStats()]. *)
Definition emitStats (w : World) : World :=
  emit (syncStatsEvent (statsView w) (authSyncStats w) (isMainDbOnline w)
          (isBackupDbOnline w) (isMainAuthOnline w) (isBackupAuthOnline w)) w.

(** ** Schema tracking ([SyncService]) *)

(** [keySet.add(k)] on a [Set], which keeps insertion order. *)
Definition setAdd (k : string) (keySet : list string) : list string :=
  if bool_decide (k ∈ keySet) then keySet else keySet ++ [k].

(** [prefix ? `${prefix}.${key}` : key] *)
Definition fullKeyOf (prefix key : string) : string :=
  if String.eqb prefix "" then key else prefix +:+ "." +:+ key.

(** [extractKeysFromObject]: the recursion descends into a value that is an
    object and neither [null] nor an array. *)
Fixpoint extractKeys (value : jsval) (keySet : list string) (prefix : string) : list string :=
  match value with
  | JObj entries =>
      (fix each (entries : obj) (keySet : list string) : list string :=
         match entries with
         | [] => keySet
         | (key, value) :: rest =>
             let fullKey := fullKeyOf prefix key in
             each rest (extractKeys value (setAdd fullKey keySet) fullKey)
         end) entries keySet
  | _ => keySet
  end.

Definition extractKeysFromObject (o : obj) (keySet : list string) (prefix : string) : list string :=
  extractKeys (JObj o) keySet prefix.

(** The schema array computed from the sampled documents. *)
Definition sampleSchema (sample : list (string * obj)) : list string :=
  foldl (λ schema d, extractKeysFromObject d.2 schema "") [] sample.

Definition analyzeCollectionSchema (env : Env) (collectionName : string) (w : World) : World :=
  if sampleFails env collectionName then w
  else
    let snapshot := take 5 (Firestore.getDocs (mainDb w) collectionName) in
    let schemaArray := sampleSchema snapshot in
    let w1 :=
      match collectionsSchema w !! collectionName with
      | Some previousSchema =>
          let newKeys := filter (λ key, key ∉ previousSchema) schemaArray in
          if bool_decide (0 < length newKeys)%nat
          then emit (schemaChange collectionName newKeys (length schemaArray)) w
          else w
      | None => w
      end in
    with_collectionsSchema (<[collectionName := schemaArray]> (collectionsSchema w1)) w1.

(** ** Collection discovery ([SyncService]) *)

Definition knownCollections : list string :=
  ["appointments"; "availability"; "chats"; "notifications"; "specialities"; "users"].

Definition discoverCollections (env : Env) (w : World) : World * list string :=
  if listFails env then (w, [])
  else
    let mainCollections := Firestore.listCollections (mainDb w) in
    let newCollections := foldl (λ acc c, setAdd c acc) mainCollections knownCollections in
    let w1 := with_collections newCollections w in
    let w2 := foldl (λ w c, analyzeCollectionSchema env c w) w1 (collections w1) in
    let w3 := with_syncStats (Stats.with_collections (collections w2) (syncStats w2)) w2 in
    let w4 := emitStats w3 in
    (w4, collections w4).

(** ** Document replication ([SyncService]) *)

(** [syncMetadata.get(key)]: a missing key and a stored [null] both read as
    a falsy value. *)
Definition metaGet (m : gmap string (option string)) (key : string) : option string :=
  default None (m !! key).

Definition wrap (env : Env) (d : string * obj) : Doc.t :=
  {| Doc.id := d.1;
     Doc.data := d.2;
     Doc.updatedAt :=
       or (or (strField "updatedAt" d.2) (strField "createdAt" d.2)) (Some (now env)) |}.

Definition getIncrementalDocuments (env : Env) (side : Side) (w : World)
    (collectionName : string) (lastSyncTime : option string) : Res (list Doc.t) :=
  if scanFails env side collectionName then Throw
  else
    let all := Firestore.getDocs (db side w) collectionName in
    let snapshot :=
      match lastSyncTime with
      | Some since => if truthy lastSyncTime then Firestore.whereUpdatedAtGt since all else all
      | None => all
      end in
    Ok (map (wrap env) snapshot).

(** [documents.slice(i, i + batchSize)] for [i = 0, batchSize, ...] *)
Definition slices (batchSize : nat) (documents : list Doc.t) : list (list Doc.t) :=
  reshape (replicate ((length documents + (batchSize - 1)) / batchSize) batchSize) documents.

(** [existingData.updatedAt || existingData.createdAt] *)
Definition timestampOf (d : obj) : option string :=
  or (strField "updatedAt" d) (strField "createdAt" d).

(** The test that puts a document id into [existingDocs]. *)
Definition upToDate (existingData newData : obj) : bool :=
  truthy (timestampOf existingData) && truthy (timestampOf newData)
  && oge (timestampOf existingData) (timestampOf newData).

(** Body of [snapshots.forEach((snapshot, index) => ...)]; the map
    [duplicateCheck] filled in the other branch is never read. *)
Definition markExisting (existingDocs : gset string) (entry : option obj * Doc.t) : gset string :=
  match entry.1 with
  | Some existingData =>
      if upToDate existingData (Doc.data entry.2)
      then {[Doc.id entry.2]} ∪ existingDocs
      else existingDocs
  | None => existingDocs
  end.

(** The loop over the slices of 100 documents; [None] when a [getAll]
    rejects. *)
Fixpoint existingLoop (env : Env) (side : Side) (w : World) (collectionName : string)
    (n : nat) (batches : list (list Doc.t)) (existingDocs : gset string)
  : option (gset string) :=
  match batches with
  | [] => Some existingDocs
  | batch :: rest =>
      if getAllFails env side collectionName n then None
      else
        let snapshots := Firestore.getAll (db side w) collectionName (map Doc.id batch) in
        existingLoop env side w collectionName (S n) rest
          (foldl markExisting existingDocs (zip snapshots batch))
  end.

(** [this.syncStats.duplicatesSkipped++], [n] times. *)
Definition countSkipped (n : nat) (w : World) : World :=
  with_syncStats
    (Stats.with_duplicatesSkipped (Stats.duplicatesSkipped (syncStats w) + n) (syncStats w)) w.

Definition checkForDuplicates (env : Env) (side : Side) (collectionName : string)
    (documents : list Doc.t) (w : World) : list Doc.t * World :=
  match existingLoop env side w collectionName 0 (slices 100 documents) ∅ with
  | Some existingDocs =>
      let filteredDocs := filter (λ doc, Doc.id doc ∉ existingDocs) documents in
      (filteredDocs, countSkipped (length documents - length filteredDocs) w)
  | None => (documents, w)
  end.

(** Local variables of the write loop. *)
Module Loop.
Record t := {
  batch : Firestore.WriteBatch;
  batchCount : nat;
  totalSynced : nat;
  latestTimestamp : option string;
  commitCalls : nat
}.
End Loop.

(** [await batch.commit()]: the batch is marked committed; the write
    request then either rejects or applies every queued write to the
    collection. *)
Definition commit (env : Env) (side : Side) (collectionName : string) (l : Loop.t) (w : World)
  : Res unit * Loop.t * World :=
  let b := {| Firestore.ops := Firestore.ops (Loop.batch l); Firestore.committed := true |} in
  let l1 :=
    {| Loop.batch := b; Loop.batchCount := Loop.batchCount l;
       Loop.totalSynced := Loop.totalSynced l;
       Loop.latestTimestamp := Loop.latestTimestamp l;
       Loop.commitCalls := S (Loop.commitCalls l) |} in
  if commitFails env side collectionName (Loop.commitCalls l) then (Throw, l1, w)
  else
    let target := Firestore.applyOps (Firestore.ops b) (Firestore.collection (db side w) collectionName) in
    let w1 := with_db side (<[collectionName := target]> (db side w)) w in
    (Ok (), l1, with_commitLog (commitLog w1 ++ [(side, collectionName, Firestore.ops b)]) w1).

(** [if (doc.updatedAt && (!latestTimestamp || doc.updatedAt > latestTimestamp))] *)
Definition advances (docUpdatedAt latestTimestamp : option string) : bool :=
  truthy docUpdatedAt && (negb (truthy latestTimestamp) || ogt docUpdatedAt latestTimestamp).

(** One iteration of [for (const doc of documentsToSync)], with its
    [try]/[catch].  The loops of [syncCollectionToBackup] and
    [syncCollectionToMain] differ in the target and in the progress
    event. *)
Definition writeStep (env : Env) (side : Side) (collectionName : string)
    (progress : string → nat → nat → Event) (total : nat)
    (s : Loop.t * World) (doc : Doc.t) : Loop.t * World :=
  let '(l, w) := s in
  match Firestore.set (Loop.batch l) (Doc.id doc) (Doc.data doc) with
  | None => (l, countError w)
  | Some b =>
      let batchCount := S (Loop.batchCount l) in
      let latestTimestamp :=
        if advances (Doc.updatedAt doc) (Loop.latestTimestamp l)
        then Doc.updatedAt doc else Loop.latestTimestamp l in
      let l1 :=
        {| Loop.batch := b; Loop.batchCount := batchCount;
           Loop.totalSynced := Loop.totalSynced l;
           Loop.latestTimestamp := latestTimestamp;
           Loop.commitCalls := Loop.commitCalls l |} in
      if bool_decide (450 ≤ batchCount)%nat then
        match commit env side collectionName l1 w with
        | (Throw, l2, w2) => (l2, countError w2)
        | (Ok _, l2, w2) =>
            let totalSynced := Loop.totalSynced l2 + Loop.batchCount l2 in
            let l3 :=
              {| Loop.batch := Loop.batch l2; Loop.batchCount := 0;
                 Loop.totalSynced := totalSynced;
                 Loop.latestTimestamp := Loop.latestTimestamp l2;
                 Loop.commitCalls := Loop.commitCalls l2 |} in
            (l3, emit (progress collectionName totalSynced total) w2)
        end
      else (l1, w)
  end.

(** The part of both functions from [const batch = targetDb.batch()] to the
    commit of the remaining operations; [Throw] when that last commit
    rejects. *)
Definition writeAll (env : Env) (side : Side) (collectionName : string)
    (progress : string → nat → nat → Event) (lastSyncTime : option string)
    (documentsToSync : list Doc.t) (w : World) : Res Loop.t * World :=
  let start :=
    {| Loop.batch := Firestore.batch; Loop.batchCount := 0; Loop.totalSynced := 0;
       Loop.latestTimestamp := lastSyncTime; Loop.commitCalls := 0 |} in
  let '(l, w1) :=
    foldl (writeStep env side collectionName progress (length documentsToSync))
      (start, w) documentsToSync in
  if bool_decide (0 < Loop.batchCount l)%nat then
    match commit env side collectionName l w1 with
    | (Throw, _, w2) => (Throw, w2)
    | (Ok _, l2, w2) =>
        (Ok {| Loop.batch := Loop.batch l2; Loop.batchCount := Loop.batchCount l2;
               Loop.totalSynced := Loop.totalSynced l2 + Loop.batchCount l2;
               Loop.latestTimestamp := Loop.latestTimestamp l2;
               Loop.commitCalls := Loop.commitCalls l2 |}, w2)
    end
  else (Ok l, w1).

Definition syncCollectionToBackup (env : Env) (collectionName : string)
    (incrementalOnly : bool) (w : World) : Res nat * World :=
  let lastSyncTime :=
    if incrementalOnly then metaGet (syncMetadata w) collectionName else None in
  match getIncrementalDocuments env Main w collectionName lastSyncTime with
  | Throw => (Throw, w)
  | Ok documents =>
      if bool_decide (length documents = 0) then (Ok 0, w)
      else
        let '(documentsToSync, w1) := checkForDuplicates env Backup collectionName documents w in
        if bool_decide (length documentsToSync = 0) then (Ok 0, w1)
        else
          match writeAll env Backup collectionName syncProgress lastSyncTime documentsToSync w1 with
          | (Throw, w2) => (Throw, w2)
          | (Ok l, w2) =>
              let w3 :=
                with_syncMetadata
                  (<[collectionName := Loop.latestTimestamp l]> (syncMetadata w2)) w2 in
              if verifyFails env collectionName then (Throw, w3)
              else (Ok (Loop.totalSynced l), w3)
          end
  end.

Definition syncCollectionToMain (env : Env) (collectionName : string)
    (incrementalOnly : bool) (w : World) : Res nat * World :=
  let key := collectionName +:+ "_recovery" in
  let lastSyncTime := if incrementalOnly then metaGet (syncMetadata w) key else None in
  match getIncrementalDocuments env Backup w collectionName lastSyncTime with
  | Throw => (Throw, w)
  | Ok documents =>
      if bool_decide (length documents = 0) then (Ok 0, w)
      else
        let '(documentsToRecover, w1) := checkForDuplicates env Main collectionName documents w in
        if bool_decide (length documentsToRecover = 0) then (Ok 0, w1)
        else
          match writeAll env Main collectionName recoveryProgress lastSyncTime documentsToRecover w1 with
          | (Throw, w2) => (Throw, w2)
          | (Ok l, w2) =>
              (Ok (Loop.totalSynced l),
               with_syncMetadata (<[key := Loop.latestTimestamp l]> (syncMetadata w2)) w2)
          end
  end.

(** ** The authentication pass, as far as the shared counters go
    ([AuthSyncService.performFullAuthSync]) *)

Definition performFullAuthSync (env : Env) (w : World) : Res unit * World :=
  let a := authSyncStats w in
  match authPlan env with
  | authExportFails =>
      (Throw,
       with_authSyncStats
         {| Auth.totalUsers := Auth.totalUsers a; Auth.syncedUsers := Auth.syncedUsers a;
            Auth.errors := S (Auth.errors a); Auth.lastSync := Some (now env);
            Auth.customClaims := Auth.customClaims a |} w)
  | authClaimsFail users imported failedBatches =>
      (Throw,
       with_authSyncStats
         {| Auth.totalUsers := users; Auth.syncedUsers := imported;
            Auth.errors := S (Auth.errors a + failedBatches); Auth.lastSync := Some (now env);
            Auth.customClaims := Auth.customClaims a |} w)
  | authOk users imported failedBatches claims =>
      (Ok (),
       with_authSyncStats
         {| Auth.totalUsers := users; Auth.syncedUsers := imported;
            Auth.errors := Auth.errors a + failedBatches; Auth.lastSync := Some (now env);
            Auth.customClaims := claims |} w)
  end.

(** ** The coordinator ([EnhancedSyncService]) *)

(** [saveStats]: the file receives [JSON.stringify(this.syncStats)]. *)
Definition saveStats (w : World) : World := with_statsFile (Some (statsView w)) w.

(** [loadStats]: [{...this.syncStats, ...savedStats}], where the saved
    object carries every key of [syncStats]. *)
Definition loadStats (w : World) : World :=
  match statsFile w with
  | Some savedStats => with_syncStats savedStats w
  | None => w
  end.

(** The constructor, up to and including [this.loadStats()]. *)
Definition construct (main backup : gmap string (gmap string obj)) (file : option Stats.t)
  : World :=
  loadStats
    {| syncStats := Stats.zero; collections := []; collectionsSchema := ∅;
       isSyncing := false; syncMetadata := ∅;
       isMainDbOnline := false; isBackupDbOnline := false;
       isMainAuthOnline := false; isBackupAuthOnline := false;
       lastAuthSync := None; authSyncStats := Auth.zero;
       mainDb := main; backupDb := backup; statsFile := file;
       emitted := []; warnings := []; commitLog := [] |}.

Definition checkDatabaseHealth (env : Env) (w : World) : World :=
  let w1 :=
    with_isBackupAuthOnline (probeBackupAuth env)
      (with_isMainAuthOnline (probeMainAuth env)
         (with_isBackupDbOnline (probeBackupDb env)
            (with_isMainDbOnline (probeMainDb env) w))) in
  emit (healthCheck (isMainDbOnline w1) (isBackupDbOnline w1)
          (isMainAuthOnline w1) (isBackupAuthOnline w1)) w1.

Definition withStatus (s : Status) (w : World) : World :=
  with_syncStats (Stats.with_status s (syncStats w)) w.

(** One iteration of [for (const collectionName of this.collections)] in
    [performFirestoreSync]. *)
Definition syncOne (env : Env) (isFirstSync : bool) (s : nat * World) (collectionName : string)
  : nat * World :=
  let '(totalSynced, w) := s in
  match syncCollectionToBackup env collectionName (negb isFirstSync) w with
  | (Ok syncedCount, w1) =>
      (totalSynced + syncedCount,
       emit (collectionSynced collectionName syncedCount (negb isFirstSync)) w1)
  | (Throw, w1) => (totalSynced, countError w1)
  end.

Definition performFirestoreSync (env : Env) (w : World) : nat * World :=
  let w1 := (discoverCollections env w).1 in
  let isFirstSync := negb (truthy (Stats.lastFullSync (syncStats w1))) in
  let '(totalSynced, w2) := foldl (syncOne env isFirstSync) (0, w1) (collections w1) in
  let s2 := syncStats w2 in
  let s3 :=
    Stats.with_incrementalSyncs (S (Stats.incrementalSyncs s2))
      (Stats.with_totalSynced (Stats.totalSynced s2 + totalSynced) s2) in
  let s4 := if isFirstSync then Stats.with_lastFullSync (Some (now env)) s3 else s3 in
  (totalSynced, saveStats (with_syncStats s4 w2)).

(** The [finally] block of [performFullSync] and [performRecovery]. *)
Definition finish (w : World) : World := emitStats (with_isSyncing false w).

(** [performFullSync] up to its first [await]: the part that runs before
    any other call can be served. *)
Definition beginFullSync (env : Env) (w : World) : World :=
  emitStats
    (with_syncStats
       (Stats.with_lastSync (Some (now env)) (Stats.with_status syncing (syncStats w)))
       (with_isSyncing true w)).

(** The rest of [performFullSync], [finally] block included.  Nothing in
    the [try] block rejects: the [catch] branch is never taken. *)
Definition continueFullSync (env : Env) (w1 : World) : World :=
  let w2 := checkDatabaseHealth env w1 in
  if negb (isMainDbOnline w2) || negb (isMainAuthOnline w2) then
    finish (emitStats (withStatus paused (warn "Main database or auth is offline" w2)))
  else if negb (isBackupDbOnline w2) || negb (isBackupAuthOnline w2) then
    finish (emitStats (countError (withStatus error w2)))
  else
    let w3 := (performFirestoreSync env w2).2 in
    let w4 :=
      match performFullAuthSync env w3 with
      | (Ok _, w') =>
          with_lastAuthSync (Some (now env))
            (with_syncStats (Stats.with_authSync AuthShared (syncStats w')) w')
      | (Throw, w') => countError w'
      end in
    let w5 :=
      with_syncStats
        (Stats.with_lastSync (Some (now env)) (Stats.with_status completed (syncStats w4))) w4 in
    finish (saveStats w5).

Definition performFullSync (env : Env) (w : World) : World :=
  if isSyncing w then warn "Sync already in progress, skipping..." w
  else continueFullSync env (beginFullSync env w).

(** One iteration of the loop of [performRecovery]. *)
Definition recoverOne (env : Env) (s : nat * World) (collectionName : string) : nat * World :=
  let '(totalRecovered, w) := s in
  match syncCollectionToMain env collectionName true w with
  | (Ok recoveredCount, w1) =>
      (totalRecovered + recoveredCount,
       emit (collectionRecovered collectionName recoveredCount) w1)
  | (Throw, w1) => (totalRecovered, countError w1)
  end.

Definition beginRecovery (w : World) : World :=
  emitStats (withStatus recovering (with_isSyncing true w)).

Definition continueRecovery (env : Env) (w1 : World) : World :=
  if negb (isMainDbOnline w1) || negb (isMainAuthOnline w1) then
    finish (warn "Main database or auth still offline, cannot recover" w1)
  else
    let '(totalRecovered, w2) := foldl (recoverOne env) (0, w1) (collections w1) in
    let s2 := syncStats w2 in
    let s3 :=
      Stats.with_status completed
        (Stats.with_totalSynced (Stats.totalSynced s2 + totalRecovered) s2) in
    finish (saveStats (with_syncStats s3 w2)).

Definition performRecovery (env : Env) (w : World) : World :=
  if isSyncing w then warn "Recovery already in progress, skipping..." w
  else continueRecovery env (beginRecovery w).

(** [forceFullSync] of the base class. *)
Definition forceFullSync (env : Env) (w : World) : World :=
  let w1 := with_syncMetadata ∅ w in
  performFullSync env
    (with_syncStats (Stats.with_duplicatesSkipped 0 (syncStats w1)) w1).

(** ** The calls as the event loop runs them

    The definitions above take a call from its start to its end.  The
    event loop does not: an [async] function runs up to an [await], is
    suspended there, and other calls are served before it resumes.  The
    functions a forward run or a recovery goes through are given here a
    second time, with every [await] of the source kept as a point of
    suspension.  Lemma [complete_performFullSync] and its neighbours
    relate the two readings: a call run to its end without interruption
    is the call of the definitions above. *)

Module Async.

(** What is left of a call: its result, or the code that runs when the
    call is resumed, up to the next [await]. *)
Inductive Act (A : Type) : Type :=
  | Ret (a : A)
  | Await (resume : World → World * Act A).
Arguments Ret {A} a.
Arguments Await {A} resume.

(** An [async] function: called in a world, it runs up to its first
    [await]. *)
Definition t (A : Type) : Type := World → World * Act A.

Definition ret {A} (a : A) : t A := λ w, (w, Ret a).

Fixpoint after {A B} (a : Act A) (f : A → t B) : t B :=
  match a with
  | Ret x => f x
  | Await resume =>
      λ w, (w, Await (λ w', let '(w1, a1) := resume w' in after a1 f w1))
  end.

Definition bind {A B} (m : t A) (f : A → t B) : t B :=
  λ w, let '(w1, a) := m w in after a f w1.

(** Synchronous code: a read and an update of the service. *)
Definition get {A} (f : World → A) : t A := λ w, (w, Ret (f w)).
Definition act (f : World → World) : t unit := λ w, (f w, Ret ()).

(** [await p] for a promise [p] of the outside world (a database call, a
    health probe, the authentication pass): the function is suspended,
    and the answer is that of the world in which it resumes. *)
Definition await {A} (io : World → A * World) : t A :=
  λ w, (w, Await (λ w', let '(a, w1) := io w' in (w1, Ret a))).

(** [await f()] for an [async] method [f] of the service: [f] runs, with
    its own suspensions, and the caller resumes in a later turn. *)
Definition awaited {A} (m : t A) : t A :=
  bind m (λ a w, (w, Await (λ w', (w', Ret a)))).

(** [for (const x of l) { ... }] with a body that awaits; [s] holds the
    variables the body updates. *)
Fixpoint forOf {A S} (body : S → A → t S) (s : S) (l : list A) : t S :=
  match l with
  | [] => ret s
  | x :: rest => bind (body s x) (λ s1, forOf body s1 rest)
  end.

Local Notation "'let*' x := m 'in' k" := (bind m (λ x, k))
  (at level 10, x name, m at level 100, k at level 200,
   format "'[v' 'let*'  x  :=  m  'in' '/' k ']'").
Local Notation "m ;; k" := (bind m (λ _, k))
  (at level 100, k at level 200, right associativity,
   format "'[v' m  ;; '/' k ']'").

(** The part of [analyzeCollectionSchema] that follows the sample. *)
Definition recordSchema (collectionName : string) (snapshot : list (string * obj))
    (w : World) : World :=
  let schemaArray := sampleSchema snapshot in
  let w1 :=
    match collectionsSchema w !! collectionName with
    | Some previousSchema =>
        let newKeys := filter (λ key, key ∉ previousSchema) schemaArray in
        if bool_decide (0 < length newKeys)%nat
        then emit (schemaChange collectionName newKeys (length schemaArray)) w
        else w
    | None => w
    end in
  with_collectionsSchema (<[collectionName := schemaArray]> (collectionsSchema w1)) w1.

Definition analyzeCollectionSchema (env : Env) (collectionName : string) : t unit :=
  let* snapshot :=
    await (λ w, (if sampleFails env collectionName then Throw
                 else Ok (take 5 (Firestore.getDocs (mainDb w) collectionName)), w)) in
  match snapshot with
  | Ok snapshot => act (recordSchema collectionName snapshot)
  | Throw => ret ()
  end.

Definition discoverCollections (env : Env) : t (list string) :=
  let* mainCollections :=
    await (λ w, (if listFails env then Throw
                 else Ok (Firestore.listCollections (mainDb w)), w)) in
  match mainCollections with
  | Throw => ret []
  | Ok mainCollections =>
      let newCollections := foldl (λ acc c, setAdd c acc) mainCollections knownCollections in
      act (with_collections newCollections);;
      forOf (λ _ c, awaited (analyzeCollectionSchema env c)) () newCollections;;
      act (λ w, with_syncStats (Stats.with_collections (collections w) (syncStats w)) w);;
      act emitStats;;
      get collections
  end.

(** [getIncrementalDocuments]: its one [await] is the query; the wrappers
    are built from the answer. *)
Definition getIncrementalDocuments (env : Env) (side : Side) (collectionName : string)
    (lastSyncTime : option string) : t (Res (list Doc.t)) :=
  await (λ w, (getIncrementalDocuments env side w collectionName lastSyncTime, w)).

(** The loop of [checkForDuplicates] over the slices of 100 documents;
    [None] when a [getAll] rejects. *)
Fixpoint existingLoop (env : Env) (side : Side) (collectionName : string)
    (n : nat) (batches : list (list Doc.t)) (existingDocs : gset string)
  : t (option (gset string)) :=
  match batches with
  | [] => ret (Some existingDocs)
  | batch :: rest =>
      let* snapshots :=
        await (λ w, (if getAllFails env side collectionName n then Throw
                     else Ok (Firestore.getAll (db side w) collectionName (map Doc.id batch)),
                     w)) in
      match snapshots with
      | Throw => ret None
      | Ok snapshots =>
          existingLoop env side collectionName (S n) rest
            (foldl markExisting existingDocs (zip snapshots batch))
      end
  end.

Definition checkForDuplicates (env : Env) (side : Side) (collectionName : string)
    (documents : list Doc.t) : t (list Doc.t) :=
  let* existing := existingLoop env side collectionName 0 (slices 100 documents) ∅ in
  match existing with
  | Some existingDocs =>
      let filteredDocs := filter (λ doc, Doc.id doc ∉ existingDocs) documents in
      act (countSkipped (length documents - length filteredDocs));;
      ret filteredDocs
  | None => ret documents
  end.

(** [await batch.commit()] *)
Definition commit (env : Env) (side : Side) (collectionName : string) (l : Loop.t)
  : t (Res unit * Loop.t) :=
  await (λ w, let '(r, l1, w1) := commit env side collectionName l w in ((r, l1), w1)).

(** One iteration of [for (const doc of documentsToSync)], with its
    [try]/[catch]. *)
Definition writeStep (env : Env) (side : Side) (collectionName : string)
    (progress : string → nat → nat → Event) (total : nat)
    (l : Loop.t) (doc : Doc.t) : t Loop.t :=
  match Firestore.set (Loop.batch l) (Doc.id doc) (Doc.data doc) with
  | None => act countError;; ret l
  | Some b =>
      let batchCount := S (Loop.batchCount l) in
      let latestTimestamp :=
        if advances (Doc.updatedAt doc) (Loop.latestTimestamp l)
        then Doc.updatedAt doc else Loop.latestTimestamp l in
      let l1 :=
        {| Loop.batch := b; Loop.batchCount := batchCount;
           Loop.totalSynced := Loop.totalSynced l;
           Loop.latestTimestamp := latestTimestamp;
           Loop.commitCalls := Loop.commitCalls l |} in
      if bool_decide (450 ≤ batchCount)%nat then
        let* r := commit env side collectionName l1 in
        match r with
        | (Throw, l2) => act countError;; ret l2
        | (Ok _, l2) =>
            let totalSynced := Loop.totalSynced l2 + Loop.batchCount l2 in
            let l3 :=
              {| Loop.batch := Loop.batch l2; Loop.batchCount := 0;
                 Loop.totalSynced := totalSynced;
                 Loop.latestTimestamp := Loop.latestTimestamp l2;
                 Loop.commitCalls := Loop.commitCalls l2 |} in
            act (emit (progress collectionName totalSynced total));;
            ret l3
        end
      else ret l1
  end.

(** From [const batch = targetDb.batch()] to the commit of the remaining
    operations; [Throw] when that last commit rejects. *)
Definition writeAll (env : Env) (side : Side) (collectionName : string)
    (progress : string → nat → nat → Event) (lastSyncTime : option string)
    (documentsToSync : list Doc.t) : t (Res Loop.t) :=
  let start :=
    {| Loop.batch := Firestore.batch; Loop.batchCount := 0; Loop.totalSynced := 0;
       Loop.latestTimestamp := lastSyncTime; Loop.commitCalls := 0 |} in
  let* l :=
    forOf (writeStep env side collectionName progress (length documentsToSync))
      start documentsToSync in
  if bool_decide (0 < Loop.batchCount l)%nat then
    let* r := commit env side collectionName l in
    match r with
    | (Throw, _) => ret Throw
    | (Ok _, l2) =>
        ret (Ok {| Loop.batch := Loop.batch l2; Loop.batchCount := Loop.batchCount l2;
                   Loop.totalSynced := Loop.totalSynced l2 + Loop.batchCount l2;
                   Loop.latestTimestamp := Loop.latestTimestamp l2;
                   Loop.commitCalls := Loop.commitCalls l2 |})
    end
  else ret (Ok l).

Definition syncCollectionToBackup (env : Env) (collectionName : string)
    (incrementalOnly : bool) : t (Res nat) :=
  let* lastSyncTime :=
    get (λ w, if incrementalOnly then metaGet (syncMetadata w) collectionName else None) in
  let* documents := awaited (getIncrementalDocuments env Main collectionName lastSyncTime) in
  match documents with
  | Throw => ret Throw
  | Ok documents =>
      if bool_decide (length documents = 0) then ret (Ok 0)
      else
        let* documentsToSync := awaited (checkForDuplicates env Backup collectionName documents) in
        if bool_decide (length documentsToSync = 0) then ret (Ok 0)
        else
          let* written :=
            writeAll env Backup collectionName syncProgress lastSyncTime documentsToSync in
          match written with
          | Throw => ret Throw
          | Ok l =>
              act (λ w, with_syncMetadata
                          (<[collectionName := Loop.latestTimestamp l]> (syncMetadata w)) w);;
              let* rejected := await (λ w, (verifyFails env collectionName, w)) in
              if rejected : bool then ret Throw else ret (Ok (Loop.totalSynced l))
          end
  end.

Definition syncCollectionToMain (env : Env) (collectionName : string)
    (incrementalOnly : bool) : t (Res nat) :=
  let key := collectionName +:+ "_recovery" in
  let* lastSyncTime :=
    get (λ w, if incrementalOnly then metaGet (syncMetadata w) key else None) in
  let* documents := awaited (getIncrementalDocuments env Backup collectionName lastSyncTime) in
  match documents with
  | Throw => ret Throw
  | Ok documents =>
      if bool_decide (length documents = 0) then ret (Ok 0)
      else
        let* documentsToRecover :=
          awaited (checkForDuplicates env Main collectionName documents) in
        if bool_decide (length documentsToRecover = 0) then ret (Ok 0)
        else
          let* written :=
            writeAll env Main collectionName recoveryProgress lastSyncTime documentsToRecover in
          match written with
          | Throw => ret Throw
          | Ok l =>
              act (λ w, with_syncMetadata
                          (<[key := Loop.latestTimestamp l]> (syncMetadata w)) w);;
              ret (Ok (Loop.totalSynced l))
          end
  end.

(** [checkDatabaseHealth]: each flag is written when its probe has
    answered. *)
Definition checkDatabaseHealth (env : Env) : t unit :=
  let* mainDbUp := await (λ w, (probeMainDb env, w)) in
  act (with_isMainDbOnline mainDbUp);;
  let* backupDbUp := await (λ w, (probeBackupDb env, w)) in
  act (with_isBackupDbOnline backupDbUp);;
  let* mainAuthUp := await (λ w, (probeMainAuth env, w)) in
  act (with_isMainAuthOnline mainAuthUp);;
  let* backupAuthUp := await (λ w, (probeBackupAuth env, w)) in
  act (with_isBackupAuthOnline backupAuthUp);;
  act (λ w, emit (healthCheck (isMainDbOnline w) (isBackupDbOnline w)
                    (isMainAuthOnline w) (isBackupAuthOnline w)) w).

(** One iteration of the loop of [performFirestoreSync]. *)
Definition syncOne (env : Env) (isFirstSync : bool) (totalSynced : nat)
    (collectionName : string) : t nat :=
  let* r := awaited (syncCollectionToBackup env collectionName (negb isFirstSync)) in
  match r with
  | Ok syncedCount =>
      act (emit (collectionSynced collectionName syncedCount (negb isFirstSync)));;
      ret (totalSynced + syncedCount)
  | Throw => act countError;; ret totalSynced
  end.

Definition performFirestoreSync (env : Env) : t nat :=
  awaited (discoverCollections env);;
  let* isFirstSync := get (λ w, negb (truthy (Stats.lastFullSync (syncStats w)))) in
  let* collectionNames := get collections in
  let* totalSynced := forOf (syncOne env isFirstSync) 0 collectionNames in
  act (λ w,
         let s2 := syncStats w in
         let s3 :=
           Stats.with_incrementalSyncs (S (Stats.incrementalSyncs s2))
             (Stats.with_totalSynced (Stats.totalSynced s2 + totalSynced) s2) in
         let s4 := if isFirstSync then Stats.with_lastFullSync (Some (now env)) s3 else s3 in
         saveStats (with_syncStats s4 w));;
  ret totalSynced.

(** The [try] block of [performFullSync]. *)
Definition fullSyncBody (env : Env) : t unit :=
  awaited (checkDatabaseHealth env);;
  let* mainDown := get (λ w, negb (isMainDbOnline w) || negb (isMainAuthOnline w)) in
  if mainDown : bool then
    act (λ w, emitStats (withStatus paused (warn "Main database or auth is offline" w)))
  else
    let* backupDown := get (λ w, negb (isBackupDbOnline w) || negb (isBackupAuthOnline w)) in
    if backupDown : bool then
      act (λ w, emitStats (countError (withStatus error w)))
    else
      awaited (performFirestoreSync env);;
      let* authStats := await (performFullAuthSync env) in
      act (match authStats with
           | Ok _ => λ w,
               with_lastAuthSync (Some (now env))
                 (with_syncStats (Stats.with_authSync AuthShared (syncStats w)) w)
           | Throw => countError
           end);;
      act (λ w, saveStats
                  (with_syncStats
                     (Stats.with_lastSync (Some (now env))
                        (Stats.with_status completed (syncStats w))) w)).

(** [performFullSync]: the test of the busy flag, the code before the
    [try], the [try] block, the [finally] block. *)
Definition performFullSync (env : Env) : t unit :=
  let* busy := get isSyncing in
  if busy : bool then act (warn "Sync already in progress, skipping...")
  else
    act (beginFullSync env);;
    fullSyncBody env;;
    act finish.

(** One iteration of the loop of [performRecovery]. *)
Definition recoverOne (env : Env) (totalRecovered : nat) (collectionName : string) : t nat :=
  let* r := awaited (syncCollectionToMain env collectionName true) in
  match r with
  | Ok recoveredCount =>
      act (emit (collectionRecovered collectionName recoveredCount));;
      ret (totalRecovered + recoveredCount)
  | Throw => act countError;; ret totalRecovered
  end.

(** The [try] block of [performRecovery]. *)
Definition recoveryBody (env : Env) : t unit :=
  let* mainDown := get (λ w, negb (isMainDbOnline w) || negb (isMainAuthOnline w)) in
  if mainDown : bool then
    act (warn "Main database or auth still offline, cannot recover")
  else
    let* collectionNames := get collections in
    let* totalRecovered := forOf (recoverOne env) 0 collectionNames in
    act (λ w,
           let s2 := syncStats w in
           let s3 :=
             Stats.with_status completed
               (Stats.with_totalSynced (Stats.totalSynced s2 + totalRecovered) s2) in
           saveStats (with_syncStats s3 w)).

Definition performRecovery (env : Env) : t unit :=
  let* busy := get isSyncing in
  if busy : bool then act (warn "Recovery already in progress, skipping...")
  else
    act beginRecovery;;
    recoveryBody env;;
    act finish.

(** [forceFullSync] of the base class: its [await] is its last statement,
    nothing of it runs after [performFullSync] has returned. *)
Definition forceFullSync (env : Env) : t unit :=
  act (with_syncMetadata ∅);;
  act (λ w, with_syncStats (Stats.with_duplicatesSkipped 0 (syncStats w)) w);;
  performFullSync env.

(** [forceFullAuthSync] of the coordinator; a rejected pass is thrown on
    to the route. *)
Definition forceFullAuthSync (env : Env) : t unit :=
  let* authStats := await (performFullAuthSync env) in
  match authStats with
  | Ok _ =>
      act (λ w, with_syncStats (Stats.with_authSync AuthShared (syncStats w)) w);;
      act (with_lastAuthSync (Some (now env)));;
      act saveStats
  | Throw => ret ()
  end.

(** A call run from its start to its end with no other call served at
    its suspensions. *)
Fixpoint finishAct {A} (a : Act A) (w : World) : A * World :=
  match a with
  | Ret x => (x, w)
  | Await resume => let '(w1, a1) := resume w in finishAct a1 w1
  end.

Definition complete {A} (m : t A) (w : World) : A * World :=
  let '(w1, a) := m w in finishAct a w1.

End Async.

(** ** The integrity check ([SyncService.performDataIntegrityCheck]) *)

Inductive Issue :=
  | missing_in_backup (documentId : string)
  | missing_in_main (documentId : string).

(** An entry of [integrityReport.collections]: the two counts and the
    issues, or [{error}] when a read of the collection rejected. *)
Inductive CollectionCheck :=
  | compared (mainCount backupCount issues : nat) (issueDetails : list Issue)
  | unread.

Module Integrity.
Record t := {
  collections : gmap string CollectionCheck;
  totalIssues : nat;
  timestamp : string
}.
End Integrity.

(** [snapshot.forEach(doc => docs.set(doc.id, doc.data()))] on a new
    [Map]. *)
Definition docsMap (snapshot : list (string * obj)) : gmap string obj :=
  foldl (λ docs doc, <[doc.1 := doc.2]> docs) ∅ snapshot.

(** [for (const [id] of docs) if (!others.has(id)) ...]: the [Map] built
    from a snapshot iterates in the order of the snapshot, whose ids are
    distinct. *)
Definition missingFrom (snapshot : list (string * obj)) (others : gmap string obj)
  : list string :=
  filter (λ i, others !! i = None) snapshot.*1.

(** One iteration of [for (const collectionName of this.collections)],
    with its [try]/[catch].  The two reads are scans of the whole
    collection and reject as the environment says a scan does. *)
Definition checkCollection (env : Env) (w : World) (integrityReport : Integrity.t)
    (collectionName : string) : Integrity.t :=
  if scanFails env Main collectionName || scanFails env Backup collectionName then
    {| Integrity.collections :=
         <[collectionName := unread]> (Integrity.collections integrityReport);
       Integrity.totalIssues := Integrity.totalIssues integrityReport;
       Integrity.timestamp := Integrity.timestamp integrityReport |}
  else
    let mainSnapshot := Firestore.getDocs (mainDb w) collectionName in
    let backupSnapshot := Firestore.getDocs (backupDb w) collectionName in
    let mainDocs := docsMap mainSnapshot in
    let backupDocs := docsMap backupSnapshot in
    let issues :=
      (missing_in_backup <$> missingFrom mainSnapshot backupDocs)
      ++ (missing_in_main <$> missingFrom backupSnapshot mainDocs) in
    {| Integrity.collections :=
         <[collectionName := compared (size mainDocs) (size backupDocs) (length issues) issues]>
           (Integrity.collections integrityReport);
       Integrity.totalIssues := Integrity.totalIssues integrityReport + length issues;
       Integrity.timestamp := Integrity.timestamp integrityReport |}.

(** The report the function returns; the [integrityReport] event carries
    the same object and is not part of the trace.  The service is left as
    it was. *)
Definition performDataIntegrityCheck (env : Env) (w : World) : Integrity.t :=
  foldl (checkCollection env w)
    {| Integrity.collections := ∅; Integrity.totalIssues := 0;
       Integrity.timestamp := now env |}
    (collections w).

(** ** The reset route of the server ([POST /api/reset-stats]) *)

(** The handler assigns the literal of the constructor to [syncStats] and
    calls [saveStats]. *)
Definition resetStats (w : World) : World := saveStats (with_syncStats Stats.zero w).

(** ** The authentication replicator ([AuthSyncService]) *)

(** A user record of Firebase Authentication.  [others] stands for the
    fields [importUsersToBackup] copies as they are: the e-mail address,
    the display name, the photo, the phone number, the two flags, the two
    times of [metadata] and the provider data. *)
Module User.
Record t := { uid : string; customClaims : option obj; others : obj }.
End User.

(** An element of the array passed to [importUsers]. *)
Module Imported.
Record t := { uid : string; customClaims : obj; others : obj }.
End Imported.

(** What the two directories answer during one call of the replicator:
    the clock; the pages of the [n]-th listing of a directory ([None]: a
    [listUsers] of that listing rejects); the success and failure counts
    of the [n]-th [importUsers] ([None]: it rejects); and whether
    [setCustomUserClaims] rejects for a uid. *)
Record AuthEnv := {
  clock : string;
  listing : Side → nat → option (list (list User.t));
  importResult : nat → option (nat * nat);
  claimsFail : string → bool
}.

(** The counters of the service, and the calls that have reached the
    backup directory. *)
Record AuthState := {
  authStats : Auth.t;
  importCalls : list (list Imported.t);
  claimCalls : list (string * obj)
}.

Module AuthSync.

Definition countError (st : AuthState) : AuthState :=
  let a := authStats st in
  {| authStats :=
       {| Auth.totalUsers := Auth.totalUsers a; Auth.syncedUsers := Auth.syncedUsers a;
          Auth.errors := S (Auth.errors a); Auth.lastSync := Auth.lastSync a;
          Auth.customClaims := Auth.customClaims a |};
     importCalls := importCalls st; claimCalls := claimCalls st |}.

(** The [do ... while (nextPageToken)] loop: [allUsers.push(...listResult.users)]
    for every page. *)
Definition listAll (pages : option (list (list User.t))) : Res (list User.t) :=
  match pages with
  | Some pages => Ok (foldl (λ allUsers users, allUsers ++ users) [] pages)
  | None => Throw
  end.

(** [exportUsersFromMain]; [n] tells the listings of one call apart. *)
Definition exportUsersFromMain (env : AuthEnv) (n : nat) : Res (list User.t) :=
  listAll (listing env Main n).

(** [users.slice(i, i + batchSize)] for [i = 0, batchSize, ...] *)
Definition batchesOf {A} (batchSize : nat) (users : list A) : list (list A) :=
  reshape (replicate ((length users + (batchSize - 1)) / batchSize) batchSize) users.

(** [batch.map(user => ({...}))] *)
Definition toImport (user : User.t) : Imported.t :=
  {| Imported.uid := User.uid user;
     Imported.customClaims := default [] (User.customClaims user);
     Imported.others := User.others user |}.

(** One iteration of the loop of [importUsersToBackup], with its
    [try]/[catch]. *)
Definition importStep (env : AuthEnv) (s : nat * nat * AuthState) (batch : list User.t)
  : nat * nat * AuthState :=
  let '(call, totalImported, st) := s in
  let usersToImport := toImport <$> batch in
  let st1 :=
    {| authStats := authStats st; importCalls := importCalls st ++ [usersToImport];
       claimCalls := claimCalls st |} in
  match importResult env call with
  | Some (successCount, _) => (S call, totalImported + successCount, st1)
  | None => (S call, totalImported, countError st1)
  end.

Definition importUsersToBackup (env : AuthEnv) (users : list User.t) (st : AuthState)
  : nat * AuthState :=
  let '(_, totalImported, st1) := foldl (importStep env) (0, 0, st) (batchesOf 1000 users) in
  (totalImported, st1).

(** [user.customClaims && Object.keys(user.customClaims).length > 0] *)
Definition hasClaims (user : User.t) : bool :=
  match User.customClaims user with
  | Some (_ :: _) => true
  | _ => false
  end.

Definition claimStep (env : AuthEnv) (s : nat * AuthState) (user : User.t) : nat * AuthState :=
  let '(claimsSynced, st) := s in
  if hasClaims user then
    if claimsFail env (User.uid user) then (claimsSynced, st)
    else
      (S claimsSynced,
       {| authStats := authStats st; importCalls := importCalls st;
          claimCalls :=
            claimCalls st ++ [(User.uid user, default [] (User.customClaims user))] |})
  else (claimsSynced, st).

(** [syncCustomClaims] lists the main directory again. *)
Definition syncCustomClaims (env : AuthEnv) (n : nat) (st : AuthState) : Res nat * AuthState :=
  match exportUsersFromMain env n with
  | Throw => (Throw, st)
  | Ok mainUsers =>
      let '(claimsSynced, st1) := foldl (claimStep env) (0, st) mainUsers in
      (Ok claimsSynced, st1)
  end.

Definition setStats (f : Auth.t → Auth.t) (st : AuthState) : AuthState :=
  {| authStats := f (authStats st); importCalls := importCalls st;
     claimCalls := claimCalls st |}.

Definition performFullAuthSync (env : AuthEnv) (st : AuthState) : Res Auth.t * AuthState :=
  let st0 :=
    setStats (λ a, {| Auth.totalUsers := Auth.totalUsers a;
                      Auth.syncedUsers := Auth.syncedUsers a; Auth.errors := Auth.errors a;
                      Auth.lastSync := Some (clock env);
                      Auth.customClaims := Auth.customClaims a |}) st in
  match exportUsersFromMain env 0 with
  | Throw => (Throw, countError st0)
  | Ok users =>
      let st1 :=
        setStats (λ a, {| Auth.totalUsers := length users;
                          Auth.syncedUsers := Auth.syncedUsers a; Auth.errors := Auth.errors a;
                          Auth.lastSync := Auth.lastSync a;
                          Auth.customClaims := Auth.customClaims a |}) st0 in
      let '(syncedCount, st2) := importUsersToBackup env users st1 in
      let st3 :=
        setStats (λ a, {| Auth.totalUsers := Auth.totalUsers a;
                          Auth.syncedUsers := syncedCount; Auth.errors := Auth.errors a;
                          Auth.lastSync := Auth.lastSync a;
                          Auth.customClaims := Auth.customClaims a |}) st2 in
      match syncCustomClaims env 1 st3 with
      | (Throw, st4) => (Throw, countError st4)
      | (Ok claimsSynced, st4) =>
          let st5 :=
            setStats (λ a, {| Auth.totalUsers := Auth.totalUsers a;
                              Auth.syncedUsers := Auth.syncedUsers a;
                              Auth.errors := Auth.errors a; Auth.lastSync := Auth.lastSync a;
                              Auth.customClaims := claimsSynced |}) st4 in
          (Ok (authStats st5), st5)
      end
  end.

(** The report of [verifyAuthSyncIntegrity]. *)
Record Report := {
  mainCount : nat;
  backupCount : nat;
  missingInBackup : nat;
  extraInBackup : nat;
  missingUids : list string;
  extraUids : list string;
  timestamp : string
}.

(** [new Set(array)], in insertion order. *)
Definition toSet (uids : list string) : list string :=
  foldl (λ acc uid, setAdd uid acc) [] uids.

Definition verifyAuthSyncIntegrity (env : AuthEnv) : Res Report :=
  match exportUsersFromMain env 0 with
  | Throw => Throw
  | Ok mainUsers =>
      match listAll (listing env Backup 0) with
      | Throw => Throw
      | Ok backupUsers =>
          let mainUids := toSet (User.uid <$> mainUsers) in
          let backupUids := toSet (User.uid <$> backupUsers) in
          let missingInBackup := filter (λ uid, uid ∉ backupUids) mainUids in
          let extraInBackup := filter (λ uid, uid ∉ mainUids) backupUids in
          Ok {| mainCount := length mainUsers;
                backupCount := length backupUsers;
                missingInBackup := length missingInBackup;
                extraInBackup := length extraInBackup;
                missingUids := missingInBackup;
                extraUids := extraInBackup;
                timestamp := clock env |}
      end
  end.

End AuthSync.

(** * Vocabulary of the properties

    Definitions the statements below are written with; none of them is
    part of the program. *)

(** ** The write loop and its frame *)

(** The write a document is queued as. *)
Definition opOf (doc : Doc.t) : string * obj := (Doc.id doc, Doc.data doc).

(** The running maximum kept in [latestTimestamp]. *)
Definition latestOf (lastSyncTime : option string) (docs : list Doc.t) : option string :=
  foldl (λ latest doc, if advances (Doc.updatedAt doc) latest then Doc.updatedAt doc else latest)
    lastSyncTime docs.

Definition startLoop (lastSyncTime : option string) : Loop.t :=
  {| Loop.batch := Firestore.batch; Loop.batchCount := 0; Loop.totalSynced := 0;
     Loop.latestTimestamp := lastSyncTime; Loop.commitCalls := 0 |}.

(** The world after the commit of [ops] into the collection. *)
Definition committedWorld (side : Side) (collectionName : string)
    (ops : list (string * obj)) (w : World) : World :=
  let w1 :=
    with_db side
      (<[collectionName :=
           Firestore.applyOps ops (Firestore.collection (db side w) collectionName)]> (db side w)) w in
  with_commitLog (commitLog w1 ++ [(side, collectionName, ops)]) w1.

Definition other (side : Side) : Side :=
  match side with Main => Backup | Backup => Main end.

(** The part of the service no collection sync writes. *)
Definition coreOf (w : World) :=
  (collections w, collectionsSchema w, isSyncing w,
   (isMainDbOnline w, isBackupDbOnline w, isMainAuthOnline w, isBackupAuthOnline w),
   lastAuthSync w, authSyncStats w, statsFile w, warnings w).

(** The counters no collection sync writes. *)
Definition steadyStats (s : Stats.t) :=
  (Stats.totalSynced s, Stats.lastSync s, Stats.collections s, Stats.status s,
   Stats.incrementalSyncs s, Stats.lastFullSync s, Stats.authSync s).

(** What the write loop of one collection may change: the documents of
    that collection whose id is in [ids], the log of commits, the events,
    and the error counter. *)
Record WriteFrame (side : Side) (c : string) (ids : list string) (w w' : World) : Prop := {
  wf_core : coreOf w' = coreOf w;
  wf_stats : steadyStats (syncStats w') = steadyStats (syncStats w);
  wf_skipped : Stats.duplicatesSkipped (syncStats w') = Stats.duplicatesSkipped (syncStats w);
  wf_meta : syncMetadata w' = syncMetadata w;
  wf_other_db : db (other side) w' = db (other side) w;
  wf_other_coll : ∀ c', c' ≠ c →
    Firestore.collection (db side w') c' = Firestore.collection (db side w) c';
  wf_other_doc : ∀ i, i ∉ ids →
    Firestore.collection (db side w') c !! i = Firestore.collection (db side w) c !! i;
  wf_log : ∃ more, commitLog w' = commitLog w ++ more
    ∧ Forall (λ e, e.1 = (side, c) ∧ ∀ op, op ∈ e.2 → op.1 ∈ ids) more
}.

Definition opsWithin (ids : list string) (l : Loop.t) : Prop :=
  ∀ op, op ∈ Firestore.ops (Loop.batch l) → op.1 ∈ ids.

(** ** The duplicate check *)

(** The document has a copy in [target] whose timestamp is at least its
    own. *)
Definition isDuplicate (target : gmap string obj) (doc : Doc.t) : bool :=
  match target !! Doc.id doc with
  | Some existingData => upToDate existingData (Doc.data doc)
  | None => false
  end.

Definition dupIds (target : gmap string obj) (docs : list Doc.t) : gset string :=
  list_to_set (Doc.id <$> filter (λ doc, isDuplicate target doc = true) docs).

(** ** The common shape of [syncCollectionToBackup] and [syncCollectionToMain] *)

Definition watermarkKey (target : Side) (c : string) : string :=
  match target with Backup => c | Main => c +:+ "_recovery" end.

Definition progressOf (target : Side) : string → nat → nat → Event :=
  match target with Backup => syncProgress | Main => recoveryProgress end.

(** The sync of collection [c] into [target]. *)
Definition syncTo (target : Side) : Env → string → bool → World → Res nat * World :=
  match target with Backup => syncCollectionToBackup | Main => syncCollectionToMain end.

(** The watermark a sync into [target] starts from. *)
Definition sinceOf (target : Side) (c : string) (incrementalOnly : bool) (w : World)
  : option string :=
  if incrementalOnly then metaGet (syncMetadata w) (watermarkKey target c) else None.

(** The documents a sync into [target] scans. *)
Definition scanned (target : Side) (env : Env) (c : string) (incrementalOnly : bool) (w : World)
  : Res (list Doc.t) :=
  getIncrementalDocuments env (other target) w c (sinceOf target c incrementalOnly w).

(** Both functions are instances of this one (lemma [syncTo_shape]). *)
Definition syncShape (env : Env) (target : Side) (c : string) (incrementalOnly : bool)
    (w : World) : Res nat * World :=
  let lastSyncTime := sinceOf target c incrementalOnly w in
  match scanned target env c incrementalOnly w with
  | Throw => (Throw, w)
  | Ok documents =>
      if bool_decide (length documents = 0) then (Ok 0, w)
      else
        let '(documentsToSync, w1) := checkForDuplicates env target c documents w in
        if bool_decide (length documentsToSync = 0) then (Ok 0, w1)
        else
          match writeAll env target c (progressOf target) lastSyncTime documentsToSync w1 with
          | (Throw, w2) => (Throw, w2)
          | (Ok l, w2) =>
              let w3 :=
                with_syncMetadata
                  (<[watermarkKey target c := Loop.latestTimestamp l]> (syncMetadata w2)) w2 in
              if match target with Backup => verifyFails env c | Main => false end
              then (Throw, w3)
              else (Ok (Loop.totalSynced l), w3)
          end
  end.

(** ** Timestamps held as text

    The program tests a timestamp for truth, takes it through [||] and
    compares it with [>] and [>=]; the embedding reads it as a string
    ([strField]).  The two agree on a field that holds a string or a
    falsy value (a missing field, [null], [false], [0]).  They part on a
    truthy value that is not a string (a number, a Firestore [Timestamp],
    a map, an array): the program keeps such a value and compares it, the
    embedding reads [undefined].  The statements that depend on the outcome
    of the duplicate test, or on the value of a watermark, are therefore
    made for collections whose timestamp fields hold text, and for text of
    ASCII characters, as ISO-8601 timestamps are: on such strings the
    order of [gt] and [ge] is JavaScript's order of code units and
    Firestore's order of UTF-8 bytes at once. *)

Fixpoint asciiText (s : string) : bool :=
  match s with
  | EmptyString => true
  | String a rest => bool_decide (Ascii.nat_of_ascii a < 128) && asciiText rest
  end.

(** A string of ASCII characters, or a value that is falsy in
    JavaScript. *)
Definition textual (v : jsval) : bool :=
  match v with
  | JNull => true
  | JBool b => negb b
  | JNum n => bool_decide (n = 0%Z)
  | JStr s => asciiText s
  | JArr _ | JObj _ => false
  end.

(** Every field of the document that is named [updatedAt] or [createdAt]
    holds text or a falsy value. *)
Definition textStamps (data : obj) : bool :=
  forallb (λ e : string * jsval,
             negb (String.eqb e.1 "updatedAt" || String.eqb e.1 "createdAt") || textual e.2)
    data.

Definition textStamped (docs : gmap string obj) : Prop :=
  map_Forall (λ _ data, textStamps data = true) docs.

#[global] Instance textStamped_dec docs : Decision (textStamped docs).
Proof. unfold textStamped. apply _. Defined.

(** A sync of [c] into [target] meets text only: in the documents of [c]
    on both sides and in the watermark it starts from. *)
Definition textSync (target : Side) (c : string) (incrementalOnly : bool) (w : World) : Prop :=
  textStamped (Firestore.collection (db (other target) w) c)
  ∧ textStamped (Firestore.collection (db target w) c)
  ∧ from_option asciiText true (sinceOf target c incrementalOnly w) = true.

(** The same, for every collection and every watermark. *)
Definition textWorld (w : World) : Prop :=
  map_Forall (λ _ docs, textStamped docs) (mainDb w)
  ∧ map_Forall (λ _ docs, textStamped docs) (backupDb w)
  ∧ map_Forall (λ _ t, from_option asciiText true t = true) (syncMetadata w).

#[global] Instance textWorld_dec w : Decision (textWorld w).
Proof. unfold textWorld. apply _. Defined.

(** The timestamp of the stored copy ([updatedAt], else [createdAt]) is at
    least the timestamp of the new data, and neither is empty. *)
Definition current (existingData newData : obj) : Prop :=
  match timestampOf existingData, timestampOf newData with
  | Some stored, Some own => stored ≠ "" ∧ own ≠ "" ∧ ge stored own = true
  | _, _ => False
  end.

#[global] Instance current_dec existingData newData : Decision (current existingData newData).
Proof.
  unfold current. destruct (timestampOf existingData), (timestampOf newData); apply _.
Defined.

(** [target] holds under [i] a copy that is current with respect to
    [data]. *)
Definition hasCurrentCopy (target : gmap string obj) (i : string) (data : obj) : Prop :=
  match target !! i with
  | Some existingData => current existingData data
  | None => False
  end.

#[global] Instance hasCurrentCopy_dec target i data : Decision (hasCurrentCopy target i data).
Proof. unfold hasCurrentCopy. destruct (target !! i); apply _. Defined.

(** ** Worlds and environments used in the examples *)

Module Fixture.

(** An environment in which every probe answers and no promise rejects. *)
Definition calm (clock : string) : Env :=
  {| now := clock;
     probeMainDb := true; probeBackupDb := true;
     probeMainAuth := true; probeBackupAuth := true;
     listFails := false; sampleFails := λ _, false; scanFails := λ _ _, false;
     getAllFails := λ _ _ _, false; commitFails := λ _ _ _, false;
     verifyFails := λ _, false; authPlan := authOk 0 0 0 0 |}.

(** The same, except that the first [getAll] of every duplicate check
    rejects. *)
Definition precheckDown (clock : string) : Env :=
  {| now := clock;
     probeMainDb := true; probeBackupDb := true;
     probeMainAuth := true; probeBackupAuth := true;
     listFails := false; sampleFails := λ _, false; scanFails := λ _ _, false;
     getAllFails := λ _ _ n, bool_decide (n = 0); commitFails := λ _ _ _, false;
     verifyFails := λ _, false; authPlan := authOk 0 0 0 0 |}.

Definition june : string := "2024-06-01T00:00:00.000Z".

Definition stamped (updatedAt note : string) : obj :=
  [("updatedAt", JStr updatedAt); ("note", JStr note)].

(** A service that has just been constructed on the two databases, with no
    stats file. *)
Definition fresh (main backup : gmap string (gmap string obj)) : World :=
  construct main backup None.

(** The primary holds [a1] as of 00:00:01; the standby holds a later
    version of [a1]. *)
Definition staleSource : World :=
  fresh {[ "appointments" := {[ "a1" := stamped "2024-01-01T00:00:01Z" "old" ]} ]}
        {[ "appointments" := {[ "a1" := stamped "2024-01-01T00:00:09Z" "new" ]} ]}.

Definition a1 : Doc.t :=
  {| Doc.id := "a1"; Doc.data := stamped "2024-01-01T00:00:01Z" "old";
     Doc.updatedAt := Some "2024-01-01T00:00:01Z" |}.

End Fixture.

(** ** Watermarks and scans *)

(** [t] is a non-empty timestamp at least [u], when [u] is one. *)
Definition atLeast (t u : option string) : Prop :=
  truthy u = true → ∃ a b, t = Some a ∧ u = Some b ∧ a ≠ "" ∧ ge a b = true.

Definition latestStep (latest : option string) (doc : Doc.t) : option string :=
  if advances (Doc.updatedAt doc) latest then Doc.updatedAt doc else latest.

(** The stored documents a scan reads: the whole collection, or the part
    above the watermark. *)
Definition scanOf (d : gmap string (gmap string obj)) (c : string) (lastSyncTime : option string)
  : list (string * obj) :=
  match lastSyncTime with
  | Some since =>
      if truthy lastSyncTime then Firestore.whereUpdatedAtGt since (Firestore.getDocs d c)
      else Firestore.getDocs d c
  | None => Firestore.getDocs d c
  end.

(** The progress event is emitted when the batch fills up exactly. *)
Definition progressAtLimit (target : Side) (c : string) (n : nat) (w : World) : World :=
  if bool_decide (n = 450) then emit (progressOf target c 450 n) w else w.

(** The world after a sync into [target] that scanned [documents], found
    the duplicate check answering, scheduled [toSync] (at most 450) and saw
    its commit accepted. *)
Definition syncedWorld (target : Side) (c : string) (lastSyncTime : option string)
    (skipped : nat) (toSync : list Doc.t) (w : World) : World :=
  let w2 :=
    progressAtLimit target c (length toSync)
      (committedWorld target c (opOf <$> toSync) (countSkipped skipped w)) in
  with_syncMetadata
    (<[watermarkKey target c := latestOf lastSyncTime toSync]> (syncMetadata w2)) w2.

(** No database call of a sync of [c] into [target] rejects. *)
Definition quiet (env : Env) (target : Side) (c : string) : Prop :=
  scanFails env (other target) c = false
  ∧ (∀ k, getAllFails env target c k = false)
  ∧ (∀ k, commitFails env target c k = false)
  ∧ match target with Backup => verifyFails env c | Main => false end = false.

(** ** More example worlds *)

Module Crowd.

(** [n] documents [d0], [d1], ... stamped 00:00:01. *)
Definition documents (n : nat) : gmap string obj :=
  list_to_map ((λ k, ("d" +:+ pretty k, Fixture.stamped "2024-01-01T00:00:01Z" "n")) <$> seq 0 n).

(** A fresh service whose primary holds [n] appointments and whose standby
    is empty. *)
Definition world (n : nat) : World :=
  Fixture.fresh {[ "appointments" := documents n ]} ∅.

End Crowd.

Module Undated.

(** [u1] carries no timestamp, [u2] was created on 2023-01-01; the standby
    is empty. *)
Definition world : World :=
  Fixture.fresh
    {[ "users" := {[ "u1" := [("name", JStr "Ann")];
                     "u2" := [("createdAt", JStr "2023-01-01T00:00:00Z")] ]} ]} ∅.

End Undated.

(** ** Dotted key paths *)

(** Induction on values that goes through the arrays and the maps. *)
Section JsvalInduction.

Variable P : jsval → Prop.
Hypothesis Hnull : P JNull.
Hypothesis Hbool : ∀ b, P (JBool b).
Hypothesis Hnum : ∀ n, P (JNum n).
Hypothesis Hstr : ∀ s, P (JStr s).
Hypothesis Harr : ∀ items, Forall P items → P (JArr items).
Hypothesis Hobj : ∀ fields : obj, Forall (λ e, P e.2) fields → P (JObj fields).

Fixpoint jsval_nested_ind (v : jsval) : P v :=
  match v with
  | JNull => Hnull
  | JBool b => Hbool b
  | JNum n => Hnum n
  | JStr s => Hstr s
  | JArr items =>
      Harr items
        ((fix all (l : list jsval) : Forall P l :=
            match l with
            | [] => @List.Forall_nil _ P
            | x :: rest => @List.Forall_cons _ P x rest (jsval_nested_ind x) (all rest)
            end) items)
  | JObj fields =>
      Hobj fields
        ((fix all (l : obj) : Forall (λ e, P e.2) l :=
            match l with
            | [] => @List.Forall_nil _ (λ e, P e.2)
            | e :: rest =>
                @List.Forall_cons _ (λ e, P e.2) e rest (jsval_nested_ind e.2) (all rest)
            end) fields)
  end.

End JsvalInduction.

(** [k] is the dotted path of a field of [o], or of a field of a map nested
    in [o]; arrays are not entered. *)
Inductive hasPath : string → obj → string → Prop :=
  | path_here prefix (o : obj) key value :
      (key, value) ∈ o → hasPath prefix o (fullKeyOf prefix key)
  | path_below prefix (o : obj) key inner k :
      (key, JObj inner) ∈ o → hasPath (fullKeyOf prefix key) inner k → hasPath prefix o k.

(** ** Example worlds for schema tracking, discovery and the coordinator *)

Module Notes.

Definition env : Env := Fixture.calm Fixture.june.

(** The primary holds one note with a title and a body. *)
Definition world : World :=
  Fixture.fresh {[ "notes" := {[ "n1" := [("title", JStr "t"); ("body", JStr "b")] ]} ]} ∅.

(** The same note after its body has been removed on the primary. *)
Definition trimmed : gmap string (gmap string obj) :=
  {[ "notes" := {[ "n1" := [("title", JStr "t")] ]} ]}.

End Notes.

(** Equal up to the stored schemas and the emitted events. *)
Definition sameButSchema (w w' : World) : Prop :=
  with_emitted [] (with_collectionsSchema ∅ w') = with_emitted [] (with_collectionsSchema ∅ w).

Module Invoices.

(** The primary holds one invoice. *)
Definition world : World :=
  Fixture.fresh {[ "invoices" := {[ "i1" := [("total", JNum 12)] ]} ]} ∅.

End Invoices.

Module Bringup.

(** Three appointments and two users on the primary, an empty standby, a
    service that has just been constructed. *)
Definition world : World :=
  Fixture.fresh
    {[ "appointments" :=
         {[ "a1" := Fixture.stamped "2024-01-01T00:00:01Z" "first";
            "a2" := Fixture.stamped "2024-01-01T00:00:02Z" "second";
            "a3" := Fixture.stamped "2024-01-01T00:00:03Z" "third" ]};
       "users" :=
         {[ "u1" := Fixture.stamped "2024-01-01T00:00:04Z" "Ann";
            "u2" := Fixture.stamped "2024-01-01T00:00:05Z" "Bob" ]} ]} ∅.

(** Every probe answers except one. *)
Definition mainAuthDown : Env :=
  {| now := Fixture.june; probeMainDb := true; probeBackupDb := true;
     probeMainAuth := false; probeBackupAuth := true; listFails := false;
     sampleFails := λ _, false; scanFails := λ _ _, false;
     getAllFails := λ _ _ _, false; commitFails := λ _ _ _, false;
     verifyFails := λ _, false; authPlan := authOk 0 0 0 0 |}.

Definition mainDbDown : Env :=
  {| now := Fixture.june; probeMainDb := false; probeBackupDb := true;
     probeMainAuth := true; probeBackupAuth := true; listFails := false;
     sampleFails := λ _, false; scanFails := λ _ _, false;
     getAllFails := λ _ _ _, false; commitFails := λ _ _ _, false;
     verifyFails := λ _, false; authPlan := authOk 0 0 0 0 |}.

End Bringup.

(** ** Runs and their interleavings *)

Inductive Run := forward | recovery.

Definition busyLine (r : Run) : string :=
  match r with
  | forward => "Sync already in progress, skipping..."
  | recovery => "Recovery already in progress, skipping..."
  end.

(** A call of [performFullSync] or [performRecovery]. *)
Definition call (r : Run) (env : Env) (w : World) : World :=
  match r with forward => performFullSync env w | recovery => performRecovery env w end.

(** The calls the server makes on the service that change its state: the
    routes [POST /api/sync] (and the ten-minute job), [POST /api/recover],
    [POST /api/sync/full], the health check (the ten-second timer, three
    routes, a socket that connects), the discovery (the five-minute job,
    [GET /api/collections]), [GET /api/collections/:name/schema],
    [POST /api/sync/auth] and [POST /api/reset-stats]. *)
Inductive Entry :=
  | fullSync
  | recover
  | forcedSync
  | health
  | discovery
  | schemaOf (collectionName : string)
  | authSync
  | statsReset.

Definition enter (e : Entry) (env : Env) : Async.t unit :=
  match e with
  | fullSync => Async.performFullSync env
  | recover => Async.performRecovery env
  | forcedSync => Async.forceFullSync env
  | health => Async.checkDatabaseHealth env
  | discovery => Async.bind (Async.discoverCollections env) (λ _, Async.ret ())
  | schemaOf collectionName => Async.analyzeCollectionSchema env collectionName
  | authSync => Async.forceFullAuthSync env
  | statsReset => Async.act resetStats
  end.

(** The entry point behind a call of [performFullSync] or
    [performRecovery]. *)
Definition entryOf (r : Run) : Entry :=
  match r with forward => fullSync | recovery => recover end.

(** The run a call is when it gets past the test of the busy flag. *)
Definition runOf (e : Entry) : option Run :=
  match e with
  | fullSync | forcedSync => Some forward
  | recover => Some recovery
  | _ => None
  end.

Definition begun (e : Entry) (w : World) : option Run :=
  if isSyncing w then None else runOf e.

(** A suspended call, and the run it is when it is one. *)
Definition Task : Type := option Run * Async.Act unit.

(** A call that has come to its end is no task. *)
Definition suspended (tag : option Run) (a : Async.Act unit) : list Task :=
  match a with
  | Async.Ret _ => []
  | Async.Await _ => [(tag, a)]
  end.

(** The service as the event loop sees it: its state, and the calls that
    are suspended at an [await].  A turn of the loop serves a new call up
    to its first [await], or resumes a suspended call up to its next
    [await]; between two turns another program may write a database. *)
Inductive step : World * list Task → World * list Task → Prop :=
  | step_call e env w tasks :
      step (w, tasks)
           ((enter e env w).1, tasks ++ suspended (begun e w) (enter e env w).2)
  | step_resume tag resume w before behind :
      step (w, before ++ (tag, Async.Await resume) :: behind)
           ((resume w).1, before ++ suspended tag (resume w).2 ++ behind)
  | step_foreign side d w tasks :
      step (w, tasks) (with_db side d w, tasks).

(** The runs under way. *)
Definition running (tasks : list Task) : list Run := omap fst tasks.

(** Either no run is under way and the flag is down, or exactly one is and
    the flag is up. *)
Definition exclusive (s : World * list Task) : Prop :=
  (running s.2 = [] ∧ isSyncing s.1 = false) ∨ (∃ r, running s.2 = [r] ∧ isSyncing s.1 = true).

(** Induction on what is left of a call. *)
Section ActInduction.

Context {A : Type} (P : Async.Act A → Prop).
Hypothesis Hret : ∀ a, P (Async.Ret a).
Hypothesis Hawait : ∀ resume, (∀ w, P (resume w).2) → P (Async.Await resume).

Fixpoint Act_nested_ind (a : Async.Act A) : P a :=
  match a with
  | Async.Ret x => Hret x
  | Async.Await resume => Hawait resume (λ w, Act_nested_ind (resume w).2)
  end.

End ActInduction.

(** No turn of the call writes the busy flag. *)
Inductive Steady {A : Type} : Async.Act A → Prop :=
  | steady_ret a : Steady (Async.Ret a)
  | steady_await resume :
      (∀ w, isSyncing (resume w).1 = isSyncing w) →
      (∀ w, Steady (resume w).2) →
      Steady (Async.Await resume).

Definition steady {A : Type} (m : Async.t A) : Prop :=
  ∀ w, isSyncing (m w).1 = isSyncing w ∧ Steady (m w).2.

(** Resumed with the flag up, the call leaves it up at every turn but its
    last, which leaves it down. *)
Fixpoint Lowering {A : Type} (a : Async.Act A) : Prop :=
  match a with
  | Async.Ret _ => False
  | Async.Await resume =>
      ∀ w, isSyncing w = true →
        match (resume w).2 with
        | Async.Ret _ => isSyncing (resume w).1 = false
        | Async.Await _ => isSyncing (resume w).1 = true ∧ Lowering (resume w).2
        end
  end.

Definition lowers {A : Type} (r : World * Async.Act A) : Prop :=
  match r.2 with
  | Async.Ret _ => isSyncing r.1 = false
  | Async.Await _ => isSyncing r.1 = true ∧ Lowering r.2
  end.

(** A task that is a run holds the flag up until its last turn; any other
    task leaves the flag alone. *)
Definition orderly (task : Task) : Prop :=
  match task.1 with
  | Some _ => Lowering task.2
  | None => Steady task.2
  end.

(** ** Two forward passes *)

(** [isDuplicate] on a stored document: the wrapper adds nothing to the
    test. *)
Definition isDup (target : gmap string obj) (d : string * obj) : bool :=
  match target !! d.1 with
  | Some existingData => upToDate existingData d.2
  | None => false
  end.

(** Every document of the next incremental scan of [c] has an up-to-date
    copy on the standby. *)
Definition settled (w : World) (c : string) : Prop :=
  ∀ d, d ∈ scanOf (mainDb w) c (metaGet (syncMetadata w) c) →
       isDup (Firestore.collection (backupDb w) c) d = true.

(** What a forward sync of [c] that ends in one of the three ways leaves
    alone. *)
Record ForwardFrame (c : string) (w w' : World) : Prop := {
  ff_main : mainDb w' = mainDb w;
  ff_core : coreOf w' = coreOf w;
  ff_stats : steadyStats (syncStats w') = steadyStats (syncStats w);
  ff_errors : Stats.errors (syncStats w') = Stats.errors (syncStats w);
  ff_backup : ∀ c', c' ≠ c →
    Firestore.collection (backupDb w') c' = Firestore.collection (backupDb w) c';
  ff_meta : ∀ c', c' ≠ c → metaGet (syncMetadata w') c' = metaGet (syncMetadata w) c'
}.

(** All four probes answer. *)
Definition healthy (env : Env) : Prop :=
  probeMainDb env = true ∧ probeBackupDb env = true
  ∧ probeMainAuth env = true ∧ probeBackupAuth env = true.

(** A run in which the probes answer and no database call rejects. *)
Definition quietRun (env : Env) : Prop :=
  healthy env ∧ listFails env = false ∧ ∀ c, quiet env Backup c.

(** The collection list a discovery computes. *)
Definition discovered (main : gmap string (gmap string obj)) : list string :=
  foldl (λ acc c, setAdd c acc) (Firestore.listCollections main) knownCollections.

(** The documents, the watermarks and the commit log. *)
Definition docsOf (w : World) :=
  (mainDb w, backupDb w, syncMetadata w, commitLog w).

(** The state in which the loop of [performFirestoreSync] starts. *)
Definition loopStart (env : Env) (w : World) : World :=
  (discoverCollections env (checkDatabaseHealth env (beginFullSync env w))).1.

(** The loop of a forward run, from its start state. *)
Definition loopOf (env : Env) (w : World) : nat * World :=
  let w0 := loopStart env w in
  foldl (syncOne env (negb (truthy (Stats.lastFullSync (syncStats w0))))) (0, w0) (collections w0).

Module Overtaken.

(** The primary holds [a1], stamped 00:00:01, and [a2], stamped 00:00:09;
    the standby already holds that version of [a2]. *)
Definition world : World :=
  Fixture.fresh
    {[ "appointments" :=
         {[ "a1" := Fixture.stamped "2024-01-01T00:00:01Z" "first";
            "a2" := Fixture.stamped "2024-01-01T00:00:09Z" "second" ]} ]}
    {[ "appointments" :=
         {[ "a2" := Fixture.stamped "2024-01-01T00:00:09Z" "second" ]} ]}.

End Overtaken.

(** ** What a sync and a run may change, whatever rejects *)

(** What a sync of [c] into [target] may change, whatever rejects: the
    collection [c] of the target, the watermark of that sync, the log of
    commits, the events, and the two counters [errors] and
    [duplicatesSkipped], which grow. *)
Record SyncEffect (target : Side) (c : string) (w w' : World) : Prop := {
  se_core : coreOf w' = coreOf w;
  se_stats : steadyStats (syncStats w') = steadyStats (syncStats w);
  se_errors : Stats.errors (syncStats w) ≤ Stats.errors (syncStats w');
  se_skipped : Stats.duplicatesSkipped (syncStats w) ≤ Stats.duplicatesSkipped (syncStats w');
  se_source : db (other target) w' = db (other target) w;
  se_colls : ∀ c', c' ≠ c →
    Firestore.collection (db target w') c' = Firestore.collection (db target w) c';
  se_meta : ∀ k, k ≠ watermarkKey target c → syncMetadata w' !! k = syncMetadata w !! k;
  se_log : ∃ more, commitLog w' = commitLog w ++ more ∧ Forall (λ e, e.1 = (target, c)) more
}.

(** What a run that writes into [target] may change of the documents and
    of the counters: the other database is left alone, every batch
    committed goes to [target], no counter decreases, [lastFullSync]
    stays as it is once it is set, and [authSync] stays the object of the
    authentication service once it is that object. *)
Record RunEffect (target : Side) (w w' : World) : Prop := {
  re_source : db (other target) w' = db (other target) w;
  re_log : ∃ more, commitLog w' = commitLog w ++ more ∧ Forall (λ e, e.1.1 = target) more;
  re_totalSynced : Stats.totalSynced (syncStats w) ≤ Stats.totalSynced (syncStats w');
  re_errors : Stats.errors (syncStats w) ≤ Stats.errors (syncStats w');
  re_skipped : Stats.duplicatesSkipped (syncStats w) ≤ Stats.duplicatesSkipped (syncStats w');
  re_incrementalSyncs :
    Stats.incrementalSyncs (syncStats w) ≤ Stats.incrementalSyncs (syncStats w');
  re_lastFullSync :
    truthy (Stats.lastFullSync (syncStats w)) = true →
    Stats.lastFullSync (syncStats w') = Stats.lastFullSync (syncStats w);
  re_authSync :
    Stats.authSync (syncStats w) = AuthShared → Stats.authSync (syncStats w') = AuthShared
}.

(** The batches a sync of [c] into [target] has committed, as the log
    shows them: each goes to the collection [c] of [target], holds between
    1 and 450 writes, and every write carries the id and the data of a
    document stored on the other side. *)
Definition batchOf (target : Side) (c : string) (w : World)
    (e : Side * string * list (string * obj)) : Prop :=
  e.1 = (target, c)
  ∧ 0 < length e.2 ≤ 450
  ∧ ∀ op, op ∈ e.2 → Firestore.collection (db (other target) w) c !! op.1 = Some op.2.

(** The number of writes in a list of committed batches. *)
Definition writesIn (batches : list (Side * string * list (string * obj))) : nat :=
  sum_list ((λ e, length e.2) <$> batches).

(** The log a step appends, and what the step adds to the running total:
    never more than the writes it has committed. *)
Definition Counted (w w' : World) (total total' : nat) : Prop :=
  ∃ more, commitLog w' = commitLog w ++ more
    ∧ total ≤ total' ≤ total + writesIn more
    ∧ Stats.totalSynced (syncStats w') = Stats.totalSynced (syncStats w).

(** The writes a run adds to [totalSynced], against the log. *)
Definition Accounted (w w' : World) : Prop :=
  ∃ more, commitLog w' = commitLog w ++ more
    ∧ Stats.totalSynced (syncStats w') ≤ Stats.totalSynced (syncStats w) + writesIn more.

(** The counters of [syncStats], without the list of collections. *)
Definition countersOf (s : Stats.t) :=
  (Stats.totalSynced s, Stats.lastSync s, Stats.errors s, Stats.status s,
   Stats.duplicatesSkipped s, Stats.incrementalSyncs s, Stats.lastFullSync s, Stats.authSync s).

(** ** The integrity report *)

(** Both reads of the collection resolve. *)
Definition readable (env : Env) (c : string) : Prop :=
  scanFails env Main c = false ∧ scanFails env Backup c = false.

(** The issues of a collection whose two sides are [main] and [backup]. *)
Definition issuesOf (main backup : gmap string obj) : list Issue :=
  (missing_in_backup <$> missingFrom (map_to_list main) backup)
  ++ (missing_in_main <$> missingFrom (map_to_list backup) main).

(** The entry of collection [c], and what it adds to [totalIssues]. *)
Definition verdictOf (env : Env) (w : World) (c : string) : CollectionCheck :=
  if scanFails env Main c || scanFails env Backup c then unread
  else
    let main := Firestore.collection (mainDb w) c in
    let backup := Firestore.collection (backupDb w) c in
    compared (size main) (size backup) (length (issuesOf main backup)) (issuesOf main backup).

Definition issueCount (env : Env) (w : World) (c : string) : nat :=
  match verdictOf env w c with
  | compared _ _ issues _ => issues
  | unread => 0
  end.

(** ** Environments in which one call rejects *)

Module Mishap.

(** Every probe answers and no promise rejects, except the verification
    read that ends a forward collection sync. *)
Definition verifyDown (clock : string) : Env :=
  {| now := clock;
     probeMainDb := true; probeBackupDb := true;
     probeMainAuth := true; probeBackupAuth := true;
     listFails := false; sampleFails := λ _, false; scanFails := λ _ _, false;
     getAllFails := λ _ _ _, false; commitFails := λ _ _ _, false;
     verifyFails := λ _, true; authPlan := authOk 0 0 0 0 |}.

(** The same, except that the first [commit] of every collection sync
    rejects. *)
Definition firstCommitDown (clock : string) : Env :=
  {| now := clock;
     probeMainDb := true; probeBackupDb := true;
     probeMainAuth := true; probeBackupAuth := true;
     listFails := false; sampleFails := λ _, false; scanFails := λ _ _, false;
     getAllFails := λ _ _ _, false; commitFails := λ _ _ n, bool_decide (n = 0);
     verifyFails := λ _, false; authPlan := authOk 0 0 0 0 |}.

(** The same, except that every read of the standby collection [c]
    rejects. *)
Definition standbyUnread (clock c : string) : Env :=
  {| now := clock;
     probeMainDb := true; probeBackupDb := true;
     probeMainAuth := true; probeBackupAuth := true;
     listFails := false; sampleFails := λ _, false;
     scanFails := λ side c', match side with Backup => bool_decide (c' = c) | Main => false end;
     getAllFails := λ _ _ _, false; commitFails := λ _ _ _, false;
     verifyFails := λ _, false; authPlan := authOk 0 0 0 0 |}.

(** A nested document: a map, an array that holds a map, and a key that
    occurs twice. *)
Definition nested : obj :=
  [("a", JObj [("b", JNum 1)]); ("tags", JArr [JObj [("x", JNull)]]); ("a", JStr "again")].

End Mishap.

(** ** The authentication pass and its summary *)

(** The import calls of a pass that reject, among the first [calls]. *)
Definition rejectedImports (env : AuthEnv) (calls : nat) : nat :=
  length (filter (λ n, importResult env n = None) (seq 0 calls)).

(** The users the import calls that resolve report as imported. *)
Definition importedBy (env : AuthEnv) (calls : nat) : nat :=
  sum_list ((λ n, match importResult env n with Some (ok, _) => ok | None => 0 end)
              <$> seq 0 calls).

(** The users whose claims a pass sets. *)
Definition claimsSetFor (env : AuthEnv) (users : list User.t) : list User.t :=
  filter (λ user, AuthSync.hasClaims user = true ∧ claimsFail env (User.uid user) = false) users.

(** The way a pass goes, as the coordinator sees it. *)
Definition planOf (env : AuthEnv) : AuthPlan :=
  match AuthSync.exportUsersFromMain env 0 with
  | Throw => authExportFails
  | Ok users =>
      let calls := length (AuthSync.batchesOf 1000 users) in
      match AuthSync.exportUsersFromMain env 1 with
      | Throw => authClaimsFail (length users) (importedBy env calls) (rejectedImports env calls)
      | Ok again =>
          authOk (length users) (importedBy env calls) (rejectedImports env calls)
            (length (claimsSetFor env again))
      end
  end.

Module Staff.

(** Two users; the second carries a claim. *)
Definition ann : User.t :=
  {| User.uid := "u1"; User.customClaims := None; User.others := [("email", JStr "ann@x.org")] |}.

Definition bob : User.t :=
  {| User.uid := "u2"; User.customClaims := Some [("admin", JBool true)];
     User.others := [("email", JStr "bob@x.org")] |}.

(** The main directory lists both users on two pages, the backup directory
    lists the first one and a user of its own; every call resolves. *)
Definition env : AuthEnv :=
  {| clock := Fixture.june;
     listing := λ side _,
       match side with
       | Main => Some [[ann]; [bob]]
       | Backup =>
           Some [[ann; {| User.uid := "u9"; User.customClaims := None; User.others := [] |}]]
       end;
     importResult := λ _, Some (2, 0);
     claimsFail := λ _, false |}.

Definition start : AuthState :=
  {| authStats := Auth.zero; importCalls := []; claimCalls := [] |}.

End Staff.

(** * Properties *)

(** ** Order facts on strings *)

Section StringOrder.

Lemma ascii_compare_refl (a : Ascii.ascii) : Ascii.compare a a = Eq.
Proof. unfold Ascii.compare. apply N.compare_refl. Qed.

Lemma ascii_compare_trans (a b c : Ascii.ascii) :
  Ascii.compare a b = Lt → Ascii.compare b c = Lt → Ascii.compare a c = Lt.
Proof.
  unfold Ascii.compare. rewrite !N.compare_lt_iff. apply N.lt_trans.
Qed.

Lemma string_compare_refl (s : string) : String.compare s s = Eq.
Proof.
  induction s as [|a s IH]; simpl; [done|].
  by rewrite ascii_compare_refl.
Qed.

Lemma string_compare_lt_trans (s1 : string) :
  ∀ s2 s3, String.compare s1 s2 = Lt → String.compare s2 s3 = Lt →
           String.compare s1 s3 = Lt.
Proof.
  induction s1 as [|a s1 IH]; intros [|b s2] [|c s3]; simpl; try done.
  destruct (Ascii.compare a b) eqn:Hab; try done.
  - apply Ascii.compare_eq_iff in Hab as ->.
    destruct (Ascii.compare b c) eqn:Hbc; try done.
    apply IH.
  - destruct (Ascii.compare b c) eqn:Hbc; try done.
    + apply Ascii.compare_eq_iff in Hbc as <-. by rewrite Hab.
    + intros _ _. by rewrite (ascii_compare_trans a b c).
Qed.

Lemma gt_lt (a b : string) : gt a b = true ↔ String.compare b a = Lt.
Proof. unfold gt, String.ltb. destruct (String.compare b a); naive_solver. Qed.

Lemma ge_not_gt (a b : string) : ge a b = negb (gt b a).
Proof.
  unfold ge, gt, String.leb, String.ltb.
  rewrite (String.compare_antisym b a).
  by destruct (String.compare a b).
Qed.

Lemma ge_refl (a : string) : ge a a = true.
Proof. unfold ge, String.leb. by rewrite string_compare_refl. Qed.

Lemma gt_trans (a b c : string) : gt a b = true → gt b c = true → gt a c = true.
Proof. rewrite !gt_lt. intros H1 H2. by apply string_compare_lt_trans with b. Qed.

Lemma gt_ge (a b : string) : gt a b = true → ge a b = true.
Proof.
  rewrite ge_not_gt. intros H. destruct (gt b a) eqn:E; [|done].
  pose proof (gt_trans _ _ _ H E) as Haa.
  apply gt_lt in Haa. by rewrite string_compare_refl in Haa.
Qed.

Lemma ge_cases (a b : string) : ge a b = true → a = b ∨ gt a b = true.
Proof.
  unfold ge, gt, String.leb, String.ltb.
  destruct (String.compare b a) eqn:E; try done.
  - apply String.compare_eq_iff in E. by left.
  - by right.
Qed.

Lemma ge_trans (a b c : string) : ge a b = true → ge b c = true → ge a c = true.
Proof.
  intros [->|H1]%ge_cases [->|H2]%ge_cases; auto using ge_refl, gt_ge.
  apply gt_ge. by apply gt_trans with b.
Qed.

Lemma gt_ge_trans (a b c : string) : gt a b = true → ge b c = true → gt a c = true.
Proof. intros H1 [->|H2]%ge_cases; [done|]. by apply gt_trans with b. Qed.

Lemma gt_nonempty (a b : string) : gt a b = true → a ≠ "".
Proof. intros H ->. apply gt_lt in H. by destruct b. Qed.

End StringOrder.

(** ** The write loop *)

Section WriteLoop.

Context (env : Env) (side : Side) (collectionName : string)
        (progress : string → nat → nat → Event) (total : nat).

Lemma writeLoop_below (lastSyncTime : option string) (w : World) (docs : list Doc.t) :
  length docs < 450 →
  foldl (writeStep env side collectionName progress total) (startLoop lastSyncTime, w) docs
  = ({| Loop.batch := {| Firestore.ops := opOf <$> docs; Firestore.committed := false |};
        Loop.batchCount := length docs; Loop.totalSynced := 0;
        Loop.latestTimestamp := latestOf lastSyncTime docs; Loop.commitCalls := 0 |}, w).
Proof.
  induction docs as [|doc docs IH] using rev_ind; intros Hlen; [done|].
  rewrite length_app in Hlen. simpl in Hlen.
  rewrite foldl_app, IH by lia. cbn [foldl].
  unfold writeStep, Firestore.set. cbn [Loop.batch Firestore.committed Firestore.ops
    Loop.batchCount Loop.latestTimestamp Loop.totalSynced Loop.commitCalls].
  rewrite bool_decide_eq_false_2 by lia.
  unfold latestOf. rewrite foldl_app, fmap_app, length_app. cbn [foldl length fmap list_fmap].
  repeat f_equal. lia.
Qed.

Lemma writeLoop_full (lastSyncTime : option string) (w : World) (docs : list Doc.t) :
  length docs = 450 →
  commitFails env side collectionName 0 = false →
  foldl (writeStep env side collectionName progress total) (startLoop lastSyncTime, w) docs
  = ({| Loop.batch := {| Firestore.ops := opOf <$> docs; Firestore.committed := true |};
        Loop.batchCount := 0; Loop.totalSynced := 450;
        Loop.latestTimestamp := latestOf lastSyncTime docs; Loop.commitCalls := 1 |},
     emit (progress collectionName 450 total)
       (committedWorld side collectionName (opOf <$> docs) w)).
Proof.
  intros Hlen Hok.
  destruct docs as [|doc docs _] using rev_ind; [done|].
  rewrite length_app in Hlen. simpl in Hlen.
  rewrite foldl_app, writeLoop_below by lia. cbn [foldl].
  unfold writeStep, Firestore.set. cbn [Loop.batch Firestore.committed Firestore.ops
    Loop.batchCount Loop.latestTimestamp Loop.totalSynced Loop.commitCalls].
  rewrite bool_decide_eq_true_2 by lia.
  unfold commit. cbn [Loop.batch Firestore.committed Firestore.ops
    Loop.batchCount Loop.latestTimestamp Loop.totalSynced Loop.commitCalls].
  rewrite Hok.
  cbn [Loop.batch Firestore.committed Firestore.ops
    Loop.batchCount Loop.latestTimestamp Loop.totalSynced Loop.commitCalls].
  unfold latestOf. rewrite foldl_app, fmap_app. cbn [foldl length fmap list_fmap].
  assert (S (length docs) = 450) as -> by lia.
  reflexivity.
Qed.

(** Once the batch has been committed and the counter reset, every further
    document only adds an error. *)
Lemma writeLoop_after (l : Loop.t) (w : World) (docs : list Doc.t) :
  Firestore.committed (Loop.batch l) = true →
  foldl (writeStep env side collectionName progress total) (l, w) docs
  = (l, Nat.iter (length docs) countError w).
Proof.
  intros Hc. revert w.
  induction docs as [|doc docs IH]; intros w; [done|].
  cbn [foldl length]. unfold writeStep at 2, Firestore.set. rewrite Hc.
  rewrite IH. f_equal. by rewrite Nat.iter_succ_r.
Qed.

End WriteLoop.

Section WriteAll.

Context (env : Env) (side : Side) (collectionName : string)
        (progress : string → nat → nat → Event).

Lemma writeAll_below (lastSyncTime : option string) (w : World) (docs : list Doc.t) :
  0 < length docs < 450 →
  commitFails env side collectionName 0 = false →
  writeAll env side collectionName progress lastSyncTime docs w
  = (Ok {| Loop.batch := {| Firestore.ops := opOf <$> docs; Firestore.committed := true |};
           Loop.batchCount := length docs; Loop.totalSynced := length docs;
           Loop.latestTimestamp := latestOf lastSyncTime docs; Loop.commitCalls := 1 |},
     committedWorld side collectionName (opOf <$> docs) w).
Proof.
  intros Hlen Hok. unfold writeAll.
  change {| Loop.batch := Firestore.batch; Loop.batchCount := 0; Loop.totalSynced := 0;
            Loop.latestTimestamp := lastSyncTime; Loop.commitCalls := 0 |}
    with (startLoop lastSyncTime).
  rewrite writeLoop_below by lia.
  cbn [Loop.batchCount]. rewrite bool_decide_eq_true_2 by lia.
  unfold commit. cbn [Loop.batch Firestore.ops Loop.commitCalls]. rewrite Hok.
  reflexivity.
Qed.

Lemma writeAll_full (lastSyncTime : option string) (w : World) (docs : list Doc.t) :
  length docs = 450 →
  commitFails env side collectionName 0 = false →
  writeAll env side collectionName progress lastSyncTime docs w
  = (Ok {| Loop.batch := {| Firestore.ops := opOf <$> docs; Firestore.committed := true |};
           Loop.batchCount := 0; Loop.totalSynced := 450;
           Loop.latestTimestamp := latestOf lastSyncTime docs; Loop.commitCalls := 1 |},
     emit (progress collectionName 450 (length docs))
       (committedWorld side collectionName (opOf <$> docs) w)).
Proof.
  intros Hlen Hok. unfold writeAll.
  change {| Loop.batch := Firestore.batch; Loop.batchCount := 0; Loop.totalSynced := 0;
            Loop.latestTimestamp := lastSyncTime; Loop.commitCalls := 0 |}
    with (startLoop lastSyncTime).
  rewrite writeLoop_full by done.
  cbn [Loop.batchCount]. by rewrite bool_decide_eq_false_2 by lia.
Qed.

Lemma writeAll_above (lastSyncTime : option string) (w : World) (docs : list Doc.t) :
  450 < length docs →
  commitFails env side collectionName 0 = false →
  writeAll env side collectionName progress lastSyncTime docs w
  = (Ok {| Loop.batch :=
             {| Firestore.ops := opOf <$> take 450 docs; Firestore.committed := true |};
           Loop.batchCount := 0; Loop.totalSynced := 450;
           Loop.latestTimestamp := latestOf lastSyncTime (take 450 docs);
           Loop.commitCalls := 1 |},
     Nat.iter (length docs - 450) countError
       (emit (progress collectionName 450 (length docs))
          (committedWorld side collectionName (opOf <$> take 450 docs) w))).
Proof.
  intros Hlen Hok. unfold writeAll.
  change {| Loop.batch := Firestore.batch; Loop.batchCount := 0; Loop.totalSynced := 0;
            Loop.latestTimestamp := lastSyncTime; Loop.commitCalls := 0 |}
    with (startLoop lastSyncTime).
  rewrite <- (take_drop 450 docs) at 2.
  rewrite foldl_app, writeLoop_full; [|rewrite length_take; lia|done].
  rewrite writeLoop_after by done.
  cbn [Loop.batchCount]. rewrite bool_decide_eq_false_2 by lia.
  by rewrite length_drop.
Qed.

End WriteAll.

Lemma errors_iter_countError (n : nat) (w : World) :
  Stats.errors (syncStats (Nat.iter n countError w)) = n + Stats.errors (syncStats w).
Proof.
  induction n as [|n IH]; [done|].
  rewrite Nat.iter_succ. unfold countError at 1.
  cbn [syncStats with_syncStats Stats.errors Stats.with_errors]. by rewrite IH.
Qed.

Lemma commitLog_iter_countError (n : nat) (w : World) :
  commitLog (Nat.iter n countError w) = commitLog w.
Proof. induction n as [|n IH]; [done|]. by rewrite Nat.iter_succ. Qed.

Lemma db_iter_countError (side : Side) (n : nat) (w : World) :
  db side (Nat.iter n countError w) = db side w.
Proof. induction n as [|n IH]; [done|]. rewrite Nat.iter_succ. by destruct side. Qed.

(** ** What a collection sync leaves alone *)

Lemma applyOps_other (ops : list (string * obj)) (target : gmap string obj) (i : string) :
  i ∉ ops.*1 → Firestore.applyOps ops target !! i = target !! i.
Proof.
  unfold Firestore.applyOps. revert target.
  induction ops as [|op ops IH]; intros target Hi; [done|].
  cbn [foldl]. rewrite IH by set_solver.
  unfold Firestore.setMerge.
  destruct (target !! op.1); rewrite lookup_insert_ne; set_solver.
Qed.

Lemma applyOps_written (ops : list (string * obj)) (target : gmap string obj) (i : string) :
  is_Some (target !! i) ∨ i ∈ ops.*1 → is_Some (Firestore.applyOps ops target !! i).
Proof.
  unfold Firestore.applyOps. revert target.
  induction ops as [|op ops IH]; intros target Hi.
  - destruct Hi as [Hi|Hi]; [done|]. by apply elem_of_nil in Hi.
  - cbn [foldl]. apply IH.
    destruct (decide (i = op.1)) as [->|Hne].
    + left. unfold Firestore.setMerge.
      destruct (target !! op.1); by rewrite lookup_insert_eq.
    + destruct Hi as [Hi|Hi].
      * left. unfold Firestore.setMerge.
        destruct (target !! op.1); by rewrite lookup_insert_ne.
      * right. set_solver.
Qed.

Lemma collection_insert_eq (d : gmap string (gmap string obj)) (c : string) (t : gmap string obj) :
  Firestore.collection (<[c := t]> d) c = t.
Proof. unfold Firestore.collection. by rewrite lookup_insert_eq. Qed.

Lemma collection_insert_ne (d : gmap string (gmap string obj)) (c c' : string) (t : gmap string obj) :
  c ≠ c' → Firestore.collection (<[c := t]> d) c' = Firestore.collection d c'.
Proof. intros. unfold Firestore.collection. by rewrite lookup_insert_ne. Qed.

Lemma db_with_db (side : Side) (d : gmap string (gmap string obj)) (w : World) :
  db side (with_db side d w) = d.
Proof. by destruct side. Qed.

Lemma db_with_db_other (side : Side) (d : gmap string (gmap string obj)) (w : World) :
  db (other side) (with_db side d w) = db (other side) w.
Proof. by destruct side. Qed.

Lemma WriteFrame_refl side c ids w : WriteFrame side c ids w w.
Proof. split; try done. exists []. by rewrite app_nil_r. Qed.

Lemma WriteFrame_trans side c ids w1 w2 w3 :
  WriteFrame side c ids w1 w2 → WriteFrame side c ids w2 w3 → WriteFrame side c ids w1 w3.
Proof.
  intros [A1 A2 A3 A4 A5 A6 A7 A8] [B1 B2 B3 B4 B5 B6 B7 B8].
  split; try congruence.
  - intros c' Hc. by rewrite B6, A6.
  - intros i Hi. by rewrite B7, A7.
  - destruct A8 as (m1 & Hm1 & H1), B8 as (m2 & Hm2 & H2).
    exists (m1 ++ m2). rewrite Hm2, Hm1, (assoc_L _). split; [done|]. by apply Forall_app.
Qed.

Lemma WriteFrame_emit side c ids e w : WriteFrame side c ids w (emit e w).
Proof. split; try done; try by destruct side. exists []. by rewrite app_nil_r. Qed.

Lemma WriteFrame_countError side c ids w : WriteFrame side c ids w (countError w).
Proof. split; try done; try by destruct side. exists []. by rewrite app_nil_r. Qed.

Lemma WriteFrame_committed side c ids ops w :
  (∀ op, op ∈ ops → op.1 ∈ ids) →
  WriteFrame side c ids w (committedWorld side c ops w).
Proof.
  intros Hops. unfold committedWorld. split.
  - by destruct side.
  - by destruct side.
  - by destruct side.
  - by destruct side.
  - by destruct side.
  - intros c' Hc. destruct side; cbn; by rewrite collection_insert_ne.
  - intros i Hi.
    assert (i ∉ ops.*1) as Hi'.
    { intros (op & -> & Hop)%list_elem_of_fmap. by apply Hi, Hops. }
    destruct side; cbn; by rewrite collection_insert_eq, applyOps_other.
  - eexists [_]. split; [by destruct side|].
    apply Forall_singleton. done.
Qed.

Section WriteFrames.

Context (env : Env) (side : Side) (c : string) (progress : string → nat → nat → Event).

Lemma commit_frame ids l w :
  opsWithin ids l →
  WriteFrame side c ids w (commit env side c l w).2
  ∧ opsWithin ids (commit env side c l w).1.2.
Proof.
  intros Hops. unfold commit.
  destruct (commitFails env side c (Loop.commitCalls l)); cbn [fst snd].
  - split; [apply WriteFrame_refl|exact Hops].
  - split; [|exact Hops]. by apply WriteFrame_committed.
Qed.

Lemma writeStep_frame ids total l w doc :
  Doc.id doc ∈ ids → opsWithin ids l →
  WriteFrame side c ids w (writeStep env side c progress total (l, w) doc).2
  ∧ opsWithin ids (writeStep env side c progress total (l, w) doc).1.
Proof.
  intros Hid Hops. unfold writeStep, Firestore.set.
  destruct (Firestore.committed (Loop.batch l)); cbn [fst snd].
  { split; [apply WriteFrame_countError|exact Hops]. }
  set (l1 := {| Loop.batch := _ |}).
  assert (opsWithin ids l1) as Hops1.
  { intros op [Hop| ->%list_elem_of_singleton]%elem_of_app; [by apply Hops|done]. }
  case_bool_decide; [|split; [apply WriteFrame_refl|exact Hops1]].
  destruct (commit_frame ids l1 w Hops1) as [Hf Ho].
  destruct (commit env side c l1 w) as [[[] l2] w2]; cbn [fst snd] in *.
  - split; [|exact Ho].
    eapply WriteFrame_trans; [exact Hf|apply WriteFrame_emit].
  - split; [|exact Ho].
    eapply WriteFrame_trans; [exact Hf|apply WriteFrame_countError].
Qed.

Lemma writeLoop_frame ids total docs l w :
  (∀ doc, doc ∈ docs → Doc.id doc ∈ ids) → opsWithin ids l →
  WriteFrame side c ids w (foldl (writeStep env side c progress total) (l, w) docs).2
  ∧ opsWithin ids (foldl (writeStep env side c progress total) (l, w) docs).1.
Proof.
  revert l w. induction docs as [|doc docs IH]; intros l w Hids Hops.
  { split; [apply WriteFrame_refl|exact Hops]. }
  cbn [foldl].
  destruct (writeStep_frame ids total l w doc) as [Hf Ho]; [set_solver|done|].
  destruct (writeStep env side c progress total (l, w) doc) as [l1 w1]; cbn [fst snd] in *.
  destruct (IH l1 w1) as [Hf' Ho']; [set_solver|exact Ho|].
  split; [|exact Ho']. by eapply WriteFrame_trans.
Qed.

Lemma writeAll_frame lastSyncTime docs w :
  WriteFrame side c (Doc.id <$> docs) w (writeAll env side c progress lastSyncTime docs w).2.
Proof.
  unfold writeAll.
  destruct (writeLoop_frame (Doc.id <$> docs) (length docs) docs
              {| Loop.batch := Firestore.batch; Loop.batchCount := 0; Loop.totalSynced := 0;
                 Loop.latestTimestamp := lastSyncTime; Loop.commitCalls := 0 |} w)
    as [Hf Ho].
  { intros doc Hdoc. by apply list_elem_of_fmap_2. }
  { intros op Hop. by apply elem_of_nil in Hop. }
  destruct (foldl _ _ docs) as [l w1]; cbn [fst snd] in *.
  case_bool_decide; [|exact Hf].
  destruct (commit_frame (Doc.id <$> docs) l w1 Ho) as [Hf' _].
  destruct (commit env side c l w1) as [[[] l2] w2]; cbn [fst snd] in *;
    by eapply WriteFrame_trans.
Qed.

End WriteFrames.

(** ** The duplicate check *)

Lemma concat_reshape {A} (szs : list nat) (l : list A) :
  concat (reshape szs l) = take (sum_list szs) l.
Proof.
  revert l. induction szs as [|n szs IH]; intros l; [by rewrite take_0|].
  cbn [reshape concat sum_list sum_list_with]. by rewrite IH, take_take_drop.
Qed.

Lemma slices_concat (batchSize : nat) (documents : list Doc.t) :
  0 < batchSize → concat (slices batchSize documents) = documents.
Proof.
  intros Hpos. unfold slices. rewrite concat_reshape, sum_list_replicate.
  apply take_ge.
  pose proof (Nat.div_mod_eq (length documents + (batchSize - 1)) batchSize) as Hdiv.
  pose proof (Nat.mod_upper_bound (length documents + (batchSize - 1)) batchSize) as Hmod.
  nia.
Qed.

Lemma length_slices (batchSize : nat) (documents : list Doc.t) :
  length (slices batchSize documents) = (length documents + (batchSize - 1)) / batchSize.
Proof. unfold slices. by rewrite length_reshape, length_replicate. Qed.

Lemma dupIds_app (target : gmap string obj) (docs1 docs2 : list Doc.t) :
  dupIds target (docs1 ++ docs2) = dupIds target docs1 ∪ dupIds target docs2.
Proof. unfold dupIds. rewrite filter_app, fmap_app. set_solver. Qed.

Lemma elem_of_dupIds (target : gmap string obj) (documents : list Doc.t) (i : string) :
  i ∈ dupIds target documents
  ↔ ∃ doc, doc ∈ documents ∧ Doc.id doc = i ∧ isDuplicate target doc = true.
Proof.
  unfold dupIds. rewrite elem_of_list_to_set, list_elem_of_fmap.
  split.
  - intros (doc & -> & [Hd Hin]%list_elem_of_filter). eauto.
  - intros (doc & Hin & <- & Hd). exists doc. split; [done|].
    by apply list_elem_of_filter.
Qed.

Section DuplicateCheck.

Context (env : Env) (side : Side) (w : World) (c : string).

Let target := Firestore.collection (db side w) c.

Lemma zip_getAll (batch : list Doc.t) :
  zip (Firestore.getAll (db side w) c (map Doc.id batch)) batch
  = (λ doc, (target !! Doc.id doc, doc)) <$> batch.
Proof. induction batch as [|doc batch IH]; [done|]. cbn. by rewrite <- IH. Qed.

Lemma markExisting_doc (doc : Doc.t) (existingDocs : gset string) :
  markExisting existingDocs (target !! Doc.id doc, doc)
  = if isDuplicate target doc then {[Doc.id doc]} ∪ existingDocs else existingDocs.
Proof.
  unfold markExisting, isDuplicate. cbn [fst snd].
  by destruct (target !! Doc.id doc).
Qed.

Lemma markExisting_fold (batch : list Doc.t) (existingDocs : gset string) :
  foldl markExisting existingDocs ((λ doc, (target !! Doc.id doc, doc)) <$> batch)
  = dupIds target batch ∪ existingDocs.
Proof.
  revert existingDocs. unfold dupIds.
  induction batch as [|doc batch IH]; intros existingDocs.
  { cbn. set_solver. }
  cbn [fmap list_fmap foldl]. rewrite IH, markExisting_doc, filter_cons.
  destruct (isDuplicate target doc).
  - rewrite decide_True by done. cbn. set_solver.
  - rewrite decide_False by done. done.
Qed.

Lemma existingLoop_ok (n : nat) (batches : list (list Doc.t)) (existingDocs : gset string) :
  (∀ k, getAllFails env side c k = false) →
  existingLoop env side w c n batches existingDocs
  = Some (dupIds target (concat batches) ∪ existingDocs).
Proof.
  intros Hok. revert n existingDocs.
  induction batches as [|batch batches IH]; intros n existingDocs.
  { cbn. f_equal. unfold dupIds. set_solver. }
  cbn [existingLoop concat]. rewrite Hok, zip_getAll, markExisting_fold, IH.
  f_equal. rewrite dupIds_app. set_solver.
Qed.

(** A rejected [getAll] makes the loop give up, whatever it has collected. *)
Lemma existingLoop_fails (n k : nat) (batches : list (list Doc.t)) (existingDocs : gset string) :
  k < length batches →
  getAllFails env side c (n + k) = true →
  existingLoop env side w c n batches existingDocs = None.
Proof.
  revert n k existingDocs.
  induction batches as [|batch batches IH]; intros n k existingDocs Hk Hfail.
  { cbn in Hk. lia. }
  cbn [existingLoop].
  destruct (getAllFails env side c n) eqn:Hn; [done|].
  destruct k as [|k].
  { rewrite Nat.add_0_r in Hfail. congruence. }
  apply (IH (S n) k); [cbn in Hk; lia|].
  by replace (S n + k) with (n + S k) by lia.
Qed.

Lemma checkForDuplicates_ok (documents : list Doc.t) :
  (∀ k, getAllFails env side c k = false) →
  checkForDuplicates env side c documents w
  = (filter (λ doc, Doc.id doc ∉ dupIds target documents) documents,
     countSkipped
       (length documents
        - length (filter (λ doc, Doc.id doc ∉ dupIds target documents) documents)) w).
Proof.
  intros Hok. unfold checkForDuplicates.
  rewrite existingLoop_ok, slices_concat by (done || lia).
  by rewrite (right_id_L ∅ (∪)).
Qed.

End DuplicateCheck.

(** ** The common shape of [syncCollectionToBackup] and [syncCollectionToMain] *)

Lemma syncTo_shape (target : Side) env c incrementalOnly w :
  syncTo target env c incrementalOnly w = syncShape env target c incrementalOnly w.
Proof. by destruct target. Qed.

Lemma length_filter_complement {A} (P : A → Prop) `{∀ x, Decision (P x)} (l : list A) :
  length l - length (filter (λ x, ¬ P x) l) = length (filter P l).
Proof.
  induction l as [|x l IH]; [done|].
  rewrite !filter_cons.
  pose proof (length_filter (λ x, ¬ P x) l) as Hle.
  destruct (decide (P x)).
  - rewrite decide_False by tauto. cbn [length]. rewrite <- IH. lia.
  - rewrite decide_True by tauto. cbn [length]. done.
Qed.

(** ** The running maximum *)

Lemma truthy_Some (u : option string) :
  truthy u = true ↔ ∃ b, u = Some b ∧ b ≠ "".
Proof.
  destruct u as [b|]; cbn.
  - rewrite negb_true_iff, String.eqb_neq. naive_solver.
  - naive_solver.
Qed.

Lemma atLeast_refl (t : option string) : atLeast t t.
Proof.
  intros (b & -> & Hb)%truthy_Some. exists b, b. auto using ge_refl.
Qed.

Lemma atLeast_trans (t u v : option string) : atLeast t u → atLeast u v → atLeast t v.
Proof.
  intros Htu Huv Hv. destruct (Huv Hv) as (a & b & -> & -> & Ha & Hab).
  destruct Htu as (a' & b' & -> & [= <-] & Ha' & Hab').
  { apply truthy_Some. eauto. }
  exists a', b. eauto using ge_trans.
Qed.

Lemma latestStep_atLeast_latest (latest : option string) (doc : Doc.t) :
  atLeast (latestStep latest doc) latest.
Proof.
  unfold latestStep, advances.
  destruct (truthy (Doc.updatedAt doc)) eqn:Hdoc; cbn [andb]; [|apply atLeast_refl].
  destruct (truthy latest) eqn:Hl; cbn [negb orb]; [|by intros ?; congruence].
  destruct (ogt (Doc.updatedAt doc) latest) eqn:Hgt; [|apply atLeast_refl].
  apply truthy_Some in Hdoc as (a & Ha & Hane). apply truthy_Some in Hl as (b & Hb & Hbne).
  intros _. exists a, b. rewrite Ha, Hb in *. cbn in Hgt. auto using gt_ge.
Qed.

Lemma latestStep_atLeast_doc (latest : option string) (doc : Doc.t) :
  atLeast (latestStep latest doc) (Doc.updatedAt doc).
Proof.
  unfold latestStep, advances. intros Hdoc. rewrite Hdoc. cbn [andb].
  destruct (truthy latest) eqn:Hl; cbn [negb orb]; [|by apply atLeast_refl].
  destruct (ogt (Doc.updatedAt doc) latest) eqn:Hgt; [by apply atLeast_refl|].
  apply truthy_Some in Hdoc as (a & Ha & Hane). apply truthy_Some in Hl as (b & Hb & Hbne).
  exists b, a. rewrite Ha, Hb in *. cbn in Hgt.
  rewrite ge_not_gt, Hgt. auto.
Qed.

Lemma latestOf_atLeast_since (lastSyncTime : option string) (docs : list Doc.t) :
  atLeast (latestOf lastSyncTime docs) lastSyncTime.
Proof.
  revert lastSyncTime. induction docs as [|doc docs IH]; intros lastSyncTime.
  { apply atLeast_refl. }
  eapply atLeast_trans; [apply (IH (latestStep lastSyncTime doc))|].
  apply latestStep_atLeast_latest.
Qed.

Lemma latestOf_atLeast_doc (lastSyncTime : option string) (docs : list Doc.t) (doc : Doc.t) :
  doc ∈ docs → atLeast (latestOf lastSyncTime docs) (Doc.updatedAt doc).
Proof.
  revert lastSyncTime. induction docs as [|d docs IH]; intros lastSyncTime Hin.
  { by apply elem_of_nil in Hin. }
  apply elem_of_cons in Hin as [->|Hin].
  - eapply atLeast_trans; [apply (latestOf_atLeast_since (latestStep lastSyncTime d))|].
    apply latestStep_atLeast_doc.
  - by apply (IH (latestStep lastSyncTime d)).
Qed.

(** ** What a scan returns *)

Lemma getDocs_NoDup (d : gmap string (gmap string obj)) (c : string) :
  NoDup (Firestore.getDocs d c).*1.
Proof. apply NoDup_fst_map_to_list. Qed.

Lemma NoDup_fst_filter {A B} (P : A * B → Prop) `{∀ x, Decision (P x)} (l : list (A * B)) :
  NoDup l.*1 → NoDup (filter P l).*1.
Proof.
  induction l as [|x l IH]; [done|].
  rewrite fmap_cons, NoDup_cons. intros [Hx Hl].
  rewrite filter_cons. destruct (decide (P x)); [|by apply IH].
  rewrite fmap_cons. apply NoDup_cons. split; [|by apply IH].
  intros (y & Hy & [_ Hin]%list_elem_of_filter)%list_elem_of_fmap.
  apply Hx. apply list_elem_of_fmap. eauto.
Qed.

Lemma wrap_ids (env : Env) (docs : list (string * obj)) :
  Doc.id <$> (map (wrap env) docs) = docs.*1.
Proof. induction docs as [|d docs IH]; [done|]. cbn. by rewrite <- IH. Qed.

Lemma getIncrementalDocuments_Ok env side w c lastSyncTime documents :
  getIncrementalDocuments env side w c lastSyncTime = Ok documents →
  documents = map (wrap env) (scanOf (db side w) c lastSyncTime).
Proof.
  unfold getIncrementalDocuments, scanOf.
  destruct (scanFails env side c); [done|]. by intros [= <-].
Qed.

Lemma getIncrementalDocuments_calm env side w c lastSyncTime :
  scanFails env side c = false →
  getIncrementalDocuments env side w c lastSyncTime
  = Ok (map (wrap env) (scanOf (db side w) c lastSyncTime)).
Proof. unfold getIncrementalDocuments, scanOf. by intros ->. Qed.

Lemma scanOf_NoDup d c lastSyncTime : NoDup (scanOf d c lastSyncTime).*1.
Proof.
  unfold scanOf, Firestore.whereUpdatedAtGt.
  destruct lastSyncTime as [since|]; [|apply getDocs_NoDup].
  destruct (truthy (Some since)); [|apply getDocs_NoDup].
  apply NoDup_fst_filter, getDocs_NoDup.
Qed.

Lemma scanOf_stored d c lastSyncTime (e : string * obj) :
  e ∈ scanOf d c lastSyncTime → Firestore.collection d c !! e.1 = Some e.2.
Proof.
  intros Hin.
  assert (e ∈ Firestore.getDocs d c) as Hall.
  { revert Hin. unfold scanOf, Firestore.whereUpdatedAtGt.
    destruct lastSyncTime as [since|]; [|done].
    destruct (truthy (Some since)); [|done].
    by intros [_ ?]%list_elem_of_filter. }
  destruct e as [i data]. by apply elem_of_map_to_list in Hall.
Qed.

Lemma scanned_NoDup target env c incrementalOnly w documents :
  scanned target env c incrementalOnly w = Ok documents → NoDup (Doc.id <$> documents).
Proof.
  intros ->%getIncrementalDocuments_Ok. rewrite wrap_ids. apply scanOf_NoDup.
Qed.

(** With ids that are pairwise distinct, the documents dropped by the
    filter are the duplicates. *)
Lemma dupIds_NoDup (target : gmap string obj) (documents : list Doc.t) (doc : Doc.t) :
  NoDup (Doc.id <$> documents) → doc ∈ documents →
  Doc.id doc ∈ dupIds target documents ↔ isDuplicate target doc = true.
Proof.
  intros Hnd Hin. rewrite elem_of_dupIds. split; [|by eauto].
  intros (doc' & Hin' & Hid & Hdup).
  apply list_elem_of_lookup in Hin as [i Hi]. apply list_elem_of_lookup in Hin' as [j Hj].
  assert (i = j) as ->.
  { eapply NoDup_lookup; [exact Hnd| |].
    - rewrite list_lookup_fmap, Hi. done.
    - rewrite list_lookup_fmap, Hj. cbn. by rewrite Hid. }
  congruence.
Qed.

Lemma filter_iff_in {A} (P1 P2 : A → Prop)
    `{!∀ x, Decision (P1 x), !∀ x, Decision (P2 x)} (l : list A) :
  (∀ x, x ∈ l → P1 x ↔ P2 x) → filter P1 l = filter P2 l.
Proof.
  induction l as [|a l IH]; intros Hiff; [done|].
  rewrite !filter_cons, IH by (intros; apply Hiff; set_solver).
  destruct (decide (P1 a)) as [H1|H1], (decide (P2 a)) as [H2|H2]; try done;
    exfalso; apply (Hiff a) in H1 || apply (Hiff a) in H2; set_solver.
Qed.

Lemma filter_dupIds_NoDup (target : gmap string obj) (documents : list Doc.t) :
  NoDup (Doc.id <$> documents) →
  filter (λ doc, Doc.id doc ∉ dupIds target documents) documents
  = filter (λ doc, isDuplicate target doc = false) documents.
Proof.
  intros Hnd. apply filter_iff_in. intros doc Hin.
  rewrite (dupIds_NoDup target documents doc) by done.
  by destruct (isDuplicate target doc).
Qed.

(** ** A sync that schedules at most 450 writes *)

Lemma writeAll_upTo env target c lastSyncTime docs w :
  0 < length docs ≤ 450 →
  commitFails env target c 0 = false →
  ∃ l, writeAll env target c (progressOf target) lastSyncTime docs w
       = (Ok l, progressAtLimit target c (length docs)
                  (committedWorld target c (opOf <$> docs) w))
       ∧ Loop.totalSynced l = length docs
       ∧ Loop.latestTimestamp l = latestOf lastSyncTime docs.
Proof.
  intros Hlen Hok. unfold progressAtLimit. case_bool_decide as H450.
  - rewrite writeAll_full by done. rewrite H450. eauto.
  - rewrite writeAll_below by (done || lia). eauto.
Qed.

Lemma syncShape_calm env target c incrementalOnly w :
  scanFails env (other target) c = false →
  (∀ k, getAllFails env target c k = false) →
  commitFails env target c 0 = false →
  match target with Backup => verifyFails env c | Main => false end = false →
  let lastSyncTime := sinceOf target c incrementalOnly w in
  let documents := map (wrap env) (scanOf (db (other target) w) c lastSyncTime) in
  let toSync :=
    filter (λ doc, isDuplicate (Firestore.collection (db target w) c) doc = false) documents in
  length toSync ≤ 450 →
  syncShape env target c incrementalOnly w
  = if bool_decide (length documents = 0) then (Ok 0, w)
    else if bool_decide (length toSync = 0)
         then (Ok 0, countSkipped (length documents) w)
         else (Ok (length toSync),
               syncedWorld target c lastSyncTime (length documents - length toSync) toSync w).
Proof.
  intros Hscan Hget Hcommit Hverify lastSyncTime documents toSync Hlen.
  unfold syncShape, scanned. fold lastSyncTime.
  rewrite getIncrementalDocuments_calm by done. fold documents.
  case_bool_decide as Hdocs; [done|].
  rewrite checkForDuplicates_ok by done.
  rewrite filter_dupIds_NoDup by (unfold documents; rewrite wrap_ids; apply scanOf_NoDup).
  fold toSync.
  case_bool_decide as Hnone.
  { by rewrite Hnone, Nat.sub_0_r. }
  destruct (writeAll_upTo env target c lastSyncTime toSync
              (countSkipped (length documents - length toSync) w))
    as (l & -> & Htotal & Hlatest); [lia|done|].
  rewrite Hverify, Htotal, Hlatest. reflexivity.
Qed.

Section SyncedWorld.

Context (target : Side) (c : string) (lastSyncTime : option string) (skipped : nat)
        (toSync : list Doc.t) (w : World).

Lemma syncedWorld_meta :
  syncMetadata (syncedWorld target c lastSyncTime skipped toSync w)
  = <[watermarkKey target c := latestOf lastSyncTime toSync]> (syncMetadata w).
Proof. unfold syncedWorld, progressAtLimit. case_bool_decide; by destruct target. Qed.

Lemma syncedWorld_db :
  db target (syncedWorld target c lastSyncTime skipped toSync w)
  = <[c := Firestore.applyOps (opOf <$> toSync) (Firestore.collection (db target w) c)]>
      (db target w).
Proof. unfold syncedWorld, progressAtLimit. case_bool_decide; by destruct target. Qed.

Lemma syncedWorld_source :
  db (other target) (syncedWorld target c lastSyncTime skipped toSync w) = db (other target) w.
Proof. unfold syncedWorld, progressAtLimit. case_bool_decide; by destruct target. Qed.

Lemma syncedWorld_stats :
  syncStats (syncedWorld target c lastSyncTime skipped toSync w)
  = syncStats (countSkipped skipped w).
Proof. unfold syncedWorld, progressAtLimit. case_bool_decide; by destruct target. Qed.

Lemma syncedWorld_core :
  coreOf (syncedWorld target c lastSyncTime skipped toSync w) = coreOf w.
Proof. unfold syncedWorld, progressAtLimit. case_bool_decide; by destruct target. Qed.

Lemma syncedWorld_log :
  commitLog (syncedWorld target c lastSyncTime skipped toSync w)
  = commitLog w ++ [(target, c, opOf <$> toSync)].
Proof. unfold syncedWorld, progressAtLimit. case_bool_decide; by destruct target. Qed.

End SyncedWorld.

Lemma existingLoop_Some env side w c n batches existingDocs result :
  existingLoop env side w c n batches existingDocs = Some result →
  result = dupIds (Firestore.collection (db side w) c) (concat batches) ∪ existingDocs.
Proof.
  revert n existingDocs.
  induction batches as [|batch batches IH]; intros n existingDocs.
  { cbn. intros [= <-]. unfold dupIds. set_solver. }
  cbn [existingLoop concat].
  destruct (getAllFails env side c n); [done|].
  rewrite zip_getAll, markExisting_fold. intros ->%IH.
  rewrite dupIds_app. set_solver.
Qed.

(** A document that the target does not hold an up-to-date copy of is
    scheduled, whether the pre-check answers or not. *)
Lemma checkForDuplicates_keeps env side c documents w doc :
  NoDup (Doc.id <$> documents) →
  doc ∈ documents →
  isDuplicate (Firestore.collection (db side w) c) doc = false →
  doc ∈ (checkForDuplicates env side c documents w).1.
Proof.
  intros Hnd Hin Hdup. unfold checkForDuplicates.
  destruct (existingLoop _ _ _ _ _ _ _) as [existingDocs|] eqn:Hloop; [|done].
  apply existingLoop_Some in Hloop as ->.
  rewrite slices_concat, (right_id_L ∅ (∪)) by lia. cbn [fst].
  apply list_elem_of_filter. split; [|done].
  rewrite dupIds_NoDup by done. by rewrite Hdup.
Qed.

Lemma elem_of_length {A} (x : A) (l : list A) : x ∈ l → length l ≠ 0.
Proof. intros Hin Hlen. destruct l; [by apply elem_of_nil in Hin|done]. Qed.

Lemma timestampOf_absent (data : obj) :
  field "updatedAt" data = None → field "createdAt" data = None →
  timestampOf data = None.
Proof. unfold timestampOf, strField. by intros -> ->. Qed.

Lemma isDuplicate_undated (target : gmap string obj) (doc : Doc.t) :
  timestampOf (Doc.data doc) = None → isDuplicate target doc = false.
Proof.
  intros Hnone. unfold isDuplicate, upToDate. rewrite Hnone.
  destruct (target !! Doc.id doc); [|done]. cbn. by rewrite andb_false_r.
Qed.

(** The general form: past 450 scheduled writes, one commit of the first
    450 and one error for each later document. *)
Lemma writeAll_past_limit env side c progress lastSyncTime docs w :
  450 < length docs →
  commitFails env side c 0 = false →
  ∃ l w', writeAll env side c progress lastSyncTime docs w = (Ok l, w')
    ∧ Loop.totalSynced l = 450
    ∧ Loop.commitCalls l = 1
    ∧ commitLog w' = commitLog w ++ [(side, c, opOf <$> take 450 docs)]
    ∧ Stats.errors (syncStats w') = length docs - 450 + Stats.errors (syncStats w).
Proof.
  intros Hlen Hok. rewrite writeAll_above by done.
  eexists _, _. split; [done|]. cbn [Loop.totalSynced Loop.commitCalls].
  rewrite commitLog_iter_countError, errors_iter_countError.
  repeat split; by destruct side.
Qed.

(** ** Schema tracking *)

Lemma elem_of_setAdd (k key : string) (keySet : list string) :
  k ∈ setAdd key keySet ↔ k = key ∨ k ∈ keySet.
Proof. unfold setAdd. case_bool_decide; set_solver. Qed.

Lemma hasPath_nil prefix k : ¬ hasPath prefix [] k.
Proof. intros H. inversion H as [? ? ? ? Hin|? ? ? ? ? Hin]; by apply elem_of_nil in Hin. Qed.

Lemma hasPath_cons prefix key value (rest : obj) k :
  hasPath prefix ((key, value) :: rest) k
  ↔ k = fullKeyOf prefix key
    ∨ (∃ inner, value = JObj inner ∧ hasPath (fullKeyOf prefix key) inner k)
    ∨ hasPath prefix rest k.
Proof.
  split.
  - intros H. inversion H as [? ? key' value' Hin|? ? key' inner Hk Hin Hbelow]; subst.
    + apply elem_of_cons in Hin as [[= -> ->]|Hin]; [by left|].
      right; right. by eapply path_here.
    + apply elem_of_cons in Hin as [[= -> <-]|Hin]; [right; left; eauto|].
      right; right. by eapply path_below.
  - intros [->|[(inner & -> & Hbelow)|Hrest]].
    + eapply path_here. apply list_elem_of_here.
    + eapply path_below; [apply list_elem_of_here|done].
    + inversion Hrest; subst.
      * eapply path_here. by apply list_elem_of_further.
      * eapply path_below; [by apply list_elem_of_further|done].
Qed.

Lemma extractKeys_spec (value : jsval) :
  ∀ keySet prefix k,
    k ∈ extractKeys value keySet prefix
    ↔ k ∈ keySet ∨ ∃ o, value = JObj o ∧ hasPath prefix o k.
Proof.
  induction value as [| | | | |entries IH] using jsval_nested_ind;
    intros keySet prefix k; try (cbn; naive_solver).
  cbn [extractKeys]. revert keySet.
  induction IH as [|[key value] rest Hvalue _ IHrest]; intros keySet.
  { split; [auto|]. intros [?|(o & [= <-] & Hp)]; [done|]. by apply hasPath_nil in Hp. }
  rewrite IHrest. cbn [snd] in Hvalue. rewrite Hvalue, elem_of_setAdd.
  split.
  - intros [[[->|?]|(o & -> & Hp)]|(o & [= <-] & Hp)]; [right|by left|right|right];
      eexists; (split; [done|]); apply hasPath_cons; eauto.
  - intros [?|(o & [= <-] & Hp)]; [by left; left; right|].
    apply hasPath_cons in Hp as [->|[(inner & -> & Hp)|Hp]]; eauto 7.
Qed.

Lemma sampleSchema_spec (sample : list (string * obj)) (k : string) :
  k ∈ sampleSchema sample ↔ ∃ d, d ∈ sample ∧ hasPath "" d.2 k.
Proof.
  unfold sampleSchema.
  assert (∀ schema, k ∈ foldl (λ schema d, extractKeysFromObject d.2 schema "") schema sample
                    ↔ k ∈ schema ∨ ∃ d, d ∈ sample ∧ hasPath "" d.2 k) as Hgen.
  { induction sample as [|d sample IH]; intros schema.
    { cbn. split; [auto|]. intros [?|(d & Hd & _)]; [done|]. by apply elem_of_nil in Hd. }
    cbn [foldl]. rewrite IH. unfold extractKeysFromObject. rewrite extractKeys_spec.
    split.
    - intros [[?|(o & [= <-] & Hp)]|(d' & Hd' & Hp)]; [by left|right..].
      + exists d. split; [apply list_elem_of_here|done].
      + exists d'. split; [by apply list_elem_of_further|done].
    - intros [?|(d' & [->|Hd']%elem_of_cons & Hp)]; [by left; left|left; right|right]; eauto. }
  rewrite Hgen. split; [|auto]. intros [Hnil|?]; [|done]. by apply elem_of_nil in Hnil.
Qed.

Lemma filter_none {A} (P : A → Prop) `{!∀ x, Decision (P x)} (l : list A) :
  (∀ x, x ∈ l → ¬ P x) → filter P l = [].
Proof.
  induction l as [|x l IH]; intros Hall; [done|].
  rewrite filter_cons, decide_False by (apply Hall; set_solver).
  apply IH. intros; apply Hall; set_solver.
Qed.

(** ** Collection discovery *)

Lemma analyzeCollectionSchema_frame env c w :
  sameButSchema w (analyzeCollectionSchema env c w).
Proof.
  unfold analyzeCollectionSchema, sameButSchema.
  destruct (sampleFails env c); [done|].
  destruct (collectionsSchema w !! c); [|done]. by case_bool_decide.
Qed.

Lemma analyze_all_frame env (cs : list string) w :
  sameButSchema w (foldl (λ w c, analyzeCollectionSchema env c w) w cs).
Proof.
  revert w. induction cs as [|c cs IH]; intros w; [done|].
  cbn [foldl]. unfold sameButSchema in *. rewrite IH. apply analyzeCollectionSchema_frame.
Qed.

Lemma sameButSchema_fields w w' :
  sameButSchema w w' →
  collections w' = collections w ∧ mainDb w' = mainDb w ∧ backupDb w' = backupDb w
  ∧ syncStats w' = syncStats w ∧ syncMetadata w' = syncMetadata w
  ∧ isSyncing w' = isSyncing w ∧ statsFile w' = statsFile w
  ∧ authSyncStats w' = authSyncStats w ∧ commitLog w' = commitLog w
  ∧ warnings w' = warnings w
  ∧ (isMainDbOnline w', isBackupDbOnline w', isMainAuthOnline w', isBackupAuthOnline w')
    = (isMainDbOnline w, isBackupDbOnline w, isMainAuthOnline w, isBackupAuthOnline w)
  ∧ lastAuthSync w' = lastAuthSync w.
Proof.
  unfold sameButSchema. destruct w, w'. cbn. intros [=]. by subst.
Qed.

Lemma elem_of_setAdd_all (known listed : list string) (c : string) :
  c ∈ foldl (λ acc c, setAdd c acc) listed known ↔ c ∈ listed ∨ c ∈ known.
Proof.
  revert listed. induction known as [|k known IH]; intros listed; cbn [foldl].
  - set_solver.
  - rewrite IH, elem_of_setAdd. set_solver.
Qed.

Lemma elem_of_listCollections (d : gmap string (gmap string obj)) (c : string) :
  c ∈ Firestore.listCollections d ↔ Firestore.collection d c ≠ ∅.
Proof.
  unfold Firestore.listCollections, Firestore.collection.
  rewrite list_elem_of_fmap. split.
  - intros ([c' docs] & -> & [Hne Hin%elem_of_map_to_list]%list_elem_of_filter).
    cbn in *. by rewrite Hin.
  - intros Hne. destruct (d !! c) as [docs|] eqn:Hc; [|done].
    exists (c, docs). split; [done|]. apply list_elem_of_filter.
    split; [done|]. by apply elem_of_map_to_list.
Qed.

(** ** A call that finds the busy flag up *)

Lemma call_busy r env w : isSyncing w = true → call r env w = warn (busyLine r) w.
Proof. intros Hbusy. destruct r; cbn; unfold performFullSync, performRecovery; by rewrite Hbusy. Qed.

(** ** A second forward pass over an unchanged primary *)

Lemma isDuplicate_wrap env target d : isDuplicate target (wrap env d) = isDup target d.
Proof. done. Qed.

Lemma filter_wrap env target (docs : list (string * obj)) :
  filter (λ doc, isDuplicate target doc = false) (map (wrap env) docs)
  = map (wrap env) (filter (λ d, isDup target d = false) docs).
Proof.
  induction docs as [|d docs IH]; [done|].
  cbn [map]. rewrite !filter_cons, isDuplicate_wrap, IH.
  by destruct (decide (isDup target d = false)).
Qed.

Lemma scanOf_sublist main c since : scanOf main c since ⊆ Firestore.getDocs main c.
Proof.
  unfold scanOf, Firestore.whereUpdatedAtGt.
  destruct since as [s|]; [|done]. destruct (truthy (Some s)); [|done].
  intros d [_ ?]%list_elem_of_filter. done.
Qed.

Lemma length_scanOf main c since :
  length (scanOf main c since) ≤ size (Firestore.collection main c).
Proof.
  unfold scanOf, Firestore.whereUpdatedAtGt, Firestore.getDocs.
  rewrite <- (length_map_to_list (Firestore.collection main c)).
  destruct since as [s|]; [|done]. destruct (truthy (Some s)); [|done].
  apply length_filter.
Qed.

(** A truthy watermark selects the documents whose [updatedAt] is above it. *)
Lemma elem_of_scanOf_above main c (a : string) (d : string * obj) :
  a ≠ "" →
  d ∈ scanOf main c (Some a)
  ↔ d ∈ Firestore.getDocs main c ∧ ∃ u, strField "updatedAt" d.2 = Some u ∧ gt u a = true.
Proof.
  intros Ha. unfold scanOf, Firestore.whereUpdatedAtGt.
  assert (truthy (Some a) = true) as -> by by apply truthy_Some; eauto.
  rewrite list_elem_of_filter. split.
  - intros [Hgt Hin]. split; [done|].
    destruct (strField "updatedAt" d.2) as [u|]; [|done]. eauto.
  - intros [Hin (u & -> & Hgt)]. done.
Qed.

Lemma scanOf_falsy main c since :
  truthy since = false → scanOf main c since = Firestore.getDocs main c.
Proof. unfold scanOf. destruct since; [by intros ->|done]. Qed.

Lemma wrap_updatedAt_truthy env d : now env ≠ "" → truthy (Doc.updatedAt (wrap env d)) = true.
Proof.
  intros Hnow. cbn [wrap Doc.updatedAt]. unfold or at 1.
  destruct (truthy (or _ _)) eqn:Ht; [done|].
  cbn. by apply negb_true_iff, String.eqb_neq.
Qed.

Lemma wrap_updatedAt_field env d u :
  strField "updatedAt" d.2 = Some u → u ≠ "" → Doc.updatedAt (wrap env d) = Some u.
Proof.
  intros Hu Hne. cbn [wrap Doc.updatedAt]. rewrite Hu.
  assert (truthy (Some u) = true) as Ht by by apply truthy_Some; eauto.
  unfold or. by rewrite Ht, Ht.
Qed.

Section ForwardSync.

Context (env : Env) (c : string) (incrementalOnly : bool) (w : World).

Let since := sinceOf Backup c incrementalOnly w.
Let scan := scanOf (mainDb w) c since.
Let pending := filter (λ d, isDup (Firestore.collection (backupDb w) c) d = false) scan.

(** The three ways a forward sync of [c] ends when no call rejects and the
    collection holds at most 450 documents: nothing scanned; everything
    scanned is a duplicate; the pending documents are written. *)
Lemma syncShape_cases :
  quiet env Backup c →
  size (Firestore.collection (mainDb w) c) ≤ 450 →
  (scan = [] ∧ syncShape env Backup c incrementalOnly w = (Ok 0, w))
  ∨ (scan ≠ [] ∧ pending = []
     ∧ syncShape env Backup c incrementalOnly w = (Ok 0, countSkipped (length scan) w))
  ∨ (pending ≠ []
     ∧ syncShape env Backup c incrementalOnly w
       = (Ok (length pending),
          syncedWorld Backup c since (length scan - length pending)
            (map (wrap env) pending) w)).
Proof.
  intros (Hscan & Hget & Hcommit & Hverify) Hsize.
  pose proof (length_scanOf (mainDb w) c since) as Hlen. fold scan in Hlen.
  pose proof (length_filter
                (λ d, isDup (Firestore.collection (backupDb w) c) d = false) scan) as Hpend.
  fold pending in Hpend.
  rewrite syncShape_calm; [|done..|].
  2:{ rewrite filter_wrap, length_map. change (db (other Backup) w) with (mainDb w).
      change (db Backup w) with (backupDb w). fold since scan pending. lia. }
  change (db (other Backup) w) with (mainDb w). change (db Backup w) with (backupDb w).
  fold since. fold scan. rewrite filter_wrap. fold pending. rewrite !length_map.
  destruct scan as [|d0 scan0] eqn:Hs.
  { left. split; [done|]. by rewrite bool_decide_eq_true_2. }
  rewrite bool_decide_eq_false_2 by done. right.
  destruct pending as [|p0 pending0] eqn:Hp.
  - left. split; [done|]. split; [done|]. by rewrite bool_decide_eq_true_2.
  - right. split; [done|]. by rewrite bool_decide_eq_false_2.
Qed.

Lemma scan_since_falsy_covers (since' : option string) :
  truthy since = false → scanOf (mainDb w) c since' ⊆ scan.
Proof.
  intros Hf. unfold scan. rewrite (scanOf_falsy _ _ since) by done. apply scanOf_sublist.
Qed.

(** The next incremental scan is part of this one when nothing was
    written. *)
Lemma next_scan_unwritten :
  scanOf (mainDb w) c (metaGet (syncMetadata w) c) ⊆ scan.
Proof.
  unfold scan, since, sinceOf. cbn [watermarkKey].
  destruct incrementalOnly; [done|]. apply scanOf_sublist.
Qed.

Lemma sync_settles :
  quiet env Backup c →
  now env ≠ "" →
  size (Firestore.collection (mainDb w) c) ≤ 450 →
  settled (syncShape env Backup c incrementalOnly w).2 c.
Proof.
  intros Hquiet Hnow Hsize.
  destruct (syncShape_cases Hquiet Hsize)
    as [[Hnone ->]|[(Hsome & Hpend & ->)|(Hpend & ->)]]; cbn [snd].
  - intros d Hd%next_scan_unwritten. rewrite Hnone in Hd. by apply elem_of_nil in Hd.
  - intros d Hd. cbn [mainDb backupDb syncMetadata countSkipped with_syncStats] in *.
    apply next_scan_unwritten in Hd.
    destruct (isDup (Firestore.collection (backupDb w) c) d) eqn:Hdup; [done|].
    assert (d ∈ pending) as Hin by by apply list_elem_of_filter.
    rewrite Hpend in Hin. by apply elem_of_nil in Hin.
  - intros d.
    change (backupDb ?x) with (db Backup x). change (mainDb ?x) with (db (other Backup) x).
    rewrite syncedWorld_source, syncedWorld_meta, syncedWorld_db, collection_insert_eq.
    cbn [watermarkKey other db]. unfold metaGet. rewrite lookup_insert_eq. cbn [default].
    set (toSync := map (wrap env) pending).
    set (latest := latestOf since toSync).
    (* the new watermark is a timestamp *)
    destruct pending as [|p0 pending0] eqn:Hp; [done|].
    destruct (latestOf_atLeast_doc since toSync (wrap env p0)) as (a & b & Ha & Hb & Hane & Hab).
    { apply list_elem_of_here. }
    { by apply wrap_updatedAt_truthy. }
    fold latest in Ha. rewrite Ha.
    intros [Hall (u & Hu & Hgt)]%elem_of_scanOf_above; [|done].
    assert (u ≠ "") as Hune by by eapply gt_nonempty.
    (* the document was part of this scan *)
    assert (d ∈ scan) as Hscanned.
    { destruct (truthy since) eqn:Hsince.
      - pose proof (latestOf_atLeast_since since toSync Hsince) as (a' & s & Ha' & Hs & _ & Has).
        fold latest in Ha'. rewrite Ha in Ha'. injection Ha' as <-.
        unfold scan. rewrite Hs. apply elem_of_scanOf_above.
        { apply truthy_Some in Hsince as (s' & Hs' & Hne). congruence. }
        split; [done|]. exists u. split; [done|]. by eapply gt_ge_trans.
      - unfold scan. by rewrite scanOf_falsy. }
    (* had it been pending, the watermark would cover it *)
    destruct (isDup (Firestore.collection (backupDb w) c) d) eqn:Hdup.
    2:{ exfalso.
        assert (wrap env d ∈ toSync) as Hin.
        { apply list_elem_of_fmap_2. rewrite <- Hp. by apply list_elem_of_filter. }
        destruct (latestOf_atLeast_doc since toSync (wrap env d) Hin) as (a' & u' & Ha' & Hu' & _ & Hge).
        { by apply wrap_updatedAt_truthy. }
        fold latest in Ha'. rewrite Ha in Ha'. injection Ha' as <-.
        rewrite (wrap_updatedAt_field env d u) in Hu' by done. injection Hu' as <-.
        rewrite ge_not_gt, Hgt in Hge. done. }
    (* its copy is not among the writes *)
    unfold isDup in *. rewrite applyOps_other; [done|].
    intros (op & Hop & (doc & -> & (p & -> & Hpin)%list_elem_of_fmap)%list_elem_of_fmap)%list_elem_of_fmap.
    cbn in Hop.
    assert (p ∈ scan ∧ isDup (Firestore.collection (backupDb w) c) p = false) as [Hps Hpd].
    { rewrite <- Hp in Hpin. apply list_elem_of_filter in Hpin as [? ?]. done. }
    assert (p = d) as ->.
    { apply list_elem_of_lookup in Hps as [i Hi]. apply list_elem_of_lookup in Hscanned as [j Hj].
      assert (i = j) as ->; [|congruence].
      eapply NoDup_lookup; [apply (scanOf_NoDup (mainDb w) c since)| |].
      - fold scan. rewrite list_lookup_fmap, Hi. done.
      - fold scan. rewrite list_lookup_fmap, Hj. cbn. by rewrite Hop. }
    unfold isDup in Hpd. congruence.
Qed.

End ForwardSync.

Lemma settled_ext (w w' : World) (c : string) :
  mainDb w' = mainDb w →
  Firestore.collection (backupDb w') c = Firestore.collection (backupDb w) c →
  metaGet (syncMetadata w') c = metaGet (syncMetadata w) c →
  settled w c → settled w' c.
Proof. unfold settled. by intros -> -> ->. Qed.

Lemma ForwardFrame_refl c w : ForwardFrame c w w.
Proof. by split. Qed.

Lemma ForwardFrame_countSkipped c n w : ForwardFrame c w (countSkipped n w).
Proof. by split. Qed.

Lemma ForwardFrame_synced c since skipped toSync w :
  ForwardFrame c w (syncedWorld Backup c since skipped toSync w).
Proof.
  split.
  - apply (syncedWorld_source Backup).
  - apply syncedWorld_core.
  - by rewrite syncedWorld_stats.
  - by rewrite syncedWorld_stats.
  - intros c' Hne. change (backupDb ?x) with (db Backup x).
    by rewrite syncedWorld_db, collection_insert_ne.
  - intros c' Hne. unfold metaGet. rewrite syncedWorld_meta. cbn [watermarkKey].
    by rewrite lookup_insert_ne.
Qed.

Lemma ForwardFrame_emit c e w w' : ForwardFrame c w w' → ForwardFrame c w (emit e w').
Proof. by intros []. Qed.

Lemma ForwardFrame_settled c c' w w' :
  c' ≠ c → ForwardFrame c w w' → settled w c' → settled w' c'.
Proof. intros Hne [? ? ? ? Hb Hm]. apply settled_ext; auto. Qed.

Section ForwardRun.

Context (env : Env).
Hypothesis Hnow : now env ≠ "".

(** One step of the loop of [performFirestoreSync] in a quiet
    environment. *)
Lemma syncOne_settles (isFirstSync : bool) (total : nat) (w : World) (c : string) :
  quiet env Backup c →
  size (Firestore.collection (mainDb w) c) ≤ 450 →
  ForwardFrame c w (syncOne env isFirstSync (total, w) c).2
  ∧ settled (syncOne env isFirstSync (total, w) c).2 c.
Proof.
  intros Hquiet Hsize. unfold syncOne.
  change syncCollectionToBackup with (syncTo Backup). rewrite syncTo_shape.
  pose proof (sync_settles env c (negb isFirstSync) w Hquiet Hnow Hsize) as Hsettled.
  destruct (syncShape_cases env c (negb isFirstSync) w Hquiet Hsize)
    as [[_ Heq]|[(_ & _ & Heq)|(_ & Heq)]]; rewrite Heq in Hsettled |- *; cbn [snd] in *.
  - split; [apply ForwardFrame_emit, ForwardFrame_refl|exact Hsettled].
  - split; [apply ForwardFrame_emit, ForwardFrame_countSkipped|exact Hsettled].
  - split; [apply ForwardFrame_emit, ForwardFrame_synced|exact Hsettled].
Qed.

(** After the loop, every collection it went through is settled. *)
Lemma syncAll_settles (isFirstSync : bool) (cs : list string) :
  ∀ (seen : list string) (total : nat) (w : World),
    (∀ c, c ∈ cs → quiet env Backup c) →
    (∀ c, size (Firestore.collection (mainDb w) c) ≤ 450) →
    (∀ c, c ∈ seen → settled w c) →
    let w' := (foldl (syncOne env isFirstSync) (total, w) cs).2 in
    mainDb w' = mainDb w
    ∧ coreOf w' = coreOf w
    ∧ steadyStats (syncStats w') = steadyStats (syncStats w)
    ∧ ∀ c, c ∈ seen ++ cs → settled w' c.
Proof.
  induction cs as [|c cs IH]; intros seen total w Hquiet Hsize Hseen.
  { cbn. rewrite app_nil_r. done. }
  cbn [foldl].
  destruct (syncOne_settles isFirstSync total w c) as [Hframe Hc]; [set_solver|done|].
  destruct (syncOne env isFirstSync (total, w) c) as [total1 w1]; cbn [snd] in *.
  destruct Hframe as [Hmain Hcore Hstats Herr Hbackup Hmeta].
  destruct (IH (seen ++ [c]) total1 w1) as (Hmain' & Hcore' & Hstats' & Hall).
  - set_solver.
  - by rewrite Hmain.
  - intros c' [Hin| ->%list_elem_of_singleton]%elem_of_app; [|done].
    destruct (decide (c' = c)) as [->|Hne]; [done|].
    apply (ForwardFrame_settled c c' w w1); [done| |by apply Hseen].
    by split.
  - split; [congruence|]. split; [congruence|]. split; [congruence|].
    intros c' Hin. apply Hall. by rewrite <- (assoc_L _).
Qed.

End ForwardRun.

(** A forward sync of a settled collection writes nothing. *)
Lemma syncOne_settled (env : Env) (total : nat) (w : World) (c : string) :
  quiet env Backup c →
  settled w c →
  let r := syncOne env false (total, w) c in
  let observed := length (scanOf (mainDb w) c (metaGet (syncMetadata w) c)) in
  r.1 = total
  ∧ mainDb r.2 = mainDb w ∧ backupDb r.2 = backupDb w
  ∧ syncMetadata r.2 = syncMetadata w ∧ commitLog r.2 = commitLog w
  ∧ coreOf r.2 = coreOf w
  ∧ steadyStats (syncStats r.2) = steadyStats (syncStats w)
  ∧ Stats.errors (syncStats r.2) = Stats.errors (syncStats w)
  ∧ Stats.duplicatesSkipped (syncStats r.2) = Stats.duplicatesSkipped (syncStats w) + observed.
Proof.
  intros (Hscan & Hget & Hcommit & Hverify) Hsettled r observed. subst r.
  unfold syncOne. change syncCollectionToBackup with (syncTo Backup). rewrite syncTo_shape.
  assert (filter (λ d, isDup (Firestore.collection (backupDb w) c) d = false)
            (scanOf (mainDb w) c (metaGet (syncMetadata w) c)) = []) as Hnone.
  { apply filter_none. intros d Hd. rewrite Hsettled by done. done. }
  rewrite syncShape_calm; [|done..|].
  2:{ rewrite filter_wrap. change (db (other Backup) w) with (mainDb w).
      change (db Backup w) with (backupDb w). cbn [sinceOf negb watermarkKey].
      rewrite Hnone. cbn. lia. }
  change (db (other Backup) w) with (mainDb w). change (db Backup w) with (backupDb w).
  cbn [sinceOf negb watermarkKey]. rewrite filter_wrap, Hnone, length_map.
  fold observed. cbn [map length].
  rewrite (bool_decide_eq_true_2 (0 = 0)) by done.
  case_bool_decide as Hobs; cbn [fst snd].
  - rewrite Hobs. repeat split; cbn; lia.
  - repeat split; cbn; lia.
Qed.

Lemma syncAll_settled (env : Env) (cs : list string) :
  ∀ (total : nat) (w : World),
    (∀ c, c ∈ cs → quiet env Backup c) →
    (∀ c, c ∈ cs → settled w c) →
    let r := foldl (syncOne env false) (total, w) cs in
    let observed :=
      sum_list ((λ c, length (scanOf (mainDb w) c (metaGet (syncMetadata w) c))) <$> cs) in
    r.1 = total
    ∧ mainDb r.2 = mainDb w ∧ backupDb r.2 = backupDb w
    ∧ syncMetadata r.2 = syncMetadata w ∧ commitLog r.2 = commitLog w
    ∧ coreOf r.2 = coreOf w
    ∧ steadyStats (syncStats r.2) = steadyStats (syncStats w)
    ∧ Stats.errors (syncStats r.2) = Stats.errors (syncStats w)
    ∧ Stats.duplicatesSkipped (syncStats r.2) = Stats.duplicatesSkipped (syncStats w) + observed.
Proof.
  induction cs as [|c cs IH]; intros total w Hquiet Hsettled.
  { cbn. repeat split; lia. }
  cbn [foldl fmap list_fmap sum_list sum_list_with].
  destruct (syncOne_settled env total w c) as (H1 & H2 & H3 & H4 & H5 & H6 & H7 & H8 & H9);
    [set_solver..|].
  destruct (syncOne env false (total, w) c) as [total1 w1]; cbn [fst snd] in *.
  destruct (IH total1 w1) as (I1 & I2 & I3 & I4 & I5 & I6 & I7 & I8 & I9).
  - set_solver.
  - intros c' Hin. apply (settled_ext w); [done|by rewrite H3|by rewrite H4|set_solver].
  - rewrite I1, I2, I3, I4, I5, I6, I7, I8, I9, H1, H2, H3, H4, H5, H6, H7, H8, H9.
    repeat split. unfold id. lia.
Qed.

(** ** The forward run around the loop *)

Lemma loopStart_spec env w :
  docsOf (loopStart env w) = docsOf w
  ∧ Stats.totalSynced (syncStats (loopStart env w)) = Stats.totalSynced (syncStats w)
  ∧ Stats.duplicatesSkipped (syncStats (loopStart env w)) = Stats.duplicatesSkipped (syncStats w)
  ∧ Stats.lastFullSync (syncStats (loopStart env w)) = Stats.lastFullSync (syncStats w)
  ∧ (listFails env = false → collections (loopStart env w) = discovered (mainDb w)).
Proof.
  unfold loopStart, discoverCollections.
  destruct (listFails env); [done|].
  set (w2 := checkDatabaseHealth env (beginFullSync env w)).
  set (w3 := with_collections _ w2).
  cbn [fst]. unfold emitStats, emit, docsOf.
  cbn [mainDb backupDb syncMetadata commitLog syncStats collections with_emitted with_syncStats
       Stats.totalSynced Stats.duplicatesSkipped Stats.lastFullSync Stats.with_collections].
  destruct (sameButSchema_fields _ _ (analyze_all_frame env (collections w3) w3))
    as (-> & -> & -> & -> & -> & _ & _ & _ & -> & _).
  done.
Qed.

Lemma performFullSync_healthy env w :
  isSyncing w = false → healthy env →
  let w' := performFullSync env w in
  let r := loopOf env w in
  docsOf w' = docsOf r.2
  ∧ collections w' = collections r.2
  ∧ isSyncing w' = false
  ∧ Stats.totalSynced (syncStats w') = Stats.totalSynced (syncStats r.2) + r.1
  ∧ Stats.duplicatesSkipped (syncStats w') = Stats.duplicatesSkipped (syncStats r.2)
  ∧ Stats.lastFullSync (syncStats w')
    = if truthy (Stats.lastFullSync (syncStats (loopStart env w)))
      then Stats.lastFullSync (syncStats r.2) else Some (now env).
Proof.
  intros Hidle (HmainDb & HbackupDb & HmainAuth & HbackupAuth) w' r. subst w' r.
  unfold performFullSync. rewrite Hidle. unfold continueFullSync.
  set (w2 := checkDatabaseHealth env (beginFullSync env w)).
  assert (isMainDbOnline w2 = true ∧ isMainAuthOnline w2 = true
          ∧ isBackupDbOnline w2 = true ∧ isBackupAuthOnline w2 = true) as (-> & -> & -> & ->).
  { subst w2. unfold checkDatabaseHealth. cbn. by rewrite HmainDb, HbackupDb, HmainAuth, HbackupAuth. }
  cbn [negb orb]. unfold performFirestoreSync, loopOf, loopStart. fold w2.
  set (w0 := (discoverCollections env w2).1).
  destruct (foldl _ (0, w0) (collections w0)) as [total wl].
  cbn [fst snd]. unfold performFullAuthSync.
  destruct (truthy (Stats.lastFullSync (syncStats w0))), (authPlan env); cbn; done.
Qed.

Lemma loopOf_first env w :
  quietRun env → now env ≠ "" →
  (∀ c, size (Firestore.collection (mainDb w) c) ≤ 450) →
  let r := loopOf env w in
  mainDb r.2 = mainDb w
  ∧ collections r.2 = discovered (mainDb w)
  ∧ Stats.lastFullSync (syncStats r.2) = Stats.lastFullSync (syncStats w)
  ∧ ∀ c, c ∈ discovered (mainDb w) → settled r.2 c.
Proof.
  intros (_ & Hlist & Hquiet) Hnow Hsize r. subst r. unfold loopOf.
  destruct (loopStart_spec env w) as (Hdocs & _ & _ & Hfull & Hcs).
  specialize (Hcs Hlist). injection Hdocs as Hmain _ _ _.
  set (w0 := loopStart env w) in *.
  destruct (syncAll_settles env Hnow (negb (truthy (Stats.lastFullSync (syncStats w0))))
              (collections w0) [] 0 w0) as (Hmain' & Hcore & Hstats & Hall).
  - intros c _. apply Hquiet.
  - intros c. rewrite Hmain. apply Hsize.
  - intros c Hin. by apply elem_of_nil in Hin.
  - cbv zeta in *. injection Hcore as Hcoll _. injection Hstats as _ _ _ _ _ Hlast _.
    split; [congruence|]. split; [congruence|]. split; [congruence|].
    intros c Hin. apply Hall. cbn [app]. by rewrite Hcs.
Qed.

Lemma loopOf_second env w :
  quietRun env →
  truthy (Stats.lastFullSync (syncStats w)) = true →
  (∀ c, c ∈ discovered (mainDb w) → settled w c) →
  let r := loopOf env w in
  r.1 = 0
  ∧ docsOf r.2 = docsOf w
  ∧ collections r.2 = discovered (mainDb w)
  ∧ Stats.totalSynced (syncStats r.2) = Stats.totalSynced (syncStats w)
  ∧ Stats.duplicatesSkipped (syncStats r.2)
    = Stats.duplicatesSkipped (syncStats w)
      + sum_list ((λ c, length (scanOf (mainDb w) c (metaGet (syncMetadata w) c)))
                    <$> discovered (mainDb w)).
Proof.
  intros (_ & Hlist & Hquiet) Hfull Hsettled r. subst r. unfold loopOf.
  destruct (loopStart_spec env w) as (Hdocs & Htotal & Hskipped & Hlast & Hcs).
  specialize (Hcs Hlist). injection Hdocs as Hmain Hbackup Hmeta Hlog.
  set (w0 := loopStart env w) in *.
  rewrite Hlast, Hfull. cbn [negb].
  destruct (syncAll_settled env (collections w0) 0 w0)
    as (H1 & H2 & H3 & H4 & H5 & H6 & H7 & _ & H9).
  - intros c _. apply Hquiet.
  - intros c Hin. rewrite Hcs in Hin.
    apply (settled_ext w); [done|by rewrite Hbackup|by rewrite Hmeta|by apply Hsettled].
  - cbv zeta in *. injection H6 as Hcoll _. injection H7 as Hts _.
    unfold docsOf. rewrite H1, H2, H3, H4, H5, H9, Hcoll, Hts, Hcs.
    rewrite Hmain, Hbackup, Hmeta, Hlog, Htotal, Hskipped. done.
Qed.

Lemma small_collections (main : gmap string (gmap string obj)) :
  map_Forall (λ _ docs, size docs ≤ 450) main →
  ∀ c, size (Firestore.collection main c) ≤ 450.
Proof.
  intros Hall c. unfold Firestore.collection.
  destruct (main !! c) as [docs|] eqn:Hc; cbn [default].
  - by apply (Hall c docs).
  - rewrite map_size_empty. lia.
Qed.

Lemma calm_quietRun (clock : string) : quietRun (Fixture.calm clock).
Proof. repeat split. Qed.

(** ** A sync whose duplicate pre-check rejects *)

Lemma checkForDuplicates_gives_up env side c documents w n :
  n * 100 < length documents →
  getAllFails env side c n = true →
  checkForDuplicates env side c documents w = (documents, w).
Proof.
  intros Hn Hfail. unfold checkForDuplicates.
  rewrite (existingLoop_fails env side w c 0 n); [done| |done].
  rewrite length_slices. cbn [Nat.sub].
  apply Nat.div_le_lower_bound; lia.
Qed.

Lemma commitLog_progressAtLimit target c n w :
  commitLog (progressAtLimit target c n w) = commitLog w.
Proof. unfold progressAtLimit. by case_bool_decide. Qed.

Lemma syncShape_unfiltered env target c incrementalOnly w documents n :
  n * 100 < length documents →
  getAllFails env target c n = true →
  scanned target env c incrementalOnly w = Ok documents →
  length documents ≤ 450 →
  commitFails env target c 0 = false →
  commitLog (syncShape env target c incrementalOnly w).2
  = commitLog w ++ [(target, c, opOf <$> documents)].
Proof.
  intros Hn Hfail Hscan Hlen Hcommit. unfold syncShape. rewrite Hscan.
  rewrite bool_decide_eq_false_2 by lia.
  rewrite (checkForDuplicates_gives_up env target c documents w n) by done.
  rewrite bool_decide_eq_false_2 by lia.
  destruct (writeAll_upTo env target c (sinceOf target c incrementalOnly w) documents w)
    as (l & -> & _ & _); [lia|done|].
  destruct (match target with Backup => verifyFails env c | Main => false end);
    cbn [snd commitLog with_syncMetadata]; rewrite commitLog_progressAtLimit;
    by destruct target.
Qed.

(** ** Calls run without interruption *)

Lemma complete_ret {A} (a : A) w : Async.complete (Async.ret a) w = (a, w).
Proof. done. Qed.

Lemma complete_get {A} (f : World → A) w : Async.complete (Async.get f) w = (f w, w).
Proof. done. Qed.

Lemma complete_act f w : Async.complete (Async.act f) w = ((), f w).
Proof. done. Qed.

Lemma complete_await {A} (io : World → A * World) w :
  Async.complete (Async.await io) w = io w.
Proof. unfold Async.complete, Async.await. cbn. by destruct (io w). Qed.

Lemma finishAct_after {A B} (a : Async.Act A) (f : A → Async.t B) w :
  Async.complete (Async.after a f) w
  = Async.complete (f (Async.finishAct a w).1) (Async.finishAct a w).2.
Proof.
  revert w. induction a as [x|resume IH] using Act_nested_ind; intros w; [done|].
  unfold Async.complete. cbn. specialize (IH w).
  destruct (resume w) as [w1 a1]. cbn in *. exact (IH w1).
Qed.

Lemma complete_bind {A B} (m : Async.t A) (f : A → Async.t B) w :
  Async.complete (Async.bind m f) w
  = Async.complete (f (Async.complete m w).1) (Async.complete m w).2.
Proof.
  unfold Async.bind. unfold Async.complete at 1 3 4.
  destruct (m w) as [w1 a]. apply finishAct_after.
Qed.

Lemma complete_awaited {A} (m : Async.t A) w :
  Async.complete (Async.awaited m) w = Async.complete m w.
Proof.
  unfold Async.awaited. rewrite complete_bind. by destruct (Async.complete m w).
Qed.

Lemma complete_forOf {A S} (body : S → A → Async.t S) (s : S) (l : list A) w :
  Async.complete (Async.forOf body s l) w
  = foldl (λ sw x, Async.complete (body sw.1 x) sw.2) (s, w) l.
Proof.
  revert s w. induction l as [|x l IH]; intros s w; [done|].
  cbn [Async.forOf foldl]. rewrite complete_bind, IH. cbn [fst snd].
  by destruct (Async.complete (body s x) w).
Qed.

Lemma foldl_complete {A S} (body : S → A → Async.t S) (f : S * World → A → S * World)
    (l : list A) (s : S) (w : World) :
  (∀ s w x, Async.complete (body s x) w = f (s, w) x) →
  Async.complete (Async.forOf body s l) w = foldl f (s, w) l.
Proof.
  intros Hbody. revert s w. induction l as [|x l IH]; intros s w; [done|].
  cbn [Async.forOf foldl]. rewrite complete_bind, IH, Hbody. by destruct (f (s, w) x).
Qed.

Lemma complete_analyzeCollectionSchema env c w :
  Async.complete (Async.analyzeCollectionSchema env c) w = ((), analyzeCollectionSchema env c w).
Proof.
  unfold Async.analyzeCollectionSchema, analyzeCollectionSchema.
  rewrite complete_bind, complete_await. cbn [fst snd].
  by destruct (sampleFails env c).
Qed.

Lemma complete_analyze_all env l w :
  Async.complete (Async.forOf (λ _ c, Async.awaited (Async.analyzeCollectionSchema env c)) () l) w
  = ((), foldl (λ w c, analyzeCollectionSchema env c w) w l).
Proof.
  revert w. induction l as [|c l IH]; intros w; [done|].
  cbn [Async.forOf foldl].
  by rewrite complete_bind, complete_awaited, complete_analyzeCollectionSchema, IH.
Qed.

Lemma complete_discoverCollections env w :
  Async.complete (Async.discoverCollections env) w
  = ((discoverCollections env w).2, (discoverCollections env w).1).
Proof.
  unfold Async.discoverCollections, discoverCollections.
  rewrite complete_bind, complete_await. cbn [fst snd].
  destruct (listFails env); [done|].
  rewrite complete_bind, complete_act. cbn [fst snd].
  rewrite complete_bind, complete_analyze_all. cbn [fst snd].
  by rewrite complete_bind, complete_act, complete_bind, complete_act, complete_get.
Qed.

Lemma complete_getIncrementalDocuments env side c lastSyncTime w :
  Async.complete (Async.getIncrementalDocuments env side c lastSyncTime) w
  = (getIncrementalDocuments env side w c lastSyncTime, w).
Proof. unfold Async.getIncrementalDocuments. by rewrite complete_await. Qed.

Lemma complete_existingLoop env side c n batches existingDocs w :
  Async.complete (Async.existingLoop env side c n batches existingDocs) w
  = (existingLoop env side w c n batches existingDocs, w).
Proof.
  revert n existingDocs. induction batches as [|batch rest IH]; intros n existingDocs; [done|].
  cbn [Async.existingLoop existingLoop]. rewrite complete_bind, complete_await. cbn [fst snd].
  destruct (getAllFails env side c n); [done|]. apply IH.
Qed.

Lemma complete_checkForDuplicates env side c documents w :
  Async.complete (Async.checkForDuplicates env side c documents) w
  = checkForDuplicates env side c documents w.
Proof.
  unfold Async.checkForDuplicates, checkForDuplicates.
  rewrite complete_bind, complete_existingLoop. cbn [fst snd].
  destruct (existingLoop _ _ _ _ _ _ _); [|done].
  by rewrite complete_bind, complete_act.
Qed.

Lemma complete_commit env side c l w :
  Async.complete (Async.commit env side c l) w
  = ((commit env side c l w).1, (commit env side c l w).2).
Proof.
  unfold Async.commit. rewrite complete_await. by destruct (commit env side c l w) as [[r l1] w1].
Qed.

Lemma complete_writeStep env side c progress total l doc w :
  Async.complete (Async.writeStep env side c progress total l doc) w
  = writeStep env side c progress total (l, w) doc.
Proof.
  unfold Async.writeStep, writeStep.
  destruct (Firestore.set _ _ _) as [b|]; [|by rewrite complete_bind, complete_act].
  cbv zeta. case_bool_decide; [|done].
  rewrite complete_bind, complete_commit. cbn [fst snd].
  destruct (commit _ _ _ _ _) as [[[u|] l2] w2]; cbn [fst snd];
    by rewrite complete_bind, complete_act.
Qed.

Lemma complete_writeAll env side c progress lastSyncTime documentsToSync w :
  Async.complete (Async.writeAll env side c progress lastSyncTime documentsToSync) w
  = writeAll env side c progress lastSyncTime documentsToSync w.
Proof.
  unfold Async.writeAll, writeAll. cbv zeta.
  rewrite complete_bind,
    (foldl_complete _ (writeStep env side c progress (length documentsToSync)))
    by (intros; apply complete_writeStep).
  destruct (foldl _ _ _) as [l w1]. cbn [fst snd].
  case_bool_decide; [|done].
  rewrite complete_bind, complete_commit. cbn [fst snd].
  by destruct (commit _ _ _ _ _) as [[[u|] l2] w2].
Qed.

Lemma complete_syncCollectionToBackup env c incrementalOnly w :
  Async.complete (Async.syncCollectionToBackup env c incrementalOnly) w
  = syncCollectionToBackup env c incrementalOnly w.
Proof.
  unfold Async.syncCollectionToBackup, syncCollectionToBackup.
  rewrite complete_bind, complete_get. cbn [fst snd].
  rewrite complete_bind, complete_awaited, complete_getIncrementalDocuments. cbn [fst snd].
  destruct (getIncrementalDocuments _ _ _ _ _) as [documents|]; [|done].
  case_bool_decide; [done|].
  rewrite complete_bind, complete_awaited, complete_checkForDuplicates.
  destruct (checkForDuplicates _ _ _ _ _) as [documentsToSync w1]. cbn [fst snd].
  case_bool_decide; [done|].
  rewrite complete_bind, complete_writeAll.
  destruct (writeAll _ _ _ _ _ _ _) as [[l|] w2]; cbn [fst snd]; [|done].
  rewrite complete_bind, complete_act. cbn [fst snd].
  rewrite complete_bind, complete_await. cbn [fst snd].
  by destruct (verifyFails env c).
Qed.

Lemma complete_syncCollectionToMain env c incrementalOnly w :
  Async.complete (Async.syncCollectionToMain env c incrementalOnly) w
  = syncCollectionToMain env c incrementalOnly w.
Proof.
  unfold Async.syncCollectionToMain, syncCollectionToMain. cbv zeta.
  rewrite complete_bind, complete_get. cbn [fst snd].
  rewrite complete_bind, complete_awaited, complete_getIncrementalDocuments. cbn [fst snd].
  destruct (getIncrementalDocuments _ _ _ _ _) as [documents|]; [|done].
  case_bool_decide; [done|].
  rewrite complete_bind, complete_awaited, complete_checkForDuplicates.
  destruct (checkForDuplicates _ _ _ _ _) as [documentsToRecover w1]. cbn [fst snd].
  case_bool_decide; [done|].
  rewrite complete_bind, complete_writeAll.
  destruct (writeAll _ _ _ _ _ _ _) as [[l|] w2]; cbn [fst snd]; [|done].
  by rewrite complete_bind, complete_act.
Qed.

Lemma complete_checkDatabaseHealth env w :
  Async.complete (Async.checkDatabaseHealth env) w = ((), checkDatabaseHealth env w).
Proof.
  unfold Async.checkDatabaseHealth, checkDatabaseHealth.
  by repeat (rewrite ?complete_bind, ?complete_await, ?complete_act; cbn [fst snd]).
Qed.

Lemma complete_syncOne env isFirstSync totalSynced c w :
  Async.complete (Async.syncOne env isFirstSync totalSynced c) w
  = syncOne env isFirstSync (totalSynced, w) c.
Proof.
  unfold Async.syncOne, syncOne.
  rewrite complete_bind, complete_awaited, complete_syncCollectionToBackup.
  destruct (syncCollectionToBackup _ _ _ _) as [[n|] w1]; cbn [fst snd];
    by rewrite complete_bind, complete_act.
Qed.

Lemma complete_performFirestoreSync env w :
  Async.complete (Async.performFirestoreSync env) w = performFirestoreSync env w.
Proof.
  unfold Async.performFirestoreSync, performFirestoreSync.
  rewrite complete_bind, complete_awaited, complete_discoverCollections. cbn [fst snd].
  rewrite complete_bind, complete_get. cbn [fst snd].
  rewrite complete_bind, complete_get. cbn [fst snd].
  rewrite complete_bind, (foldl_complete _ (syncOne env _)) by (intros; apply complete_syncOne).
  destruct (foldl _ _ _) as [totalSynced w2]. cbn [fst snd].
  by rewrite complete_bind, complete_act.
Qed.

Lemma complete_fullSyncBody env w :
  Async.complete (Async.bind (Async.fullSyncBody env) (λ _, Async.act finish)) w
  = ((), continueFullSync env w).
Proof.
  unfold Async.fullSyncBody, continueFullSync.
  rewrite complete_bind, complete_bind, complete_awaited, complete_checkDatabaseHealth.
  cbn [fst snd]. rewrite complete_bind, complete_get. cbn [fst snd].
  set (w2 := checkDatabaseHealth env w).
  destruct (negb (isMainDbOnline w2) || negb (isMainAuthOnline w2)); [done|].
  rewrite complete_bind, complete_get. cbn [fst snd].
  destruct (negb (isBackupDbOnline w2) || negb (isBackupAuthOnline w2)); [done|].
  rewrite complete_bind, complete_awaited, complete_performFirestoreSync. cbn [fst snd].
  rewrite complete_bind, complete_await.
  destruct (performFullAuthSync env _) as [[u|] w']; cbn [fst snd];
    by rewrite complete_bind, complete_act, complete_act.
Qed.

Lemma complete_performFullSync env w :
  Async.complete (Async.performFullSync env) w = ((), performFullSync env w).
Proof.
  unfold Async.performFullSync, performFullSync.
  rewrite complete_bind, complete_get. cbn [fst snd].
  destruct (isSyncing w); [done|].
  rewrite complete_bind, complete_act. cbn [fst snd]. apply complete_fullSyncBody.
Qed.

Lemma complete_recoverOne env totalRecovered c w :
  Async.complete (Async.recoverOne env totalRecovered c) w
  = recoverOne env (totalRecovered, w) c.
Proof.
  unfold Async.recoverOne, recoverOne.
  rewrite complete_bind, complete_awaited, complete_syncCollectionToMain.
  destruct (syncCollectionToMain _ _ _ _) as [[n|] w1]; cbn [fst snd];
    by rewrite complete_bind, complete_act.
Qed.

Lemma complete_performRecovery env w :
  Async.complete (Async.performRecovery env) w = ((), performRecovery env w).
Proof.
  unfold Async.performRecovery, performRecovery.
  rewrite complete_bind, complete_get. cbn [fst snd].
  destruct (isSyncing w); [done|].
  rewrite complete_bind, complete_act. cbn [fst snd].
  unfold Async.recoveryBody, continueRecovery.
  rewrite complete_bind, complete_bind, complete_get. cbn [fst snd].
  set (w1 := beginRecovery w).
  destruct (negb (isMainDbOnline w1) || negb (isMainAuthOnline w1)); [done|].
  rewrite complete_bind, complete_get. cbn [fst snd].
  rewrite complete_bind, (foldl_complete _ (recoverOne env)) by (intros; apply complete_recoverOne).
  by destruct (foldl _ _ _) as [totalRecovered w2].
Qed.

Lemma complete_forceFullSync env w :
  Async.complete (Async.forceFullSync env) w = ((), forceFullSync env w).
Proof.
  unfold Async.forceFullSync, forceFullSync.
  rewrite complete_bind, complete_act, complete_bind, complete_act. cbn [fst snd].
  apply complete_performFullSync.
Qed.

(** ** The busy flag between two awaits *)

Lemma steady_ret_ {A} (a : A) : steady (Async.ret a).
Proof. intros w. split; [done|constructor]. Qed.

Lemma steady_get {A} (f : World → A) : steady (Async.get f).
Proof. intros w. split; [done|constructor]. Qed.

Lemma steady_act f : (∀ w, isSyncing (f w) = isSyncing w) → steady (Async.act f).
Proof. intros Hf w. split; [apply Hf|constructor]. Qed.

Lemma steady_await_ {A} (io : World → A * World) :
  (∀ w, isSyncing (io w).2 = isSyncing w) → steady (Async.await io).
Proof.
  intros Hio w. split; [done|]. constructor; intros w'.
  - specialize (Hio w'). by destruct (io w').
  - destruct (io w'). constructor.
Qed.

Lemma after_steady {A B} (a : Async.Act A) (f : A → Async.t B) :
  Steady a → (∀ x, steady (f x)) → steady (Async.after a f).
Proof.
  intros Ha Hf. induction Ha as [x|resume Hflag Hrest IH]; [apply Hf|].
  intros w. split; [done|]. constructor; intros w'.
  - specialize (Hflag w'). specialize (IH w'). destruct (resume w') as [w1 a1].
    cbn [fst snd] in *. exact (eq_trans (proj1 (IH w1)) Hflag).
  - specialize (IH w'). destruct (resume w') as [w1 a1]. apply IH.
Qed.

Lemma steady_bind {A B} (m : Async.t A) (f : A → Async.t B) :
  steady m → (∀ x, steady (f x)) → steady (Async.bind m f).
Proof.
  intros Hm Hf w. unfold Async.bind. destruct (Hm w) as [Hflag Hrest].
  destruct (m w) as [w1 a]. cbn in *.
  destruct (after_steady a f Hrest Hf w1) as [Hflag1 Hrest1]. split; [congruence|done].
Qed.

Lemma steady_awaited {A} (m : Async.t A) : steady m → steady (Async.awaited m).
Proof.
  intros Hm. apply steady_bind; [done|]. intros a w. split; [done|].
  constructor; intros w'; [done|constructor].
Qed.

Lemma steady_forOf {A S} (body : S → A → Async.t S) (s : S) (l : list A) :
  (∀ s x, steady (body s x)) → steady (Async.forOf body s l).
Proof.
  intros Hbody. revert s. induction l as [|x l IH]; intros s; [apply steady_ret_|].
  apply steady_bind; [apply Hbody|apply IH].
Qed.

Lemma isSyncing_recordSchema c snapshot w :
  isSyncing (Async.recordSchema c snapshot w) = isSyncing w.
Proof.
  unfold Async.recordSchema. cbv zeta.
  destruct (collectionsSchema w !! c); [|done]. by case_bool_decide.
Qed.

Lemma isSyncing_commit env side c l w : isSyncing (commit env side c l w).2 = isSyncing w.
Proof. unfold commit. destruct (commitFails env side c _); [done|]. by destruct side. Qed.

Lemma isSyncing_performFullAuthSync env w :
  isSyncing (performFullAuthSync env w).2 = isSyncing w.
Proof. unfold performFullAuthSync. by destruct (authPlan env). Qed.

Create HintDb steady.

(** Goals [steady m] for a function written with [bind], [act], [await]
    and [forOf]. *)
Ltac steady :=
  repeat match goal with
    | |- steady (Async.ret _) => apply steady_ret_
    | |- steady (Async.get _) => apply steady_get
    | |- steady (Async.awaited _) => apply steady_awaited
    | |- steady (Async.bind _ _) => apply steady_bind; [|intros ?]
    | |- steady (Async.forOf _ _ _) => apply steady_forOf; intros ? ?
    | |- steady (Async.act (match ?x with _ => _ end)) => destruct x
    | |- steady (Async.act _) =>
        apply steady_act; intros ?; first [reflexivity|apply isSyncing_recordSchema]
    | |- steady (Async.await _) =>
        apply steady_await_; intros ?;
        first [reflexivity|apply isSyncing_commit|apply isSyncing_performFullAuthSync]
    | |- steady (match ?x with _ => _ end) => destruct x
    | |- steady (let _ := _ in _) => cbv zeta
    | |- steady _ => solve [auto with steady]
    end.

Lemma steady_analyzeCollectionSchema env c : steady (Async.analyzeCollectionSchema env c).
Proof. unfold Async.analyzeCollectionSchema. steady. Qed.
#[local] Hint Resolve steady_analyzeCollectionSchema : steady.

Lemma steady_discoverCollections env : steady (Async.discoverCollections env).
Proof. unfold Async.discoverCollections. steady. Qed.
#[local] Hint Resolve steady_discoverCollections : steady.

Lemma steady_existingLoop env side c n batches existingDocs :
  steady (Async.existingLoop env side c n batches existingDocs).
Proof.
  revert n existingDocs. induction batches as [|batch rest IH]; intros n existingDocs;
    cbn [Async.existingLoop]; steady.
Qed.
#[local] Hint Resolve steady_existingLoop : steady.

Lemma steady_checkForDuplicates env side c documents :
  steady (Async.checkForDuplicates env side c documents).
Proof. unfold Async.checkForDuplicates. steady. Qed.
#[local] Hint Resolve steady_checkForDuplicates : steady.

Lemma steady_commit env side c l : steady (Async.commit env side c l).
Proof.
  unfold Async.commit. apply steady_await_. intros w.
  pose proof (isSyncing_commit env side c l w). by destruct (commit env side c l w) as [[r l1] w1].
Qed.
#[local] Hint Resolve steady_commit : steady.

Lemma steady_writeStep env side c progress total l doc :
  steady (Async.writeStep env side c progress total l doc).
Proof.
  unfold Async.writeStep. destruct (Firestore.set _ _ _); [|steady].
  steady.
Qed.
#[local] Hint Resolve steady_writeStep : steady.

Lemma steady_writeAll env side c progress lastSyncTime documentsToSync :
  steady (Async.writeAll env side c progress lastSyncTime documentsToSync).
Proof. unfold Async.writeAll. steady. Qed.
#[local] Hint Resolve steady_writeAll : steady.

Lemma steady_syncCollectionToBackup env c incrementalOnly :
  steady (Async.syncCollectionToBackup env c incrementalOnly).
Proof.
  unfold Async.syncCollectionToBackup, Async.getIncrementalDocuments.
  steady.
Qed.
#[local] Hint Resolve steady_syncCollectionToBackup : steady.

Lemma steady_syncCollectionToMain env c incrementalOnly :
  steady (Async.syncCollectionToMain env c incrementalOnly).
Proof.
  unfold Async.syncCollectionToMain, Async.getIncrementalDocuments.
  steady.
Qed.
#[local] Hint Resolve steady_syncCollectionToMain : steady.

Lemma steady_checkDatabaseHealth env : steady (Async.checkDatabaseHealth env).
Proof. unfold Async.checkDatabaseHealth. steady. Qed.
#[local] Hint Resolve steady_checkDatabaseHealth : steady.

Lemma steady_syncOne env isFirstSync totalSynced c :
  steady (Async.syncOne env isFirstSync totalSynced c).
Proof. unfold Async.syncOne. steady. Qed.
#[local] Hint Resolve steady_syncOne : steady.

Lemma steady_performFirestoreSync env : steady (Async.performFirestoreSync env).
Proof. unfold Async.performFirestoreSync. steady. Qed.
#[local] Hint Resolve steady_performFirestoreSync : steady.

Lemma steady_fullSyncBody env : steady (Async.fullSyncBody env).
Proof. unfold Async.fullSyncBody. steady. Qed.
#[local] Hint Resolve steady_fullSyncBody : steady.

Lemma steady_recoverOne env totalRecovered c : steady (Async.recoverOne env totalRecovered c).
Proof. unfold Async.recoverOne. steady. Qed.
#[local] Hint Resolve steady_recoverOne : steady.

Lemma steady_recoveryBody env : steady (Async.recoveryBody env).
Proof. unfold Async.recoveryBody. steady. Qed.
#[local] Hint Resolve steady_recoveryBody : steady.

Lemma steady_forceFullAuthSync env : steady (Async.forceFullAuthSync env).
Proof. unfold Async.forceFullAuthSync. steady. Qed.
#[local] Hint Resolve steady_forceFullAuthSync : steady.

(** ** One run at a time *)

Lemma after_lowers {A} (a : Async.Act A) (f : A → Async.t unit) w :
  Steady a → isSyncing w = true →
  (∀ x w', isSyncing w' = true → lowers (f x w')) →
  lowers (Async.after a f w).
Proof.
  intros Ha Hw Hf. revert w Hw. induction Ha as [x|resume Hflag Hrest IH]; intros w Hw.
  { by apply Hf. }
  split; [done|]. intros w' Hw'.
  specialize (Hflag w'). specialize (IH w').
  destruct (resume w') as [w1 a1]. cbn [fst snd] in *.
  apply (IH w1). congruence.
Qed.

(** A [try] block that leaves the flag alone, followed by the [finally]
    block, started with the flag up. *)
Lemma guarded_lowers (body : Async.t unit) w :
  steady body → isSyncing w = true →
  lowers (Async.bind body (λ _, Async.act finish) w).
Proof.
  intros Hbody Hw. unfold Async.bind. destruct (Hbody w) as [Hflag Hrest].
  destruct (body w) as [w1 a]. cbn [fst snd] in *.
  apply after_lowers; [done|congruence|]. by intros _ w' _.
Qed.

Lemma performFullSync_lowers env w :
  isSyncing w = false → lowers (Async.performFullSync env w).
Proof.
  intros Hidle. unfold Async.performFullSync, Async.bind at 1, Async.get.
  cbn [Async.after]. rewrite Hidle.
  apply (guarded_lowers (Async.fullSyncBody env) (beginFullSync env w));
    [apply steady_fullSyncBody|done].
Qed.

Lemma performRecovery_lowers env w :
  isSyncing w = false → lowers (Async.performRecovery env w).
Proof.
  intros Hidle. unfold Async.performRecovery, Async.bind at 1, Async.get.
  cbn [Async.after]. rewrite Hidle.
  apply (guarded_lowers (Async.recoveryBody env) (beginRecovery w));
    [apply steady_recoveryBody|done].
Qed.

Lemma forceFullSync_lowers env w :
  isSyncing w = false → lowers (Async.forceFullSync env w).
Proof. intros Hidle. by apply performFullSync_lowers. Qed.

Lemma performFullSync_busy env w :
  isSyncing w = true →
  Async.performFullSync env w = (warn "Sync already in progress, skipping..." w, Async.Ret ()).
Proof.
  intros Hbusy. unfold Async.performFullSync, Async.bind, Async.get. cbn [Async.after].
  by rewrite Hbusy.
Qed.

Lemma performRecovery_busy env w :
  isSyncing w = true →
  Async.performRecovery env w
  = (warn "Recovery already in progress, skipping..." w, Async.Ret ()).
Proof.
  intros Hbusy. unfold Async.performRecovery, Async.bind, Async.get. cbn [Async.after].
  by rewrite Hbusy.
Qed.

Lemma forceFullSync_busy env w :
  isSyncing w = true →
  Async.forceFullSync env w = (forceFullSync env w, Async.Ret ()).
Proof.
  intros Hbusy. unfold Async.forceFullSync, forceFullSync, performFullSync.
  unfold Async.bind at 1 2, Async.act. cbn [Async.after].
  rewrite performFullSync_busy by done. cbn [isSyncing with_syncStats with_syncMetadata].
  by rewrite Hbusy.
Qed.

(** A call that is no run leaves the flag alone. *)
Lemma enter_steady e env : runOf e = None → steady (enter e env).
Proof.
  destruct e; intros Hrun; try discriminate; cbn [enter].
  - apply steady_checkDatabaseHealth.
  - apply steady_bind; [apply steady_discoverCollections|intros; apply steady_ret_].
  - apply steady_analyzeCollectionSchema.
  - apply steady_forceFullAuthSync.
  - by apply steady_act.
Qed.

(** A call that finds the flag down and is a run raises it, unless it has
    lowered it again by the time it returns. *)
Lemma enter_lowers e env w r :
  runOf e = Some r → isSyncing w = false → lowers (enter e env w).
Proof.
  destruct e; intros Hrun Hidle; try discriminate; cbn [enter].
  - by apply performFullSync_lowers.
  - by apply performRecovery_lowers.
  - by apply forceFullSync_lowers.
Qed.

(** A call that finds the flag up returns without an [await] and leaves
    the flag up. *)
Lemma enter_busy e env w r :
  runOf e = Some r → isSyncing w = true →
  (enter e env w).2 = Async.Ret () ∧ isSyncing (enter e env w).1 = true.
Proof.
  destruct e; intros Hrun Hbusy; try discriminate; cbn [enter].
  - by rewrite performFullSync_busy.
  - by rewrite performRecovery_busy.
  - rewrite forceFullSync_busy by done. split; [done|]. cbn.
    unfold forceFullSync, performFullSync. cbn [isSyncing with_syncStats with_syncMetadata].
    by rewrite Hbusy.
Qed.

Lemma running_app tasks tasks' : running (tasks ++ tasks') = running tasks ++ running tasks'.
Proof. apply omap_app. Qed.

Lemma running_suspended tag (a : Async.Act unit) :
  running (suspended tag a)
  = match a, tag with Async.Await _, Some r => [r] | _, _ => [] end.
Proof. by destruct a, tag. Qed.

(** The invariant of the event loop: every suspended run holds the flag,
    every other suspended call leaves it alone, and the flag is up exactly
    when one run is suspended. *)
Lemma step_exclusive s s' :
  step s s' → Forall orderly s.2 ∧ exclusive s → Forall orderly s'.2 ∧ exclusive s'.
Proof.
  intros Hstep [Hall Hexcl]. unfold exclusive in *.
  destruct Hstep as [e env w tasks|tag resume w before behind|side d w tasks];
    cbn [fst snd] in *.
  - rewrite running_app, running_suspended. unfold begun.
    destruct (runOf e) as [r|] eqn:Hrun.
    + destruct (isSyncing w) eqn:Hflag.
      * destruct (enter_busy e env w r Hrun Hflag) as [-> Hup]. cbn [suspended].
        rewrite !app_nil_r. split; [done|].
        destruct Hexcl as [[_ ?]|(r' & Hr' & _)]; [done|]. right. eauto.
      * pose proof (enter_lowers e env w r Hrun Hflag) as Hlow. unfold lowers in Hlow.
        destruct Hexcl as [[Hnone _]|(r' & _ & ?)]; [|done]. rewrite Hnone.
        destruct (enter e env w).2 as [u|resume] eqn:Hact; cbn [suspended app].
        -- rewrite app_nil_r. split; [done|]. by left.
        -- destruct Hlow as [Hup Hlow]. split.
           ++ apply Forall_app. split; [done|]. by apply Forall_singleton.
           ++ right. eauto.
    + destruct (enter_steady e env Hrun w) as [Hflag Hrest].
      assert (Forall orderly (suspended None (enter e env w).2)) as Hnew.
      { destruct (enter e env w).2; [constructor|by apply Forall_singleton]. }
      assert ((if isSyncing w then None else None) = @None Run) as -> by by destruct (isSyncing w).
      split; [by apply Forall_app|].
      replace (match (enter e env w).2 with Async.Ret _ | _ => [] end) with (@nil Run)
        by by destruct (enter e env w).2.
      by rewrite app_nil_r, Hflag.
  - apply Forall_app in Hall as [Hbefore [Htask Hbehind]%Forall_cons].
    rewrite !running_app, running_suspended. rewrite running_app in Hexcl.
    destruct tag as [r|]; cbn [running omap fst] in Hexcl.
    + unfold orderly in Htask. cbn [fst snd Lowering] in Htask.
      destruct Hexcl as [[Hnone _]|(r' & Hone & Hflag)].
      { by destruct (running before). }
      assert (running before = [] ∧ running behind = []) as [Hb Ha].
      { change (omap fst before) with (running before) in Hone.
        change (omap fst behind) with (running behind) in Hone.
        destruct (running before) as [|? [|? ?]]; cbn in Hone; [|by simplify_eq..].
        injection Hone as _ Hnone. by split. }
      rewrite Hb, Ha. specialize (Htask w Hflag).
      destruct (resume w).2 as [u|resume'] eqn:Hact; cbn [suspended app].
      * split; [by apply Forall_app|]. by left.
      * destruct Htask as [Hup Hlow]. split; [|right; eauto].
        apply Forall_app. split; [done|]. by apply Forall_cons.
    + unfold orderly in Htask. cbn [fst snd] in Htask. inversion Htask as [|? Hflag Hrest]; subst.
      assert (Forall orderly (suspended None (resume w).2)) as Hnew.
      { generalize (Hrest w). destruct (resume w).2; [constructor|].
        intros ?. by apply Forall_singleton. }
      split; [apply Forall_app; split; [done|by apply Forall_app]|].
      replace (match (resume w).2 with Async.Ret _ | _ => [] end) with (@nil Run)
        by by destruct (resume w).2.
      by rewrite Hflag.
  - split; [done|]. by destruct side.
Qed.

Lemma reachable_exclusive s s' :
  rtc step s s' → Forall orderly s.2 ∧ exclusive s → Forall orderly s'.2 ∧ exclusive s'.
Proof. induction 1; eauto using step_exclusive. Qed.

Lemma enter_refused r env w :
  isSyncing w = true → enter (entryOf r) env w = (warn (busyLine r) w, Async.Ret ()).
Proof.
  intros Hbusy. destruct r; cbn [entryOf enter busyLine];
    [by apply performFullSync_busy|by apply performRecovery_busy].
Qed.

(** ** The duplicate test, spelled out *)

Lemma upToDate_current (existingData newData : obj) :
  upToDate existingData newData = true ↔ current existingData newData.
Proof.
  unfold upToDate, current.
  destruct (timestampOf existingData) as [stored|], (timestampOf newData) as [own|];
    cbn [truthy oge andb]; try (split; [discriminate|tauto]).
  - rewrite !andb_true_iff, !negb_true_iff, !String.eqb_neq. tauto.
  - rewrite andb_false_r. split; [discriminate|tauto].
Qed.

Lemma isDuplicate_current (target : gmap string obj) (doc : Doc.t) :
  isDuplicate target doc = true ↔ hasCurrentCopy target (Doc.id doc) (Doc.data doc).
Proof.
  unfold isDuplicate, hasCurrentCopy.
  destruct (target !! Doc.id doc); [apply upToDate_current|]. split; [discriminate|tauto].
Qed.

Lemma isDup_current (target : gmap string obj) (d : string * obj) :
  isDup target d = true ↔ hasCurrentCopy target d.1 d.2.
Proof.
  unfold isDup, hasCurrentCopy.
  destruct (target !! d.1); [apply upToDate_current|]. split; [discriminate|tauto].
Qed.

Lemma isDuplicate_stale (target : gmap string obj) (doc : Doc.t) :
  isDuplicate target doc = false ↔ ¬ hasCurrentCopy target (Doc.id doc) (Doc.data doc).
Proof. rewrite <- isDuplicate_current. by destruct (isDuplicate target doc). Qed.

Lemma textWorld_textSync (w : World) target c incrementalOnly :
  textWorld w → textSync target c incrementalOnly w.
Proof.
  intros (Hmain & Hbackup & Hmeta).
  assert (∀ d : gmap string (gmap string obj),
            map_Forall (λ _ docs, textStamped docs) d →
            textStamped (Firestore.collection d c)) as Hcoll.
  { intros d Hd. unfold Firestore.collection.
    destruct (d !! c) as [docs|] eqn:Hc; cbn [default]; [by apply (Hd c docs)|].
    apply map_Forall_empty. }
  split; [destruct target; by apply Hcoll|]. split; [destruct target; by apply Hcoll|].
  unfold sinceOf, metaGet. destruct incrementalOnly; [|done].
  destruct (syncMetadata w !! watermarkKey target c) as [t|] eqn:Ht; [|done].
  cbn [default]. by apply (Hmeta (watermarkKey target c) t).
Qed.

(** * The claims *)

(** ** C1: No overwrite of an up-to-date copy *)

(** C1 as stated fails when the pre-check rejects: the standby holds a
    later version of [a1], the first [getAll] rejects, and the sync commits
    a write for [a1] and counts no skipped duplicate. *)
Lemma up_to_date_copy_overwritten_after_precheck_error :
  let env := Fixture.precheckDown Fixture.june in
  let w := Fixture.staleSource in
  let w' := (syncCollectionToBackup env "appointments" false w).2 in
  scanned Backup env "appointments" false w = Ok [Fixture.a1]
  ∧ Firestore.collection (backupDb w) "appointments" !! "a1"
    = Some (Fixture.stamped "2024-01-01T00:00:09Z" "new")
  ∧ ge "2024-01-01T00:00:09Z" "2024-01-01T00:00:01Z" = true
  ∧ commitLog w' = [(Backup, "appointments", [("a1", Fixture.stamped "2024-01-01T00:00:01Z" "old")])]
  ∧ Firestore.collection (backupDb w') "appointments" !! "a1"
    = Some (Fixture.stamped "2024-01-01T00:00:01Z" "old")
  ∧ Stats.duplicatesSkipped (syncStats w') = 0.
Proof. vm_compute. repeat split; reflexivity. Qed.

(** C1, amended.  In a forward collection sync and in a recovery collection
    sync whose duplicate pre-check does not reject, over documents whose
    timestamp fields hold text ([textSync]): a scanned document whose
    copy on the target carries a timestamp ([updatedAt], else [createdAt])
    at least the document's own is not part of any batch committed by the
    sync, its copy on the target stays as it was, and it is one of the
    documents the sync adds to [duplicatesSkipped]; the sync adds one for
    each scanned document that has such a copy ([hasCurrentCopy]).

    The first hypothesis is not used by the proof.  It confines the
    statement to the documents on which the embedding reads a timestamp
    as the program does. *)
Theorem up_to_date_document_not_written
    (env : Env) (target : Side) (c : string) (incrementalOnly : bool) (w : World)
    (documents : list Doc.t) (doc : Doc.t) (existingData : obj) (stored own : string) :
  textSync target c incrementalOnly w →
  (∀ k, getAllFails env target c k = false) →
  scanned target env c incrementalOnly w = Ok documents →
  doc ∈ documents →
  Firestore.collection (db target w) c !! Doc.id doc = Some existingData →
  timestampOf existingData = Some stored →
  timestampOf (Doc.data doc) = Some own →
  own ≠ "" →
  ge stored own = true →
  let w' := (syncTo target env c incrementalOnly w).2 in
  let skipped :=
    filter (λ d, hasCurrentCopy (Firestore.collection (db target w) c) (Doc.id d) (Doc.data d))
      documents in
  (∃ more, commitLog w' = commitLog w ++ more
           ∧ Forall (λ e, Doc.id doc ∉ e.2.*1) more)
  ∧ Firestore.collection (db target w') c !! Doc.id doc = Some existingData
  ∧ doc ∈ skipped
  ∧ Stats.duplicatesSkipped (syncStats w')
    = Stats.duplicatesSkipped (syncStats w) + length skipped.
Proof.
  intros _ Hok Hscan Hdoc Hcopy Hstored Hown Hne Hge w' counted.
  set (skipped :=
         filter (λ d, Doc.id d ∈ dupIds (Firestore.collection (db target w) c) documents)
           documents).
  assert (counted = skipped) as ->.
  { apply filter_iff_in. intros d Hd.
    rewrite dupIds_NoDup by eauto using scanned_NoDup.
    symmetry. apply isDuplicate_current. }
  assert (isDuplicate (Firestore.collection (db target w) c) doc = true) as Hdup.
  { unfold isDuplicate, upToDate. rewrite Hcopy, Hstored, Hown. cbn.
    rewrite Hge, andb_true_r.
    apply andb_true_intro. split; apply negb_true_iff, String.eqb_neq; [|done].
    intros ->. unfold ge, String.leb in Hge. by destruct own. }
  assert (Doc.id doc ∈ dupIds (Firestore.collection (db target w) c) documents) as Hin.
  { apply elem_of_dupIds. eauto. }
  assert (doc ∈ skipped) as Hskipped by by apply list_elem_of_filter.
  subst w'. rewrite syncTo_shape. unfold syncShape. rewrite Hscan.
  case_bool_decide as Hlen.
  { destruct documents; [by apply elem_of_nil in Hdoc|done]. }
  rewrite checkForDuplicates_ok by done.
  rewrite (length_filter_complement
             (λ d, Doc.id d ∈ dupIds (Firestore.collection (db target w) c) documents)).
  fold skipped.
  set (toSync := filter _ documents).
  assert (Doc.id doc ∉ Doc.id <$> toSync) as Hnot.
  { intros (d & Hd & [Hd' _]%list_elem_of_filter)%list_elem_of_fmap.
    apply Hd'. by rewrite <- Hd. }
  case_bool_decide as Hnone; cbn [snd].
  { split; [exists []; by rewrite app_nil_r|]. split; [by destruct target|done]. }
  pose proof (writeAll_frame env target c (progressOf target)
                (sinceOf target c incrementalOnly w) toSync
                (countSkipped (length skipped) w)) as [F1 F2 F3 F4 F5 F6 F7 F8].
  destruct (writeAll _ _ _ _ _ toSync _) as [[l|] w2]; cbn [snd] in *.
  - assert (∀ v, (if v : bool then (@Throw nat, with_syncMetadata
        (<[watermarkKey target c := Loop.latestTimestamp l]> (syncMetadata w2)) w2)
      else (Ok (Loop.totalSynced l), with_syncMetadata
        (<[watermarkKey target c := Loop.latestTimestamp l]> (syncMetadata w2)) w2)).2
      = with_syncMetadata
          (<[watermarkKey target c := Loop.latestTimestamp l]> (syncMetadata w2)) w2) as Hif
      by by intros [].
    rewrite Hif. clear Hif.
    destruct F8 as (more & Hlog & Hmore).
    split; [|split; [|split; [done|]]].
    + exists more. split; [by destruct target|].
      eapply Forall_impl; [exact Hmore|]. intros e [_ He] (op & Hop & Hin')%list_elem_of_fmap.
      apply Hnot. rewrite Hop. by apply He.
    + transitivity (Firestore.collection (db target w2) c !! Doc.id doc); [by destruct target|].
      rewrite F7 by done. by destruct target.
    + transitivity (Stats.duplicatesSkipped (syncStats w2)); [done|]. by rewrite F3.
  - destruct F8 as (more & Hlog & Hmore).
    split; [|split; [|split; [done|]]].
    + exists more. split; [by destruct target|].
      eapply Forall_impl; [exact Hmore|]. intros e [_ He] (op & Hop & Hin')%list_elem_of_fmap.
      apply Hnot. rewrite Hop. by apply He.
    + rewrite F7 by done. by destruct target.
    + by rewrite F3.
Qed.

Lemma up_to_date_document_not_written_witness :
  let env := Fixture.calm Fixture.june in
  let w := Fixture.staleSource in
  textSync Backup "appointments" false w
  ∧ (∀ k, getAllFails env Backup "appointments" k = false)
  ∧ scanned Backup env "appointments" false w = Ok [Fixture.a1]
  ∧ Fixture.a1 ∈ [Fixture.a1]
  ∧ timestampOf (Fixture.stamped "2024-01-01T00:00:09Z" "new") = Some "2024-01-01T00:00:09Z"
  ∧ timestampOf (Doc.data Fixture.a1) = Some "2024-01-01T00:00:01Z"
  ∧ "2024-01-01T00:00:01Z" ≠ ""
  ∧ ge "2024-01-01T00:00:09Z" "2024-01-01T00:00:01Z" = true
  ∧ Firestore.collection (backupDb (syncCollectionToBackup env "appointments" false w).2)
      "appointments" !! "a1"
    = Some (Fixture.stamped "2024-01-01T00:00:09Z" "new").
Proof.
  intros env w.
  assert (textSync Backup "appointments" false w) as H0.
  { apply textWorld_textSync, (bool_decide_unpack _). vm_compute. exact I. }
  assert (∀ k, getAllFails env Backup "appointments" k = false) as H1 by done.
  assert (scanned Backup env "appointments" false w = Ok [Fixture.a1]) as H2
    by (vm_compute; reflexivity).
  assert (Fixture.a1 ∈ [Fixture.a1]) as H3 by apply list_elem_of_here.
  assert (Firestore.collection (db Backup w) "appointments" !! Doc.id Fixture.a1
          = Some (Fixture.stamped "2024-01-01T00:00:09Z" "new")) as H4
    by (vm_compute; reflexivity).
  assert ("2024-01-01T00:00:01Z" ≠ "") as H7 by discriminate.
  do 8 (split; [done|]).
  exact (proj1 (proj2
    (up_to_date_document_not_written env Backup "appointments" false w [Fixture.a1]
       Fixture.a1 _ "2024-01-01T00:00:09Z" "2024-01-01T00:00:01Z"
       H0 H1 H2 H3 H4 eq_refl eq_refl H7 eq_refl))).
Defined.

(** ** C2: A second forward pass *)

(** C2 as stated fails on the scan: the first pass writes [a1] and skips
    [a2], so the watermark is the timestamp of [a1]; the second pass's
    filter returns [a2], which is skipped again. *)
Lemma second_pass_scans_documents_again :
  let env := Fixture.calm Fixture.june in
  let w1 := performFullSync env Overtaken.world in
  let w2 := performFullSync env w1 in
  mainDb w1 = mainDb Overtaken.world
  ∧ metaGet (syncMetadata w1) "appointments" = Some "2024-01-01T00:00:01Z"
  ∧ getIncrementalDocuments env Main w1 "appointments"
      (metaGet (syncMetadata w1) "appointments")
    = Ok [ {| Doc.id := "a2";
              Doc.data := Fixture.stamped "2024-01-01T00:00:09Z" "second";
              Doc.updatedAt := Some "2024-01-01T00:00:09Z" |} ]
  ∧ Stats.totalSynced (syncStats w1) = 1
  ∧ Stats.totalSynced (syncStats w2) = 1
  ∧ Stats.duplicatesSkipped (syncStats w1) = 1
  ∧ Stats.duplicatesSkipped (syncStats w2) = 2.
Proof. vm_compute. done. Qed.

(** C2, amended.  Two forward passes in a row over an unchanged primary,
    each with all probes answering and no database call rejecting, the
    first one with every primary collection holding at most 450 documents
    (so that it schedules at most 450 writes per collection), with a
    clock that returns a non-empty ASCII string, as [toISOString] does,
    and over documents and watermarks that hold text ([textWorld]): the
    second pass writes nothing.  Its [totalSynced] delta is 0, the standby, the
    commit log and the watermarks are as the first pass left them, and
    every document its scans return is counted in [duplicatesSkipped].
    The scans need not be empty: a document skipped as a duplicate by the
    first pass with a timestamp above the watermark is returned again.

    The hypotheses [textWorld] and [asciiText] are not used by the proof.
    They confine the statement to the documents on which the embedding
    reads a timestamp as the program does. *)
Theorem second_forward_pass_writes_nothing (env1 env2 : Env) (w : World) :
  textWorld w →
  asciiText (now env1) = true →
  isSyncing w = false →
  quietRun env1 → quietRun env2 →
  now env1 ≠ "" →
  (∀ c, size (Firestore.collection (mainDb w) c) ≤ 450) →
  let w1 := performFullSync env1 w in
  let w2 := performFullSync env2 w1 in
  let observed :=
    sum_list ((λ c, length (scanOf (mainDb w1) c (metaGet (syncMetadata w1) c)))
                <$> collections w1) in
  mainDb w1 = mainDb w
  ∧ Stats.totalSynced (syncStats w2) = Stats.totalSynced (syncStats w1)
  ∧ backupDb w2 = backupDb w1
  ∧ commitLog w2 = commitLog w1
  ∧ syncMetadata w2 = syncMetadata w1
  ∧ Stats.duplicatesSkipped (syncStats w2) = Stats.duplicatesSkipped (syncStats w1) + observed.
Proof.
  intros _ _ Hidle Hq1 Hq2 Hnow Hsize w1 w2 observed.
  (* the first pass *)
  destruct (performFullSync_healthy env1 w Hidle (proj1 Hq1))
    as (Hdocs1 & Hcs1 & Hidle1 & _ & _ & Hlast1).
  destruct (loopOf_first env1 w Hq1 Hnow Hsize) as (Hmain1 & Hcoll1 & Hfull1 & Hsettled1).
  fold w1 in Hdocs1, Hcs1, Hidle1, Hlast1. cbv zeta in *.
  injection Hdocs1 as Hm1 Hb1 Hmeta1 Hlog1.
  assert (mainDb w1 = mainDb w) as Hmain by congruence.
  assert (collections w1 = discovered (mainDb w1)) as Hcs by congruence.
  assert (truthy (Stats.lastFullSync (syncStats w1)) = true) as Hfull.
  { rewrite Hlast1.
    destruct (truthy (Stats.lastFullSync (syncStats (loopStart env1 w)))) eqn:Hfirst.
    - rewrite Hfull1. by destruct (loopStart_spec env1 w) as (_ & _ & _ & <- & _).
    - cbn. by apply negb_true_iff, String.eqb_neq. }
  assert (∀ c, c ∈ discovered (mainDb w1) → settled w1 c) as Hsettled.
  { intros c Hin. rewrite Hmain in Hin.
    apply (settled_ext (loopOf env1 w).2); [done|by rewrite Hb1|by rewrite Hmeta1|].
    by apply Hsettled1. }
  (* the second pass *)
  destruct (performFullSync_healthy env2 w1 Hidle1 (proj1 Hq2))
    as (Hdocs2 & _ & _ & Htotal2 & Hskipped2 & _).
  destruct (loopOf_second env2 w1 Hq2 Hfull Hsettled) as (Hzero & Hd & _ & Ht & Hs).
  fold w2 in Hdocs2, Htotal2, Hskipped2. cbv zeta in *.
  rewrite Hd in Hdocs2. injection Hdocs2 as _ Hb2 Hmeta2 Hlog2.
  subst observed. rewrite Hcs.
  split; [done|]. split; [lia|]. split; [done|]. split; [done|]. split; [done|].
  by rewrite Hskipped2, Hs.
Qed.

Lemma second_forward_pass_writes_nothing_witness :
  let env := Fixture.calm Fixture.june in
  let w := Bringup.world in
  let w1 := performFullSync env w in
  let w2 := performFullSync env w1 in
  textWorld w
  ∧ asciiText (now env) = true
  ∧ isSyncing w = false
  ∧ quietRun env
  ∧ now env ≠ ""
  ∧ (∀ c, size (Firestore.collection (mainDb w) c) ≤ 450)
  ∧ Stats.totalSynced (syncStats w1) = 5
  ∧ Stats.totalSynced (syncStats w2) = Stats.totalSynced (syncStats w1)
  ∧ backupDb w2 = backupDb w1.
Proof.
  intros env w w1 w2.
  assert (now env ≠ "") as Hnow by discriminate.
  assert (∀ c, size (Firestore.collection (mainDb w) c) ≤ 450) as Hsize.
  { apply small_collections.
    apply (bool_decide_unpack (map_Forall (λ _ (docs : gmap string obj), size docs ≤ 450)
                                 (mainDb w))).
    vm_compute. exact I. }
  assert (textWorld w) as Htext.
  { apply (bool_decide_unpack _). vm_compute. exact I. }
  split; [exact Htext|]. split; [reflexivity|].
  split; [reflexivity|]. split; [apply calm_quietRun|]. split; [exact Hnow|].
  split; [exact Hsize|]. split; [vm_compute; reflexivity|].
  pose proof (second_forward_pass_writes_nothing env env w Htext eq_refl eq_refl
                (calm_quietRun _) (calm_quietRun _) Hnow Hsize) as (_ & R2 & R3 & _).
  split; [exact R2|exact R3].
Defined.

(** ** C3: The health gate *)

(** C3 as stated fails: with only the primary authentication directory
    offline the run ends [paused] and nothing reaches the standby. *)
Lemma forward_run_paused_when_primary_auth_is_down :
  let w' := performFullSync Bringup.mainAuthDown Bringup.world in
  (probeMainDb Bringup.mainAuthDown, probeBackupDb Bringup.mainAuthDown,
   probeMainAuth Bringup.mainAuthDown, probeBackupAuth Bringup.mainAuthDown)
  = (true, true, false, true)
  ∧ Stats.status (syncStats w') = paused
  ∧ Stats.totalSynced (syncStats w') = 0
  ∧ backupDb w' = ∅
  ∧ commitLog w' = [].
Proof. vm_compute. done. Qed.

(** C3, amended.  When the health probes report the primary database
    online, the standby database online, the primary authentication
    directory offline and the standby one online, a forward run is paused
    as a whole: it ends with status [paused], no collection is discovered,
    scanned or written, no watermark moves, the authentication pass does
    not run, and the stats file is not written. *)
Theorem primary_auth_down_pauses_whole_run (env : Env) (w : World) :
  isSyncing w = false →
  probeMainDb env = true → probeBackupDb env = true →
  probeMainAuth env = false → probeBackupAuth env = true →
  let w' := performFullSync env w in
  Stats.status (syncStats w') = paused
  ∧ Stats.totalSynced (syncStats w') = Stats.totalSynced (syncStats w)
  ∧ mainDb w' = mainDb w
  ∧ backupDb w' = backupDb w
  ∧ commitLog w' = commitLog w
  ∧ syncMetadata w' = syncMetadata w
  ∧ collections w' = collections w
  ∧ authSyncStats w' = authSyncStats w
  ∧ Stats.authSync (syncStats w') = Stats.authSync (syncStats w)
  ∧ statsFile w' = statsFile w
  ∧ isSyncing w' = false.
Proof.
  intros Hidle HmainDb HbackupDb HmainAuth HbackupAuth w'. subst w'.
  unfold performFullSync. rewrite Hidle.
  unfold continueFullSync, checkDatabaseHealth.
  cbn [isMainDbOnline isMainAuthOnline with_isBackupAuthOnline with_isMainAuthOnline
       with_isBackupDbOnline with_isMainDbOnline emit with_emitted].
  rewrite HmainDb, HmainAuth. cbn [negb orb].
  repeat split.
Qed.

Lemma primary_auth_down_pauses_whole_run_witness :
  isSyncing Bringup.world = false
  ∧ probeMainDb Bringup.mainAuthDown = true
  ∧ probeBackupDb Bringup.mainAuthDown = true
  ∧ probeMainAuth Bringup.mainAuthDown = false
  ∧ probeBackupAuth Bringup.mainAuthDown = true
  ∧ Stats.status (syncStats (performFullSync Bringup.mainAuthDown Bringup.world)) = paused
  ∧ backupDb (performFullSync Bringup.mainAuthDown Bringup.world) = backupDb Bringup.world.
Proof.
  do 5 (split; [reflexivity|]).
  pose proof (primary_auth_down_pauses_whole_run Bringup.mainAuthDown Bringup.world
                eq_refl eq_refl eq_refl eq_refl eq_refl) as (R1 & _ & _ & R4 & _).
  split; [exact R1|exact R4].
Defined.

(** ** C4: The stats file *)

(** C4 as stated fails twice: a run paused at the gate writes no stats
    file, and a service restarted on the file of a completed run has its
    counters back but no watermark. *)
Lemma stats_file_misses_paused_runs_and_watermarks :
  let paused_run := performFullSync Bringup.mainDbDown Bringup.world in
  let completed_run := performFullSync (Fixture.calm Fixture.june) Bringup.world in
  let restarted :=
    construct (mainDb completed_run) (backupDb completed_run) (statsFile completed_run) in
  (Stats.status (syncStats paused_run) = paused ∧ statsFile paused_run = None)
  ∧ (Stats.status (syncStats completed_run) = completed
     ∧ syncMetadata completed_run !! "appointments" = Some (Some "2024-01-01T00:00:03Z")
     ∧ Stats.totalSynced (syncStats restarted) = 5
     ∧ syncMetadata restarted = ∅).
Proof. vm_compute. done. Qed.

(** C4, amended.  A forward run that passes the health gate, and a
    recovery that finds the primary online, end with the stats file
    holding the run counters ([syncStats]) as they stand at the end of the
    run; a run stopped at the gate ([paused] or [error]) leaves the file
    as it was.  The file holds counters only: the per-collection
    watermarks are not written.  On startup the counters are restored from
    the file if it exists and start from zero otherwise; the watermarks
    start empty either way. *)
Theorem stats_file_holds_counters_of_ungated_runs
    (env : Env) (w : World) (main backup : gmap string (gmap string obj)) (saved : Stats.t) :
  (isSyncing w = false →
   let w' := performFullSync env w in
   if probeMainDb env && probeMainAuth env && probeBackupDb env && probeBackupAuth env
   then statsFile w' = Some (statsView w')
   else statsFile w' = statsFile w)
  ∧ (isSyncing w = false →
     let w' := performRecovery env w in
     if isMainDbOnline w && isMainAuthOnline w
     then statsFile w' = Some (statsView w')
     else statsFile w' = statsFile w)
  ∧ syncStats (construct main backup (Some saved)) = saved
  ∧ syncStats (construct main backup None) = Stats.zero
  ∧ ∀ file, syncMetadata (construct main backup file) = ∅.
Proof.
  split; [|split; [|split; [done|split; [done|by intros []]]]].
  - intros Hidle w'. subst w'. unfold performFullSync. rewrite Hidle.
    unfold continueFullSync, checkDatabaseHealth.
    cbn [isMainDbOnline isMainAuthOnline isBackupDbOnline isBackupAuthOnline
         with_isBackupAuthOnline with_isMainAuthOnline
         with_isBackupDbOnline with_isMainDbOnline emit with_emitted].
    destruct (probeMainDb env), (probeMainAuth env), (probeBackupDb env),
      (probeBackupAuth env); cbn [negb orb andb]; done.
  - intros Hidle w'. subst w'. unfold performRecovery. rewrite Hidle.
    unfold continueRecovery, beginRecovery.
    cbn [isMainDbOnline isMainAuthOnline emitStats emit with_emitted withStatus
         with_syncStats with_isSyncing].
    destruct (isMainDbOnline w), (isMainAuthOnline w); cbn [negb orb andb]; try done.
    by destruct (foldl _ _ _).
Qed.

Lemma stats_file_holds_counters_of_ungated_runs_witness :
  let env := Fixture.calm Fixture.june in
  let w := Bringup.world in
  let w1 := performFullSync env w in
  let w2 := performRecovery env w1 in
  isSyncing w = false
  ∧ statsFile w1 = Some (statsView w1)
  ∧ isSyncing w1 = false
  ∧ statsFile w2 = Some (statsView w2).
Proof.
  intros env w w1 w2.
  assert (isSyncing w1 = false) as Hidle by (vm_compute; reflexivity).
  assert (isMainDbOnline w1 && isMainAuthOnline w1 = true) as Hup by (vm_compute; reflexivity).
  split; [reflexivity|]. split.
  { exact (proj1 (stats_file_holds_counters_of_ungated_runs env w ∅ ∅ Stats.zero) eq_refl). }
  split; [exact Hidle|].
  pose proof (proj1 (proj2 (stats_file_holds_counters_of_ungated_runs env w1 ∅ ∅ Stats.zero))
                Hidle) as Hrec.
  cbv zeta in Hrec. rewrite Hup in Hrec. exact Hrec.
Defined.

(** ** C5: The batch limit *)

(** C5 (not met by the code beyond the first batch).  With exactly 450
    documents to write, a forward collection sync commits once and reports
    450 synced documents.  With 451 it also commits once, not twice: the
    batch object that was committed at the 450th write refuses the 451st
    [set], which is counted as an error; no residual commit follows, 450
    documents reach the standby and 450 is reported. *)
Theorem sync_of_451_documents_commits_once :
  let env := Fixture.calm Fixture.june in
  let at450 := syncCollectionToBackup env "appointments" false (Crowd.world 450) in
  let at451 := syncCollectionToBackup env "appointments" false (Crowd.world 451) in
  (at450.1 = Ok 450
   ∧ length (commitLog at450.2) = 1
   ∧ size (Firestore.collection (backupDb at450.2) "appointments") = 450
   ∧ Stats.errors (syncStats at450.2) = 0)
  ∧ (size (Firestore.collection (mainDb (Crowd.world 451)) "appointments") = 451
     ∧ at451.1 = Ok 450
     ∧ length (commitLog at451.2) = 1
     ∧ size (Firestore.collection (backupDb at451.2) "appointments") = 450
     ∧ Stats.errors (syncStats at451.2) = 1).
Proof. vm_compute. done. Qed.

(** ** C6: Documents without a timestamp *)

(** C6 as stated fails on the watermark: [u1] has no timestamp, the only
    real one is the [createdAt] of [u2], and the watermark after the pass
    is the time of the scan. *)
Lemma undated_document_moves_watermark_to_scan_time :
  let env := Fixture.calm Fixture.june in
  let w' := (syncCollectionToBackup env "users" false Undated.world).2 in
  Firestore.collection (mainDb Undated.world) "users"
  = {[ "u1" := [("name", JStr "Ann")];
       "u2" := [("createdAt", JStr "2023-01-01T00:00:00Z")] ]}
  ∧ syncMetadata w' !! "users" = Some (Some Fixture.june)
  ∧ Fixture.june ≠ "2023-01-01T00:00:00Z".
Proof. vm_compute. repeat split; done. Qed.

(** C6, amended.  In a forward sync over documents whose timestamp
    fields hold text ([textSync]) and with a clock that returns ASCII
    text: a scanned source document with neither [updatedAt] nor
    [createdAt] is never taken for a duplicate, it is scheduled for writing
    whether the pre-check answers or not.  When no database call rejects
    and at most 450 writes are scheduled, it is on the standby after the
    sync, the forward watermark of the collection is the running maximum
    over the scheduled documents of [updatedAt], else [createdAt], else
    the time of the scan, and that watermark is at least the time of the
    scan: the document does advance it.

    The hypotheses [textSync] and [asciiText] are not used by the proof.
    They confine the statement to the documents on which the embedding
    reads a timestamp as the program does. *)
Theorem undated_document_written_and_advances_watermark
    (env : Env) (c : string) (incrementalOnly : bool) (w : World) (d : string * obj) :
  let lastSyncTime := sinceOf Backup c incrementalOnly w in
  let documents := map (wrap env) (scanOf (mainDb w) c lastSyncTime) in
  let toSync := (checkForDuplicates env Backup c documents w).1 in
  let w' := (syncCollectionToBackup env c incrementalOnly w).2 in
  textSync Backup c incrementalOnly w →
  asciiText (now env) = true →
  d ∈ scanOf (mainDb w) c lastSyncTime →
  field "updatedAt" d.2 = None →
  field "createdAt" d.2 = None →
  wrap env d ∈ toSync
  ∧ (quiet env Backup c → now env ≠ "" → length toSync ≤ 450 →
     is_Some (Firestore.collection (backupDb w') c !! d.1)
     ∧ syncMetadata w' !! c = Some (latestOf lastSyncTime toSync)
     ∧ ∃ t, metaGet (syncMetadata w') c = Some t ∧ ge t (now env) = true).
Proof.
  intros lastSyncTime documents toSync w' _ _ Hin Hu Hc.
  assert (NoDup (Doc.id <$> documents)) as Hnd.
  { unfold documents. rewrite wrap_ids. apply scanOf_NoDup. }
  assert (wrap env d ∈ documents) as Hdoc by by apply list_elem_of_fmap_2.
  assert (timestampOf (Doc.data (wrap env d)) = None) as Hts
    by (apply timestampOf_absent; [exact Hu|exact Hc]).
  assert (wrap env d ∈ toSync) as Hsched.
  { apply checkForDuplicates_keeps; [done..|]. by apply isDuplicate_undated. }
  split; [done|]. intros (Hscan & Hget & Hcommit & Hverify) Hnow Hlen.
  subst toSync w'. rewrite checkForDuplicates_ok in Hsched, Hlen |- * by done.
  rewrite filter_dupIds_NoDup in Hsched, Hlen |- * by done. cbn [fst] in *.
  change syncCollectionToBackup with (syncTo Backup). rewrite syncTo_shape.
  rewrite syncShape_calm by done.
  change (db (other Backup) w) with (mainDb w). fold lastSyncTime. fold documents.
  set (toSync := filter _ documents) in *.
  rewrite bool_decide_eq_false_2 by by eapply elem_of_length.
  rewrite bool_decide_eq_false_2 by by eapply elem_of_length.
  cbn [snd].
  change (backupDb ?x) with (db Backup x).
  rewrite syncedWorld_db, syncedWorld_meta, collection_insert_eq.
  split; [|split].
  - apply applyOps_written. right. apply list_elem_of_fmap. exists (opOf (wrap env d)).
    split; [done|]. by apply list_elem_of_fmap_2.
  - by rewrite lookup_insert_eq.
  - unfold metaGet. rewrite lookup_insert_eq. cbn [default].
    destruct (latestOf_atLeast_doc lastSyncTime toSync (wrap env d) Hsched)
      as (t & u & Ht & Hu' & Htne & Hge).
    { cbn [wrap Doc.updatedAt]. change (or (strField "updatedAt" d.2) (strField "createdAt" d.2))
        with (timestampOf (Doc.data (wrap env d))). rewrite Hts. cbn.
      by apply negb_true_iff, String.eqb_neq. }
    exists t. split; [done|].
    cbn [wrap Doc.updatedAt] in Hu'.
    change (or (strField "updatedAt" d.2) (strField "createdAt" d.2))
      with (timestampOf (Doc.data (wrap env d))) in Hu'. rewrite Hts in Hu'.
    cbn in Hu'. by injection Hu' as <-.
Qed.

Lemma undated_document_written_and_advances_watermark_witness :
  let env := Fixture.calm Fixture.june in
  let w := Undated.world in
  let d : string * obj := ("u1", [("name", JStr "Ann")]) in
  let w' := (syncCollectionToBackup env "users" false w).2 in
  textSync Backup "users" false w
  ∧ asciiText (now env) = true
  ∧ d ∈ scanOf (mainDb w) "users" (sinceOf Backup "users" false w)
  ∧ field "updatedAt" d.2 = None
  ∧ field "createdAt" d.2 = None
  ∧ quiet env Backup "users"
  ∧ now env ≠ ""
  ∧ is_Some (Firestore.collection (backupDb w') "users" !! "u1")
  ∧ ∃ t, metaGet (syncMetadata w') "users" = Some t ∧ ge t (now env) = true.
Proof.
  intros env w d w'.
  assert (textSync Backup "users" false w) as H0.
  { apply textWorld_textSync, (bool_decide_unpack _). vm_compute. exact I. }
  assert (d ∈ scanOf (mainDb w) "users" (sinceOf Backup "users" false w)) as H1.
  { unfold d. cbn [sinceOf scanOf]. apply elem_of_map_to_list. vm_compute. reflexivity. }
  assert (quiet env Backup "users") as H4 by (repeat split; done).
  assert (now env ≠ "") as H5 by discriminate.
  assert (length (checkForDuplicates env Backup "users"
            (map (wrap env) (scanOf (mainDb w) "users" (sinceOf Backup "users" false w))) w).1
          ≤ 450) as H6.
  { apply Nat.leb_le. vm_compute. reflexivity. }
  do 7 (split; [done|]).
  pose proof (proj2 (undated_document_written_and_advances_watermark
                       env "users" false w d H0 eq_refl H1 eq_refl eq_refl) H4 H5 H6)
    as (R1 & _ & R3).
  split; [exact R1|exact R3].
Defined.

(** ** C7: One run at a time *)

(** C7 as stated fails for the third call that starts a forward sync:
    [forceFullSync], the handler of [POST /api/sync/full].  A second pass
    has begun and is suspended at its first [await], the watermark of
    [appointments] is set and a duplicate has been counted; the call is
    refused, yet it has cleared the watermarks and the counter. *)
Lemma forced_sync_while_busy_clears_watermarks :
  let env := Fixture.calm Fixture.june in
  let w0 := performFullSync env Overtaken.world in
  let s := ((enter fullSync env w0).1,
            [] ++ suspended (begun fullSync w0) (enter fullSync env w0).2) in
  let w' := (enter forcedSync env s.1).1 in
  step (w0, []) s
  ∧ running s.2 = [forward]
  ∧ isSyncing s.1 = true
  ∧ metaGet (syncMetadata s.1) "appointments" = Some "2024-01-01T00:00:01Z"
  ∧ Stats.duplicatesSkipped (syncStats s.1) = 1
  ∧ begun forcedSync s.1 = None
  ∧ metaGet (syncMetadata w') "appointments" = None
  ∧ Stats.duplicatesSkipped (syncStats w') = 0.
Proof.
  intros env w0 s w'. split; [apply step_call|].
  vm_compute. repeat split; reflexivity.
Qed.

(** C7, amended.  From a state in which no run is under way, however the
    calls of the server, the resumptions of suspended calls at their
    [await]s and the writes of other programs interleave: at most one
    forward sync or recovery is under way at any time, and the busy flag
    is up exactly while one is.  A call of [performFullSync] or
    [performRecovery] that arrives while a run is under way returns
    without an [await] and without an error, and starts no run: its only
    effect is the warning line that reports the run in progress;
    counters, watermarks, both databases, the stats file and the event
    trace are left as they were.  A call of [forceFullSync] that arrives
    then starts no run either and writes no document. *)
Theorem runs_are_mutually_exclusive (start : World) (s : World * list Task)
    (r : Run) (env : Env) :
  isSyncing start = false →
  rtc step (start, []) s →
  let w := s.1 in
  length (running s.2) ≤ 1
  ∧ (running s.2 ≠ [] ↔ isSyncing w = true)
  ∧ (running s.2 ≠ [] →
     enter (entryOf r) env w = (warn (busyLine r) w, Async.Ret ())
     ∧ begun (entryOf r) w = None
     ∧ call r env w = warn (busyLine r) w
     ∧ syncStats (call r env w) = syncStats w
     ∧ syncMetadata (call r env w) = syncMetadata w
     ∧ mainDb (call r env w) = mainDb w
     ∧ backupDb (call r env w) = backupDb w
     ∧ commitLog (call r env w) = commitLog w
     ∧ statsFile (call r env w) = statsFile w
     ∧ emitted (call r env w) = emitted w
     ∧ warnings (call r env w) = warnings w ++ [busyLine r]
     ∧ enter forcedSync env w = (forceFullSync env w, Async.Ret ())
     ∧ begun forcedSync w = None
     ∧ mainDb (forceFullSync env w) = mainDb w
     ∧ backupDb (forceFullSync env w) = backupDb w
     ∧ commitLog (forceFullSync env w) = commitLog w).
Proof.
  intros Hidle Hreach w.
  destruct (reachable_exclusive _ _ Hreach) as [_ Hexcl].
  { split; [constructor|]. by left. }
  assert (running s.2 ≠ [] ↔ isSyncing w = true) as Hiff.
  { destruct Hexcl as [[-> Hdown]|(r' & -> & Hup)]; [|done].
    subst w. rewrite Hdown. split; [done|discriminate]. }
  split; [|split; [done|]].
  { destruct Hexcl as [[-> _]|(r' & -> & _)]; cbn; lia. }
  intros Hbusy%Hiff.
  split; [by apply enter_refused|].
  split; [unfold begun; by rewrite Hbusy|].
  rewrite call_busy by done. do 9 (split; [done|]).
  split; [by apply forceFullSync_busy|].
  split; [unfold begun; by rewrite Hbusy|].
  unfold forceFullSync, performFullSync. cbn [isSyncing with_syncStats with_syncMetadata].
  by rewrite Hbusy.
Qed.

Lemma runs_are_mutually_exclusive_witness :
  let env := Fixture.calm Fixture.june in
  let start := Bringup.world in
  let s1 := ((enter fullSync env start).1,
             [] ++ suspended (begun fullSync start) (enter fullSync env start).2) in
  let s2 := ((enter recover env s1.1).1,
             s1.2 ++ suspended (begun recover s1.1) (enter recover env s1.1).2) in
  isSyncing start = false
  ∧ rtc step (start, []) s2
  ∧ running s2.2 = [forward]
  ∧ length (running s2.2) ≤ 1
  ∧ call recovery env s2.1 = warn (busyLine recovery) s2.1.
Proof.
  intros env start s1 s2.
  assert (rtc step (start, []) s2) as Hreach.
  { eapply rtc_l; [apply (step_call fullSync env)|].
    eapply rtc_l; [apply (step_call recover env)|]. apply rtc_refl. }
  assert (running s2.2 = [forward]) as Hrun by (vm_compute; reflexivity).
  split; [reflexivity|]. split; [exact Hreach|]. split; [exact Hrun|].
  destruct (runs_are_mutually_exclusive start s2 recovery env eq_refl Hreach)
    as (Hone & _ & Hbusy).
  split; [exact Hone|]. apply Hbusy. rewrite Hrun. discriminate.
Defined.
(** ** C8: The tracked schema *)

(** C8 as stated fails: [body] is recorded by the first analysis and gone
    from the stored schema after the second, without any event. *)
Lemma recorded_path_dropped_by_later_analysis :
  let w1 := analyzeCollectionSchema Notes.env "notes" Notes.world in
  let w2 := analyzeCollectionSchema Notes.env "notes" (with_mainDb Notes.trimmed w1) in
  collectionsSchema w1 !! "notes" = Some ["title"; "body"]
  ∧ collectionsSchema w2 !! "notes" = Some ["title"]
  ∧ emitted w2 = emitted w1.
Proof. vm_compute. done. Qed.

(** C8, amended.  A schema-analysis pass that reads its sample replaces the
    stored schema of the collection by the dotted key paths of the (at most
    five) sampled documents: a path recorded earlier is in the stored
    schema afterwards exactly when a sampled document still has it.  The
    schemas of the other collections are untouched.  Paths that
    disappeared raise no event: when every sampled path was already
    recorded, nothing is emitted.  A pass whose sample read rejects leaves
    everything as it was. *)
Theorem schema_replaced_by_sample (env : Env) (c : string) (w : World) :
  let w' := analyzeCollectionSchema env c w in
  let sample := take 5 (Firestore.getDocs (mainDb w) c) in
  (sampleFails env c = true → w' = w)
  ∧ (sampleFails env c = false →
     (∃ stored, collectionsSchema w' !! c = Some stored
        ∧ ∀ key, key ∈ stored ↔ ∃ d, d ∈ sample ∧ hasPath "" d.2 key)
     ∧ (∀ c', c' ≠ c → collectionsSchema w' !! c' = collectionsSchema w !! c')
     ∧ (∀ previous, collectionsSchema w !! c = Some previous →
          (∀ d key, d ∈ sample → hasPath "" d.2 key → key ∈ previous) →
          emitted w' = emitted w)).
Proof.
  intros w' sample. subst w'. unfold analyzeCollectionSchema. fold sample.
  split; intros ->; [done|].
  set (w1 := match collectionsSchema w !! c with Some _ => _ | None => _ end).
  assert (collectionsSchema w1 = collectionsSchema w) as Hschema.
  { subst w1. destruct (collectionsSchema w !! c); [|done]. by case_bool_decide. }
  cbn [collectionsSchema with_collectionsSchema emitted]. rewrite Hschema.
  split; [|split].
  - exists (sampleSchema sample). rewrite lookup_insert_eq. split; [done|].
    intros key. apply sampleSchema_spec.
  - intros c' Hne. by rewrite lookup_insert_ne.
  - intros previous Hprev Hall. subst w1. rewrite Hprev.
    rewrite bool_decide_eq_false_2; [done|].
    assert (filter (λ key, key ∉ previous) (sampleSchema sample) = []) as ->; [|cbn; lia].
    apply filter_none. intros key (d & Hd & Hp)%sampleSchema_spec Hnot.
    apply Hnot. by eapply Hall.
Qed.

Lemma schema_replaced_by_sample_witness :
  let w1 := analyzeCollectionSchema Notes.env "notes" Notes.world in
  let w := with_mainDb Notes.trimmed w1 in
  let w' := analyzeCollectionSchema Notes.env "notes" w in
  let down :=
    {| now := Fixture.june; probeMainDb := true; probeBackupDb := true;
       probeMainAuth := true; probeBackupAuth := true; listFails := false;
       sampleFails := λ _, true; scanFails := λ _ _, false;
       getAllFails := λ _ _ _, false; commitFails := λ _ _ _, false;
       verifyFails := λ _, false; authPlan := authOk 0 0 0 0 |} in
  (sampleFails down "notes" = true ∧ analyzeCollectionSchema down "notes" w = w)
  ∧ sampleFails Notes.env "notes" = false
  ∧ collectionsSchema w !! "notes" = Some ["title"; "body"]
  ∧ (∃ stored, collectionsSchema w' !! "notes" = Some stored ∧ "body" ∉ stored)
  ∧ emitted w' = emitted w.
Proof.
  intros w1 w w' down.
  pose proof (schema_replaced_by_sample down "notes" w) as [Hdown _].
  pose proof (schema_replaced_by_sample Notes.env "notes" w) as [_ Hup].
  destruct (Hup eq_refl) as ((stored & Hstored & Hpaths) & _ & Hquiet).
  assert (∀ (d : string * obj) key,
            d ∈ take 5 (Firestore.getDocs (mainDb w) "notes") → hasPath "" d.2 key →
            key ∈ ["title"; "body"]) as Hall.
  { intros d key Hd Hp.
    change (take 5 (Firestore.getDocs (mainDb w) "notes"))
      with [("n1", [("title", JStr "t")])] in Hd.
    apply list_elem_of_singleton in Hd as ->. cbn [snd] in Hp.
    apply hasPath_cons in Hp as [->|[(inner & [=] & _)|Hp]];
      [apply list_elem_of_here|by apply hasPath_nil in Hp]. }
  split; [split; [done|exact (Hdown eq_refl)]|].
  split; [done|]. split; [done|]. split.
  - exists stored. split; [exact Hstored|].
    intros (d & Hd & Hp)%Hpaths. apply (Hall d "body" Hd) in Hp as Hin.
    change (take 5 (Firestore.getDocs (mainDb w) "notes"))
      with [("n1", [("title", JStr "t")])] in Hd.
    apply list_elem_of_singleton in Hd as ->. cbn [snd] in Hp.
    apply hasPath_cons in Hp as [[=]|[(inner & [=] & _)|Hp]]. by apply hasPath_nil in Hp.
  - exact (Hquiet ["title"; "body"] eq_refl Hall).
Defined.

(** ** C9: The collection set *)

(** C9 as stated fails: [invoices] enters the collection set and is gone
    after a discovery pass that no longer lists it. *)
Lemma discovered_collection_dropped_when_unlisted :
  let env := Fixture.calm Fixture.june in
  let w1 := (discoverCollections env Invoices.world).1 in
  let w2 := (discoverCollections env (with_mainDb ∅ w1)).1 in
  collections w1
  = ["invoices"; "appointments"; "availability"; "chats"; "notifications";
     "specialities"; "users"]
  ∧ collections w2
    = ["appointments"; "availability"; "chats"; "notifications"; "specialities"; "users"].
Proof. vm_compute. done. Qed.

(** C9, amended.  A discovery pass whose listing succeeds sets the
    in-memory collection set to the primary's current listing (the
    collections that hold a document) together with the six built-in
    names: a name that entered earlier stays only if it is still listed or
    is built-in; the built-in names are never removed.  A pass whose
    listing rejects leaves the set as it was. *)
Theorem discovered_collections_follow_listing (env : Env) (w : World) :
  let w' := (discoverCollections env w).1 in
  (listFails env = true → w' = w)
  ∧ (listFails env = false →
     ∀ c, c ∈ collections w'
          ↔ Firestore.collection (mainDb w) c ≠ ∅ ∨ c ∈ knownCollections).
Proof.
  intros w'. subst w'. unfold discoverCollections.
  split; intros ->; [done|]. intros c. cbn [fst].
  unfold emitStats, emit. cbn [collections with_emitted with_syncStats].
  destruct (sameButSchema_fields _ _
    (analyze_all_frame env
       (collections (with_collections
          (foldl (λ acc c, setAdd c acc) (Firestore.listCollections (mainDb w))
             knownCollections) w))
       (with_collections
          (foldl (λ acc c, setAdd c acc) (Firestore.listCollections (mainDb w))
             knownCollections) w))) as (-> & _).
  cbn [collections with_collections].
  by rewrite elem_of_setAdd_all, elem_of_listCollections.
Qed.

Lemma discovered_collections_follow_listing_witness :
  let env := Fixture.calm Fixture.june in
  let w := with_mainDb ∅ (discoverCollections env Invoices.world).1 in
  let down :=
    {| now := Fixture.june; probeMainDb := true; probeBackupDb := true;
       probeMainAuth := true; probeBackupAuth := true; listFails := true;
       sampleFails := λ _, false; scanFails := λ _ _, false;
       getAllFails := λ _ _ _, false; commitFails := λ _ _ _, false;
       verifyFails := λ _, false; authPlan := authOk 0 0 0 0 |} in
  (listFails down = true ∧ (discoverCollections down w).1 = w)
  ∧ listFails env = false
  ∧ "invoices" ∈ collections w
  ∧ "invoices" ∉ collections (discoverCollections env w).1.
Proof.
  intros env w down.
  split; [split; [done|]|].
  { exact (proj1 (discovered_collections_follow_listing down w) eq_refl). }
  split; [done|]. split; [vm_compute; apply list_elem_of_here|].
  intros Hin.
  apply (proj2 (discovered_collections_follow_listing env w) eq_refl) in Hin
    as [Hne|Hknown].
  - by apply Hne.
  - vm_compute in Hknown. set_solver.
Defined.

(** ** C10: A failing duplicate pre-check *)

(** C10.  When a [getAll] of the duplicate pre-check rejects,
    [checkForDuplicates] returns the documents it was given, unfiltered,
    and counts no skipped duplicate: every scanned document goes on to be
    scheduled for writing, whatever the target holds.  With at most 450
    scanned documents and an accepted commit, the one batch the sync
    commits holds a write for each of them. *)
Theorem checkForDuplicates_precheck_error
    (env : Env) (side : Side) (c : string) (documents : list Doc.t) (w : World) (n : nat) :
  n * 100 < length documents →
  getAllFails env side c n = true →
  checkForDuplicates env side c documents w = (documents, w)
  ∧ ∀ incrementalOnly,
      scanned side env c incrementalOnly w = Ok documents →
      length documents ≤ 450 →
      commitFails env side c 0 = false →
      commitLog (syncTo side env c incrementalOnly w).2
      = commitLog w ++ [(side, c, opOf <$> documents)].
Proof.
  intros Hn Hfail. split; [by eapply checkForDuplicates_gives_up|].
  intros incrementalOnly Hscan Hlen Hcommit. rewrite syncTo_shape.
  by eapply syncShape_unfiltered.
Qed.

Lemma checkForDuplicates_precheck_error_witness :
  let env := Fixture.precheckDown Fixture.june in
  let w := Fixture.staleSource in
  0 * 100 < length [Fixture.a1]
  ∧ getAllFails env Backup "appointments" 0 = true
  ∧ isDuplicate (Firestore.collection (backupDb w) "appointments") Fixture.a1 = true
  ∧ scanned Backup env "appointments" false w = Ok [Fixture.a1]
  ∧ length [Fixture.a1] ≤ 450
  ∧ commitFails env Backup "appointments" 0 = false
  ∧ checkForDuplicates env Backup "appointments" [Fixture.a1] w = ([Fixture.a1], w)
  ∧ commitLog (syncCollectionToBackup env "appointments" false w).2
    = commitLog w ++ [(Backup, "appointments", opOf <$> [Fixture.a1])].
Proof.
  intros env w.
  assert (0 * 100 < length [Fixture.a1]) as H1 by (cbn; lia).
  assert (scanned Backup env "appointments" false w = Ok [Fixture.a1]) as H4
    by (vm_compute; reflexivity).
  assert (length [Fixture.a1] ≤ 450) as H5 by (cbn; lia).
  split; [exact H1|]. split; [reflexivity|]. split; [vm_compute; reflexivity|].
  split; [exact H4|]. split; [exact H5|]. split; [reflexivity|].
  pose proof (checkForDuplicates_precheck_error env Backup "appointments" [Fixture.a1] w 0
                H1 eq_refl) as [R1 R2].
  split; [exact R1|exact (R2 false H4 H5 eq_refl)].
Defined.

(** * Further properties *)

(** ** The write loop when a commit rejects *)

Section WriteLoopRejected.

Context (env : Env) (side : Side) (collectionName : string)
        (progress : string → nat → nat → Event).

Lemma writeLoop_full_rejected (total : nat) (lastSyncTime : option string) (w : World)
    (docs : list Doc.t) :
  length docs = 450 →
  commitFails env side collectionName 0 = true →
  foldl (writeStep env side collectionName progress total) (startLoop lastSyncTime, w) docs
  = ({| Loop.batch := {| Firestore.ops := opOf <$> docs; Firestore.committed := true |};
        Loop.batchCount := 450; Loop.totalSynced := 0;
        Loop.latestTimestamp := latestOf lastSyncTime docs; Loop.commitCalls := 1 |},
     countError w).
Proof.
  intros Hlen Hfail.
  destruct docs as [|doc docs _] using rev_ind; [done|].
  rewrite length_app in Hlen. simpl in Hlen.
  rewrite foldl_app, writeLoop_below by lia. cbn [foldl].
  unfold writeStep, Firestore.set. cbn [Loop.batch Firestore.committed Firestore.ops
    Loop.batchCount Loop.latestTimestamp Loop.totalSynced Loop.commitCalls].
  rewrite bool_decide_eq_true_2 by lia.
  unfold commit. cbn [Loop.batch Firestore.committed Firestore.ops
    Loop.batchCount Loop.latestTimestamp Loop.totalSynced Loop.commitCalls].
  rewrite Hfail.
  unfold latestOf. rewrite foldl_app, fmap_app. cbn [foldl length fmap list_fmap].
  assert (S (length docs) = 450) as -> by lia.
  reflexivity.
Qed.

Lemma writeAll_nil (lastSyncTime : option string) (w : World) :
  writeAll env side collectionName progress lastSyncTime [] w = (Ok (startLoop lastSyncTime), w).
Proof. reflexivity. Qed.

Lemma writeAll_below_rejected (lastSyncTime : option string) (w : World) (docs : list Doc.t) :
  0 < length docs < 450 →
  commitFails env side collectionName 0 = true →
  writeAll env side collectionName progress lastSyncTime docs w = (Throw, w).
Proof.
  intros Hlen Hfail. unfold writeAll.
  change {| Loop.batch := Firestore.batch; Loop.batchCount := 0; Loop.totalSynced := 0;
            Loop.latestTimestamp := lastSyncTime; Loop.commitCalls := 0 |}
    with (startLoop lastSyncTime).
  rewrite writeLoop_below by lia.
  cbn [Loop.batchCount]. rewrite bool_decide_eq_true_2 by lia.
  unfold commit. cbn [Loop.batch Firestore.ops Loop.commitCalls]. by rewrite Hfail.
Qed.

(** The batch fills up, its commit rejects, and the commit after the loop
    sends the same 450 writes again. *)
Lemma writeAll_retry (lastSyncTime : option string) (w : World) (docs : list Doc.t) :
  450 ≤ length docs →
  commitFails env side collectionName 0 = true →
  writeAll env side collectionName progress lastSyncTime docs w
  = if commitFails env side collectionName 1
    then (Throw, Nat.iter (S (length docs - 450)) countError w)
    else (Ok {| Loop.batch :=
                  {| Firestore.ops := opOf <$> take 450 docs; Firestore.committed := true |};
                Loop.batchCount := 450; Loop.totalSynced := 450;
                Loop.latestTimestamp := latestOf lastSyncTime (take 450 docs);
                Loop.commitCalls := 2 |},
          committedWorld side collectionName (opOf <$> take 450 docs)
            (Nat.iter (S (length docs - 450)) countError w)).
Proof.
  intros Hlen Hfail. unfold writeAll.
  change {| Loop.batch := Firestore.batch; Loop.batchCount := 0; Loop.totalSynced := 0;
            Loop.latestTimestamp := lastSyncTime; Loop.commitCalls := 0 |}
    with (startLoop lastSyncTime).
  rewrite <- (take_drop 450 docs) at 2.
  rewrite foldl_app, writeLoop_full_rejected; [|rewrite length_take; lia|done].
  rewrite writeLoop_after by done.
  cbn [Loop.batchCount]. rewrite bool_decide_eq_true_2 by lia.
  rewrite length_drop, <- Nat.iter_succ_r.
  unfold commit. cbn [Loop.batch Firestore.ops Loop.commitCalls].
  by destruct (commitFails env side collectionName 1).
Qed.

End WriteLoopRejected.

Lemma syncStats_iter_countError_steady (n : nat) (w : World) :
  steadyStats (syncStats (Nat.iter n countError w)) = steadyStats (syncStats w).
Proof. induction n as [|n IH]; [done|]. rewrite Nat.iter_succ. exact IH. Qed.

Lemma syncStats_committedWorld side c ops w :
  syncStats (committedWorld side c ops w) = syncStats w.
Proof. by destruct side. Qed.

Lemma commitLog_committedWorld side c ops w :
  commitLog (committedWorld side c ops w) = commitLog w ++ [(side, c, ops)].
Proof. by destruct side. Qed.

Lemma db_committedWorld side c ops w :
  db side (committedWorld side c ops w)
  = <[c := Firestore.applyOps ops (Firestore.collection (db side w) c)]> (db side w).
Proof. by destruct side. Qed.

Lemma syncStats_emit e w : syncStats (emit e w) = syncStats w.
Proof. done. Qed.

Lemma commitLog_emit e w : commitLog (emit e w) = commitLog w.
Proof. done. Qed.

Lemma db_emit side e w : db side (emit e w) = db side w.
Proof. by destruct side. Qed.

(** What [writeAll] has done when it returns, whatever rejects. *)
Lemma writeAll_outcome env side c progress lastSyncTime docs w :
  let r := writeAll env side c progress lastSyncTime docs w in
  let first := take 450 docs in
  Stats.errors (syncStats w) ≤ Stats.errors (syncStats r.2)
  ∧ ((commitLog r.2 = commitLog w ∧ db side r.2 = db side w
      ∧ (r.1 = Throw ∨ (docs = [] ∧ r.1 = Ok (startLoop lastSyncTime))))
     ∨ (docs ≠ []
        ∧ (∃ l, r.1 = Ok l ∧ Loop.totalSynced l = length first
                ∧ Loop.latestTimestamp l = latestOf lastSyncTime first)
        ∧ commitLog r.2 = commitLog w ++ [(side, c, opOf <$> first)]
        ∧ db side r.2
          = <[c := Firestore.applyOps (opOf <$> first) (Firestore.collection (db side w) c)]>
              (db side w))).
Proof.
  intros r first. subst r first.
  destruct (decide (length docs = 0)) as [H0|H0].
  { apply length_zero_iff_nil in H0 as ->. rewrite writeAll_nil. cbn.
    split; [lia|]. left. auto. }
  assert (docs ≠ []) as Hne by (intros ->; done).
  destruct (commitFails env side c 0) eqn:Hfirst.
  - destruct (decide (length docs < 450)) as [Hlt|Hge].
    + rewrite writeAll_below_rejected by (done || lia). cbn. split; [lia|]. left. auto.
    + rewrite writeAll_retry by (done || lia).
      destruct (commitFails env side c 1); cbn [fst snd].
      * rewrite errors_iter_countError, commitLog_iter_countError, db_iter_countError.
        split; [lia|]. left. auto.
      * rewrite syncStats_committedWorld, commitLog_committedWorld, db_committedWorld,
          errors_iter_countError, commitLog_iter_countError, db_iter_countError.
        split; [lia|]. right. split; [done|]. split; [|done].
        eexists. split; [done|]. cbn. rewrite length_take. split; [lia|done].
  - destruct (decide (length docs < 450)) as [Hlt|Hge].
    + rewrite writeAll_below by (done || lia). cbn [fst snd].
      rewrite take_ge by lia.
      rewrite syncStats_committedWorld, commitLog_committedWorld, db_committedWorld.
      split; [lia|]. right. split; [done|]. split; [|done].
      eexists. split; [done|]. by cbn.
    + destruct (decide (length docs = 450)) as [Heq|Hgt].
      * rewrite writeAll_full by done. cbn [fst snd].
        rewrite take_ge by lia.
        rewrite syncStats_emit, commitLog_emit, db_emit,
          syncStats_committedWorld, commitLog_committedWorld, db_committedWorld.
        split; [lia|]. right. split; [done|]. split; [|done].
        eexists. split; [done|]. cbn. split; [lia|done].
      * rewrite writeAll_above by (done || lia). cbn [fst snd].
        rewrite errors_iter_countError, commitLog_iter_countError, db_iter_countError.
        rewrite syncStats_emit, commitLog_emit, db_emit,
          syncStats_committedWorld, commitLog_committedWorld, db_committedWorld.
        split; [lia|]. right. split; [done|]. split; [|done].
        eexists. split; [done|]. cbn. rewrite length_take. split; [lia|done].
Qed.

(** ** The duplicate check, whatever rejects *)

Lemma countSkipped_zero (w : World) : countSkipped 0 w = w.
Proof.
  destruct w as [s ? ? ? ? ? ? ? ? ? ? ? ? ? ? ? ?]. destruct s.
  unfold countSkipped, with_syncStats, Stats.with_duplicatesSkipped. cbn.
  by rewrite Nat.add_0_r.
Qed.

Lemma checkForDuplicates_any env side c documents w :
  let r := checkForDuplicates env side c documents w in
  let target := Firestore.collection (db side w) c in
  r.2 = countSkipped (length documents - length r.1) w
  ∧ (r.1 = documents
     ∨ r.1 = filter (λ doc, Doc.id doc ∉ dupIds target documents) documents).
Proof.
  cbn zeta. unfold checkForDuplicates.
  destruct (existingLoop _ _ _ _ _ _ _) as [existingDocs|] eqn:Hloop; cbn [fst snd].
  - apply existingLoop_Some in Hloop as ->.
    rewrite slices_concat, (right_id_L ∅ (∪)) by lia. auto.
  - rewrite Nat.sub_diag, countSkipped_zero. auto.
Qed.

(** ** A collection sync, whatever rejects *)

(** The ways a collection sync ends. *)
Lemma syncShape_any env target c incrementalOnly w :
  let lastSyncTime := sinceOf target c incrementalOnly w in
  let r := syncShape env target c incrementalOnly w in
  (r.2 = w ∧ (r.1 = Throw ∨ r.1 = Ok 0))
  ∨ ∃ documents,
      scanned target env c incrementalOnly w = Ok documents
      ∧ let checked := checkForDuplicates env target c documents w in
        (r = (Ok 0, checked.2) ∧ checked.1 = [])
        ∨ (checked.1 ≠ []
           ∧ let written :=
               writeAll env target c (progressOf target) lastSyncTime checked.1 checked.2 in
             (r = (Throw, written.2) ∧ written.1 = Throw)
             ∨ ∃ l, written.1 = Ok l
                 ∧ r.2 = with_syncMetadata
                           (<[watermarkKey target c := Loop.latestTimestamp l]>
                              (syncMetadata written.2)) written.2
                 ∧ (r.1 = Throw ∨ r.1 = Ok (Loop.totalSynced l))).
Proof.
  cbn zeta. unfold syncShape.
  destruct (scanned target env c incrementalOnly w) as [documents|] eqn:Hscan;
    [|left; auto].
  case_bool_decide as Hempty; [left; auto|].
  right. exists documents. split; [done|].
  destruct (checkForDuplicates env target c documents w) as [toSync w1] eqn:Hcheck.
  cbn [fst snd].
  case_bool_decide as Hnone.
  { left. by apply length_zero_iff_nil in Hnone. }
  right. split; [by intros ->|].
  destruct (writeAll env target c (progressOf target) _ toSync w1) as [[l|] w2] eqn:Hwrite;
    cbn [fst snd]; [|left; auto].
  right. exists l. split; [done|].
  destruct (match target with Backup => verifyFails env c | Main => false end);
    cbn [fst snd]; auto.
Qed.

Lemma SyncEffect_refl target c w : SyncEffect target c w w.
Proof. split; try done; try lia. exists nil. split; [by rewrite app_nil_r|constructor]. Qed.

Lemma SyncEffect_countSkipped target c k w : SyncEffect target c w (countSkipped k w).
Proof.
  split; try done; try (cbn; lia); try (by destruct target).
  exists nil. split; [by rewrite app_nil_r|constructor].
Qed.

Lemma SyncEffect_written target c ids w w1 w2 :
  SyncEffect target c w w1 →
  WriteFrame target c ids w1 w2 →
  Stats.errors (syncStats w1) ≤ Stats.errors (syncStats w2) →
  SyncEffect target c w w2.
Proof.
  intros [Hcore1 Hstats1 Herrors1 Hskipped1 Hsource1 Hcolls1 Hmeta1 Hlogged1]
         [Hcore2 Hstats2 Hskipped2 Hmeta2 Hsource2 Hcolls2 _ Hlogged2] Herr.
  split.
  - congruence.
  - congruence.
  - lia.
  - lia.
  - congruence.
  - intros c' Hc'. rewrite Hcolls2 by done. auto.
  - intros k Hk. rewrite Hmeta2. auto.
  - destruct Hlogged1 as (more1 & Hlog1 & Hall1), Hlogged2 as (more2 & Hlog2 & Hall2).
    exists (more1 ++ more2). rewrite Hlog2, Hlog1, (assoc_L (++)). split; [done|].
    apply Forall_app. split; [done|].
    eapply Forall_impl; [exact Hall2|]. by intros e [He _].
Qed.

Lemma SyncEffect_watermark target c t w w' :
  SyncEffect target c w w' →
  SyncEffect target c w
    (with_syncMetadata (<[watermarkKey target c := t]> (syncMetadata w')) w').
Proof.
  intros [Hcore Hstats Herrors Hskipped Hsource Hcolls Hmeta Hlogged]. split; try done.
  intros k Hk. cbn. rewrite lookup_insert_ne by done. auto.
Qed.

Lemma syncShape_effect env target c incrementalOnly w :
  SyncEffect target c w (syncShape env target c incrementalOnly w).2.
Proof.
  destruct (syncShape_any env target c incrementalOnly w)
    as [[-> _]|(documents & _ & Hrest)]; [apply SyncEffect_refl|].
  cbn zeta in Hrest.
  destruct (checkForDuplicates_any env target c documents w) as [Hw1 _].
  cbn zeta in Hw1.
  set (checked := checkForDuplicates env target c documents w) in *.
  assert (SyncEffect target c w checked.2) as Hchecked.
  { rewrite Hw1. apply SyncEffect_countSkipped. }
  destruct Hrest as [[-> _]|[_ Hrest]]; [done|].
  set (lastSyncTime := sinceOf target c incrementalOnly w) in *.
  pose proof (writeAll_frame env target c (progressOf target) lastSyncTime checked.1 checked.2)
    as Hframe.
  destruct (writeAll_outcome env target c (progressOf target) lastSyncTime checked.1 checked.2)
    as [Herr _]. cbn zeta in Herr.
  set (written := writeAll env target c (progressOf target) lastSyncTime checked.1 checked.2) in *.
  assert (SyncEffect target c w written.2) as Hwritten by eauto using SyncEffect_written.
  destruct Hrest as [[-> _]|(l & _ & -> & _)]; [done|].
  by apply SyncEffect_watermark.
Qed.

Lemma RunEffect_refl target w : RunEffect target w w.
Proof. split; try done; try lia. exists nil. split; [by rewrite app_nil_r|constructor]. Qed.

Lemma RunEffect_trans target w1 w2 w3 :
  RunEffect target w1 w2 → RunEffect target w2 w3 → RunEffect target w1 w3.
Proof.
  intros [Hsource1 Hlogged1 ? ? ? ? Hfull1 Hauth1] [Hsource2 Hlogged2 ? ? ? ? Hfull2 Hauth2].
  split; try lia.
  - congruence.
  - destruct Hlogged1 as (more1 & Hlog1 & Hall1), Hlogged2 as (more2 & Hlog2 & Hall2).
    exists (more1 ++ more2). rewrite Hlog2, Hlog1, (assoc_L (++)). split; [done|].
    by apply Forall_app.
  - intros Hset. rewrite Hfull2; [auto|]. by rewrite Hfull1.
  - auto.
Qed.

(** A step that leaves the documents and the log alone. *)
Lemma RunEffect_still target w w' :
  mainDb w' = mainDb w → backupDb w' = backupDb w → commitLog w' = commitLog w →
  Stats.totalSynced (syncStats w) ≤ Stats.totalSynced (syncStats w') →
  Stats.errors (syncStats w) ≤ Stats.errors (syncStats w') →
  Stats.duplicatesSkipped (syncStats w) ≤ Stats.duplicatesSkipped (syncStats w') →
  Stats.incrementalSyncs (syncStats w) ≤ Stats.incrementalSyncs (syncStats w') →
  Stats.lastFullSync (syncStats w') = Stats.lastFullSync (syncStats w) →
  (Stats.authSync (syncStats w) = AuthShared → Stats.authSync (syncStats w') = AuthShared) →
  RunEffect target w w'.
Proof.
  intros Hmain Hbackup Hlog ? ? ? ? ? ?. split; try done.
  - by destruct target.
  - exists nil. split; [by rewrite app_nil_r|constructor].
Qed.

Ltac still :=
  apply RunEffect_still;
  [reflexivity | reflexivity | reflexivity | cbn; lia | cbn; lia | cbn; lia | cbn; lia
  | reflexivity | intros Hshared; first [exact Hshared | reflexivity]].

Lemma SyncEffect_RunEffect target c w w' : SyncEffect target c w w' → RunEffect target w w'.
Proof.
  intros [Hcore Hstats Herrors Hskipped Hsource Hcolls Hmeta Hlogged].
  unfold steadyStats in Hstats.
  injection Hstats as Htotal _ _ _ Hincr Hfull Hauth.
  split; try done; try lia; try congruence.
  destruct Hlogged as (more & Hlog & Hall). exists more. split; [done|].
  eapply Forall_impl; [exact Hall|]. by intros e ->.
Qed.

Lemma syncOne_effect env isFirstSync total w c :
  RunEffect Backup w (syncOne env isFirstSync (total, w) c).2.
Proof.
  unfold syncOne.
  pose proof (SyncEffect_RunEffect _ _ _ _
                (syncShape_effect env Backup c (negb isFirstSync) w)) as Heff.
  rewrite <- (syncTo_shape Backup) in Heff. cbn [syncTo] in Heff.
  destruct (syncCollectionToBackup env c (negb isFirstSync) w) as [[n|] w1]; cbn [snd] in *.
  - eapply RunEffect_trans; [exact Heff|]. still.
  - eapply RunEffect_trans; [exact Heff|]. still.
Qed.

Lemma syncAll_effect env isFirstSync (cs : list string) :
  ∀ total w, RunEffect Backup w (foldl (syncOne env isFirstSync) (total, w) cs).2.
Proof.
  induction cs as [|c cs IH]; intros total w; [apply RunEffect_refl|].
  cbn [foldl].
  pose proof (syncOne_effect env isFirstSync total w c) as Hone.
  destruct (syncOne env isFirstSync (total, w) c) as [total1 w1].
  eapply RunEffect_trans; [exact Hone|apply IH].
Qed.

Lemma syncAll_lastFullSync env isFirstSync (cs : list string) :
  ∀ total w,
    Stats.lastFullSync (syncStats (foldl (syncOne env isFirstSync) (total, w) cs).2)
    = Stats.lastFullSync (syncStats w).
Proof.
  induction cs as [|c cs IH]; intros total w; [done|].
  cbn [foldl].
  assert (Stats.lastFullSync (syncStats (syncOne env isFirstSync (total, w) c).2)
          = Stats.lastFullSync (syncStats w)) as Hone.
  { unfold syncOne.
    destruct (syncShape_effect env Backup c (negb isFirstSync) w) as [_ Hstats _ _ _ _ _ _].
    rewrite <- (syncTo_shape Backup) in Hstats. cbn [syncTo] in Hstats.
    unfold steadyStats in Hstats. injection Hstats as _ _ _ _ _ Hfull _.
    by destruct (syncCollectionToBackup env c (negb isFirstSync) w) as [[n|] w1]. }
  destruct (syncOne env isFirstSync (total, w) c) as [total1 w1].
  rewrite IH. exact Hone.
Qed.

Lemma recoverOne_effect env total w c :
  RunEffect Main w (recoverOne env (total, w) c).2.
Proof.
  unfold recoverOne.
  pose proof (SyncEffect_RunEffect _ _ _ _ (syncShape_effect env Main c true w)) as Heff.
  rewrite <- (syncTo_shape Main) in Heff. cbn [syncTo] in Heff.
  destruct (syncCollectionToMain env c true w) as [[n|] w1]; cbn [snd] in *.
  - eapply RunEffect_trans; [exact Heff|]. still.
  - eapply RunEffect_trans; [exact Heff|]. still.
Qed.

Lemma recoverAll_effect env (cs : list string) :
  ∀ total w, RunEffect Main w (foldl (recoverOne env) (total, w) cs).2.
Proof.
  induction cs as [|c cs IH]; intros total w; [apply RunEffect_refl|].
  cbn [foldl].
  pose proof (recoverOne_effect env total w c) as Hone.
  destruct (recoverOne env (total, w) c) as [total1 w1].
  eapply RunEffect_trans; [exact Hone|apply IH].
Qed.

Lemma discoverCollections_effect target env w :
  RunEffect target w (discoverCollections env w).1.
Proof.
  unfold discoverCollections. destruct (listFails env); [apply RunEffect_refl|].
  set (w1 := with_collections _ w).
  cbn [fst]. unfold emitStats, emit.
  destruct (sameButSchema_fields _ _ (analyze_all_frame env (collections w1) w1))
    as (_ & Hmain & Hbackup & Hstats & _ & _ & _ & _ & Hlog & _).
  apply RunEffect_still;
    cbn [mainDb backupDb commitLog syncStats with_emitted with_syncStats
         Stats.totalSynced Stats.errors Stats.duplicatesSkipped Stats.incrementalSyncs
         Stats.lastFullSync Stats.authSync Stats.with_collections];
    rewrite ?Hmain, ?Hbackup, ?Hlog, ?Hstats; done.
Qed.

Lemma performFirestoreSync_effect env w :
  RunEffect Backup w (performFirestoreSync env w).2.
Proof.
  unfold performFirestoreSync.
  set (w1 := (discoverCollections env w).1).
  set (isFirstSync := negb _).
  pose proof (syncAll_effect env isFirstSync (collections w1) 0 w1) as Hloop.
  pose proof (syncAll_lastFullSync env isFirstSync (collections w1) 0 w1) as Hfull.
  destruct (foldl _ (0, w1) (collections w1)) as [total w2]. cbn [snd] in *.
  pose proof (discoverCollections_effect Backup env w) as Hfound. fold w1 in Hfound.
  eapply RunEffect_trans; [exact Hfound|].
  eapply RunEffect_trans; [exact Hloop|].
  split; try done; try (destruct isFirstSync; cbn; lia).
  - exists nil. split; [by rewrite app_nil_r|constructor].
  - intros Hset. subst isFirstSync.
    rewrite Hfull in Hset. by rewrite Hset.
  - by destruct isFirstSync.
Qed.

Lemma beginFullSync_effect target env w :
  RunEffect target w (checkDatabaseHealth env (beginFullSync env w)).
Proof. still. Qed.

Lemma paused_effect target w :
  RunEffect target w
    (finish (emitStats (withStatus paused (warn "Main database or auth is offline" w)))).
Proof. still. Qed.

Lemma standbyDown_effect target w :
  RunEffect target w (finish (emitStats (countError (withStatus error w)))).
Proof. still. Qed.

(** The forward run from the end of [performFirestoreSync] on. *)
Lemma authPass_effect target env w :
  RunEffect target w
    (finish
       (saveStats
          (let w4 :=
             match performFullAuthSync env w with
             | (Ok _, w') =>
                 with_lastAuthSync (Some (now env))
                   (with_syncStats (Stats.with_authSync AuthShared (syncStats w')) w')
             | (Throw, w') => countError w'
             end in
           with_syncStats
             (Stats.with_lastSync (Some (now env)) (Stats.with_status completed (syncStats w4)))
             w4))).
Proof. unfold performFullAuthSync. destruct (authPlan env); still. Qed.

Lemma performFullSync_effect env w : RunEffect Backup w (performFullSync env w).
Proof.
  unfold performFullSync. destruct (isSyncing w); [still|].
  unfold continueFullSync.
  apply (RunEffect_trans _ _ (checkDatabaseHealth env (beginFullSync env w)));
    [apply beginFullSync_effect|].
  generalize (checkDatabaseHealth env (beginFullSync env w)). intros w2.
  destruct (negb (isMainDbOnline w2) || negb (isMainAuthOnline w2)).
  { apply paused_effect. }
  destruct (negb (isBackupDbOnline w2) || negb (isBackupAuthOnline w2)).
  { apply standbyDown_effect. }
  apply (RunEffect_trans _ _ (performFirestoreSync env w2).2);
    [apply performFirestoreSync_effect|].
  apply authPass_effect.
Qed.

Lemma beginRecovery_effect target w : RunEffect target w (beginRecovery w).
Proof. still. Qed.

Lemma refused_effect target line w : RunEffect target w (finish (warn line w)).
Proof. still. Qed.

Lemma performRecovery_effect env w : RunEffect Main w (performRecovery env w).
Proof.
  unfold performRecovery. destruct (isSyncing w); [still|].
  unfold continueRecovery.
  apply (RunEffect_trans _ _ (beginRecovery w)); [apply beginRecovery_effect|].
  generalize (beginRecovery w). intros w1.
  destruct (negb (isMainDbOnline w1) || negb (isMainAuthOnline w1)).
  { apply refused_effect. }
  pose proof (recoverAll_effect env (collections w1) 0 w1) as Hloop.
  destruct (foldl _ (0, w1) (collections w1)) as [total w2]. cbn [snd] in *.
  eapply RunEffect_trans; [exact Hloop|].
  still.
Qed.

Lemma checked_stored env target c incrementalOnly w documents doc :
  scanned target env c incrementalOnly w = Ok documents →
  doc ∈ (checkForDuplicates env target c documents w).1 →
  Firestore.collection (db (other target) w) c !! Doc.id doc = Some (Doc.data doc).
Proof.
  intros Hscan Hin.
  assert (doc ∈ documents) as Hdoc.
  { destruct (checkForDuplicates_any env target c documents w) as [_ [Heq|Heq]];
      cbn zeta in Heq; rewrite Heq in Hin; [done|].
    by apply list_elem_of_filter in Hin as [_ ?]. }
  unfold scanned in Hscan. apply getIncrementalDocuments_Ok in Hscan as ->.
  apply list_elem_of_fmap in Hdoc as (e & -> & He).
  by apply scanOf_stored in He.
Qed.

Lemma syncShape_commits env target c incrementalOnly w :
  let r := syncShape env target c incrementalOnly w in
  ∃ more, commitLog r.2 = commitLog w ++ more
    ∧ length more ≤ 1
    ∧ Forall (batchOf target c w) more
    ∧ ∀ n, r.1 = Ok n → n = writesIn more.
Proof.
  cbn zeta.
  destruct (syncShape_any env target c incrementalOnly w)
    as [[-> Hres]|(documents & Hscan & Hrest)].
  { exists nil. rewrite app_nil_r. repeat split; [cbn; lia|constructor|].
    intros n Hn. destruct Hres as [Hres|Hres]; rewrite Hres in Hn; [done|].
    by injection Hn as <-. }
  cbn zeta in Hrest.
  destruct (checkForDuplicates_any env target c documents w) as [Hw1 _].
  cbn zeta in Hw1.
  pose proof (checked_stored env target c incrementalOnly w documents) as Hstored.
  specialize (Hstored) with (1 := Hscan).
  set (checked := checkForDuplicates env target c documents w) in *.
  assert (commitLog checked.2 = commitLog w) as Hlog1 by by rewrite Hw1.
  assert (db target checked.2 = db target w) as Hdb1 by (rewrite Hw1; by destruct target).
  destruct Hrest as [[-> _]|[Hne Hrest]].
  { exists nil. rewrite app_nil_r. repeat split; [done|cbn; lia|constructor|].
    by intros n [= <-]. }
  set (lastSyncTime := sinceOf target c incrementalOnly w) in *.
  destruct (writeAll_outcome env target c (progressOf target) lastSyncTime checked.1 checked.2)
    as [_ Hout]. cbn zeta in Hout.
  set (written := writeAll env target c (progressOf target) lastSyncTime checked.1 checked.2) in *.
  destruct Hout as [(Hlog2 & _ & Hres)|(_ & (l & Hl & Htotal & _) & Hlog2 & _)].
  - exists nil. rewrite app_nil_r.
    destruct Hres as [Hthrow|[? _]]; [|done].
    destruct Hrest as [[-> _]|(l & Hl & _)]; [|congruence].
    cbn [fst snd]. repeat split; [congruence|cbn; lia|constructor|done].
  - destruct Hrest as [[_ ?]|(l' & Hl' & Hr2 & Hr1)]; [congruence|].
    assert (l' = l) as -> by congruence.
    exists [(target, c, opOf <$> take 450 checked.1)].
    rewrite Hr2. cbn [commitLog with_syncMetadata]. rewrite Hlog2, Hlog1.
    split; [done|]. split; [done|]. split.
    + apply Forall_singleton. split; [done|]. cbn [snd].
      rewrite length_fmap, length_take. split.
      { assert (length checked.1 ≠ 0) by by intros ?%length_zero_iff_nil. lia. }
      intros op (doc & -> & Hdoc)%list_elem_of_fmap.
      apply Hstored. by apply (subseteq_take 450).
    + intros n Hn. destruct Hr1 as [Hr1|Hr1]; rewrite Hr1 in Hn; [done|].
      injection Hn as <-. unfold writesIn. cbn. rewrite length_fmap. lia.
Qed.

Lemma metaGet_insert (m : gmap string (option string)) (k : string) (t : option string) :
  metaGet (<[k := t]> m) k = t.
Proof. unfold metaGet. by rewrite lookup_insert_eq. Qed.

(** ** What a committed batch leaves in the target *)

Lemma setMerge_other (target : gmap string obj) (op : string * obj) (i : string) :
  i ≠ op.1 → Firestore.setMerge target op !! i = target !! i.
Proof.
  intros Hi. unfold Firestore.setMerge.
  destruct (target !! op.1); by rewrite lookup_insert_ne.
Qed.

Lemma applyOps_once (ops : list (string * obj)) :
  ∀ (target : gmap string obj) (op : string * obj),
    NoDup ops.*1 → op ∈ ops →
    Firestore.applyOps ops target !! op.1 = Firestore.setMerge target op !! op.1.
Proof.
  induction ops as [|first ops IH]; intros target op Hnd Hin; [by apply elem_of_nil in Hin|].
  cbn [fmap list_fmap] in Hnd. apply NoDup_cons in Hnd as [Hfirst Hnd].
  change (Firestore.applyOps (first :: ops) target)
    with (Firestore.applyOps ops (Firestore.setMerge target first)).
  apply elem_of_cons in Hin as [->|Hin].
  - by rewrite applyOps_other.
  - assert (op.1 ≠ first.1) as Hne.
    { intros Heq. apply Hfirst. rewrite <- Heq. apply list_elem_of_fmap. eauto. }
    rewrite IH by done. unfold Firestore.setMerge at 1 3.
    rewrite setMerge_other by done.
    destruct (target !! op.1); by rewrite !lookup_insert_eq.
Qed.

Lemma opOf_wrap env (d : string * obj) : opOf (wrap env d) = d.
Proof. by destruct d. Qed.

Lemma ops_wrap env (docs : list (string * obj)) : opOf <$> map (wrap env) docs = docs.
Proof.
  induction docs as [|d docs IH]; [done|].
  cbn [map fmap list_fmap]. rewrite opOf_wrap. f_equal. exact IH.
Qed.

Lemma scheduled_written env target c incrementalOnly w d :
  quiet env target c →
  size (Firestore.collection (db (other target) w) c) ≤ 450 →
  d ∈ scanOf (db (other target) w) c (sinceOf target c incrementalOnly w) →
  isDup (Firestore.collection (db target w) c) d = false →
  Firestore.collection (db target (syncShape env target c incrementalOnly w).2) c !! d.1
  = Firestore.setMerge (Firestore.collection (db target w) c) d !! d.1.
Proof.
  intros (Hscan & Hget & Hcommit & Hverify) Hsize Hd Hdup.
  pose proof (syncShape_calm env target c incrementalOnly w Hscan Hget (Hcommit 0) Hverify)
    as Hcalm. cbn zeta in Hcalm.
  set (lastSyncTime := sinceOf target c incrementalOnly w) in *.
  set (scan := scanOf (db (other target) w) c lastSyncTime) in *.
  rewrite filter_wrap in Hcalm.
  set (pending := filter (λ d, isDup (Firestore.collection (db target w) c) d = false) scan)
    in *.
  assert (d ∈ pending) as Hpending by by apply list_elem_of_filter.
  assert (length pending ≤ 450) as Hlen.
  { etrans; [apply length_filter|]. etrans; [apply length_scanOf|done]. }
  rewrite !length_map in Hcalm. rewrite Hcalm by done.
  rewrite bool_decide_eq_false_2 by by eapply elem_of_length.
  rewrite bool_decide_eq_false_2 by by eapply elem_of_length.
  cbn [snd]. rewrite syncedWorld_db, collection_insert_eq.
  rewrite ops_wrap.
  apply applyOps_once; [|done].
  apply NoDup_fst_filter, scanOf_NoDup.
Qed.

(** ** A forward sync whose verification read rejects *)

Lemma syncShape_unverified env c incrementalOnly w :
  scanFails env Main c = false →
  (∀ k, getAllFails env Backup c k = false) →
  commitFails env Backup c 0 = false →
  verifyFails env c = true →
  let lastSyncTime := sinceOf Backup c incrementalOnly w in
  let documents := map (wrap env) (scanOf (mainDb w) c lastSyncTime) in
  let toSync :=
    filter (λ doc, isDuplicate (Firestore.collection (backupDb w) c) doc = false) documents in
  0 < length toSync ≤ 450 →
  syncShape env Backup c incrementalOnly w
  = (Throw, syncedWorld Backup c lastSyncTime (length documents - length toSync) toSync w).
Proof.
  intros Hscan Hget Hcommit Hverify lastSyncTime documents toSync Hlen.
  unfold syncShape, scanned. fold lastSyncTime.
  rewrite getIncrementalDocuments_calm by done.
  change (db (other Backup) w) with (mainDb w). fold documents.
  assert (length toSync ≤ length documents) as Hle by apply length_filter.
  rewrite bool_decide_eq_false_2 by lia.
  rewrite checkForDuplicates_ok by done.
  rewrite filter_dupIds_NoDup by (unfold documents; rewrite wrap_ids; apply scanOf_NoDup).
  change (db Backup w) with (backupDb w). fold toSync.
  rewrite bool_decide_eq_false_2 by lia.
  destruct (writeAll_upTo env Backup c lastSyncTime toSync
              (countSkipped (length documents - length toSync) w))
    as (l & -> & Htotal & Hlatest); [lia|done|].
  rewrite Hverify, Hlatest. reflexivity.
Qed.

(** ** Counting the writes of a run *)

Lemma writesIn_app (m1 m2 : list (Side * string * list (string * obj))) :
  writesIn (m1 ++ m2) = writesIn m1 + writesIn m2.
Proof.
  unfold writesIn. induction m1 as [|e m1 IH]; [done|].
  cbn [app fmap list_fmap sum_list sum_list_with] in *. cbn in *. lia.
Qed.


Lemma Counted_trans w1 w2 w3 t1 t2 t3 :
  Counted w1 w2 t1 t2 → Counted w2 w3 t2 t3 → Counted w1 w3 t1 t3.
Proof.
  intros (m1 & Hlog1 & Ht1 & Hs1) (m2 & Hlog2 & Ht2 & Hs2).
  exists (m1 ++ m2). rewrite Hlog2, Hlog1, (assoc_L (++)), writesIn_app.
  split; [done|]. split; [lia|congruence].
Qed.

Lemma Counted_refl w t : Counted w w t t.
Proof. exists nil. rewrite app_nil_r. unfold writesIn. cbn. split; [done|]. split; [lia|done]. Qed.

Lemma syncShape_counted env target c incrementalOnly w total :
  let r := syncShape env target c incrementalOnly w in
  Counted w r.2 total (total + match r.1 with Ok n => n | Throw => 0 end).
Proof.
  cbn zeta.
  destruct (syncShape_commits env target c incrementalOnly w) as (more & Hlog & _ & _ & Hn).
  cbn zeta in Hn.
  destruct (syncShape_effect env target c incrementalOnly w) as [_ Hstats _ _ _ _ _ _].
  exists more. split; [done|]. split.
  - destruct (syncShape env target c incrementalOnly w).1 as [n|]; [|lia].
    rewrite <- (Hn n eq_refl). lia.
  - unfold steadyStats in Hstats. by injection Hstats.
Qed.

Lemma syncOne_counted env isFirstSync total w c :
  let r := syncOne env isFirstSync (total, w) c in Counted w r.2 total r.1.
Proof.
  cbn zeta. unfold syncOne.
  pose proof (syncShape_counted env Backup c (negb isFirstSync) w total) as Hc.
  cbn zeta in Hc. rewrite <- (syncTo_shape Backup) in Hc. cbn [syncTo] in Hc.
  destruct (syncCollectionToBackup env c (negb isFirstSync) w) as [[n|] w1]; cbn [fst snd] in *.
  - exact Hc.
  - rewrite Nat.add_0_r in Hc. exact Hc.
Qed.

Lemma syncAll_counted env isFirstSync (cs : list string) :
  ∀ total w,
    let r := foldl (syncOne env isFirstSync) (total, w) cs in Counted w r.2 total r.1.
Proof.
  induction cs as [|c cs IH]; intros total w; [apply Counted_refl|].
  cbn [foldl]. cbn zeta.
  pose proof (syncOne_counted env isFirstSync total w c) as Hone. cbn zeta in Hone.
  destruct (syncOne env isFirstSync (total, w) c) as [total1 w1].
  eapply Counted_trans; [exact Hone|apply IH].
Qed.

Lemma recoverOne_counted env total w c :
  let r := recoverOne env (total, w) c in Counted w r.2 total r.1.
Proof.
  cbn zeta. unfold recoverOne.
  pose proof (syncShape_counted env Main c true w total) as Hc.
  cbn zeta in Hc. rewrite <- (syncTo_shape Main) in Hc. cbn [syncTo] in Hc.
  destruct (syncCollectionToMain env c true w) as [[n|] w1]; cbn [fst snd] in *.
  - exact Hc.
  - rewrite Nat.add_0_r in Hc. exact Hc.
Qed.

Lemma recoverAll_counted env (cs : list string) :
  ∀ total w, let r := foldl (recoverOne env) (total, w) cs in Counted w r.2 total r.1.
Proof.
  induction cs as [|c cs IH]; intros total w; [apply Counted_refl|].
  cbn [foldl]. cbn zeta.
  pose proof (recoverOne_counted env total w c) as Hone. cbn zeta in Hone.
  destruct (recoverOne env (total, w) c) as [total1 w1].
  eapply Counted_trans; [exact Hone|apply IH].
Qed.


Lemma Accounted_still w w' :
  commitLog w' = commitLog w →
  Stats.totalSynced (syncStats w') = Stats.totalSynced (syncStats w) →
  Accounted w w'.
Proof. intros Hlog Ht. exists nil. rewrite app_nil_r. split; [done|]. lia. Qed.

Lemma Accounted_trans w1 w2 w3 : Accounted w1 w2 → Accounted w2 w3 → Accounted w1 w3.
Proof.
  intros (m1 & Hlog1 & Ht1) (m2 & Hlog2 & Ht2).
  exists (m1 ++ m2). rewrite Hlog2, Hlog1, (assoc_L (++)), writesIn_app.
  split; [done|]. lia.
Qed.

Ltac quietly := apply Accounted_still; [reflexivity | reflexivity].

Lemma discoverCollections_accounted env w : Accounted w (discoverCollections env w).1.
Proof.
  unfold discoverCollections in *. destruct (listFails env); [quietly|].
  set (w1 := with_collections _ w) in *.
  cbn [fst] in *. unfold emitStats, emit in *.
  destruct (sameButSchema_fields _ _ (analyze_all_frame env (collections w1) w1))
    as (_ & _ & _ & Hstats & _ & _ & _ & _ & Hlog' & _).
  apply Accounted_still;
    cbn [commitLog syncStats with_emitted with_syncStats Stats.totalSynced
         Stats.with_collections];
    rewrite ?Hlog', ?Hstats; done.
Qed.

Lemma performFirestoreSync_accounted env w : Accounted w (performFirestoreSync env w).2.
Proof.
  unfold performFirestoreSync.
  apply (Accounted_trans _ (discoverCollections env w).1); [apply discoverCollections_accounted|].
  generalize (discoverCollections env w).1. intros w1.
  set (isFirstSync := negb _).
  pose proof (syncAll_counted env isFirstSync (collections w1) 0 w1) as Hloop.
  cbn zeta in Hloop.
  destruct (foldl _ (0, w1) (collections w1)) as [total w2]. cbn [fst snd] in *.
  destruct Hloop as (more & Hlog & Htotal & Hstats).
  exists more. split; [by destruct isFirstSync|].
  destruct isFirstSync; cbn; lia.
Qed.

Lemma beginFullSync_accounted env w :
  Accounted w (checkDatabaseHealth env (beginFullSync env w)).
Proof. quietly. Qed.

Lemma paused_accounted w :
  Accounted w (finish (emitStats (withStatus paused (warn "Main database or auth is offline" w)))).
Proof. quietly. Qed.

Lemma standbyDown_accounted w :
  Accounted w (finish (emitStats (countError (withStatus error w)))).
Proof. quietly. Qed.

Lemma authPass_accounted env w :
  Accounted w
    (finish
       (saveStats
          (let w4 :=
             match performFullAuthSync env w with
             | (Ok _, w') =>
                 with_lastAuthSync (Some (now env))
                   (with_syncStats (Stats.with_authSync AuthShared (syncStats w')) w')
             | (Throw, w') => countError w'
             end in
           with_syncStats
             (Stats.with_lastSync (Some (now env)) (Stats.with_status completed (syncStats w4)))
             w4))).
Proof. unfold performFullAuthSync. destruct (authPlan env); quietly. Qed.

Lemma performFullSync_accounted env w : Accounted w (performFullSync env w).
Proof.
  unfold performFullSync. destruct (isSyncing w); [quietly|].
  unfold continueFullSync.
  apply (Accounted_trans _ (checkDatabaseHealth env (beginFullSync env w)));
    [apply beginFullSync_accounted|].
  generalize (checkDatabaseHealth env (beginFullSync env w)). intros w2.
  destruct (negb (isMainDbOnline w2) || negb (isMainAuthOnline w2)).
  { apply paused_accounted. }
  destruct (negb (isBackupDbOnline w2) || negb (isBackupAuthOnline w2)).
  { apply standbyDown_accounted. }
  apply (Accounted_trans _ (performFirestoreSync env w2).2);
    [apply performFirestoreSync_accounted|].
  apply authPass_accounted.
Qed.

Lemma beginRecovery_accounted w : Accounted w (beginRecovery w).
Proof. quietly. Qed.

Lemma refused_accounted line w : Accounted w (finish (warn line w)).
Proof. quietly. Qed.

Lemma performRecovery_accounted env w : Accounted w (performRecovery env w).
Proof.
  unfold performRecovery. destruct (isSyncing w); [quietly|].
  unfold continueRecovery.
  apply (Accounted_trans _ (beginRecovery w)); [apply beginRecovery_accounted|].
  generalize (beginRecovery w). intros w1.
  destruct (negb (isMainDbOnline w1) || negb (isMainAuthOnline w1)).
  { apply refused_accounted. }
  pose proof (recoverAll_counted env (collections w1) 0 w1) as Hloop. cbn zeta in Hloop.
  destruct (foldl _ (0, w1) (collections w1)) as [total w2]. cbn [fst snd] in *.
  destruct Hloop as (more & Hlog & Htotal & Hstats).
  exists more. split; [done|]. cbn. lia.
Qed.

(** ** Sets kept as arrays *)

Lemma NoDup_setAdd (k : string) (keySet : list string) :
  NoDup keySet → NoDup (setAdd k keySet).
Proof.
  intros Hnd. unfold setAdd. case_bool_decide as Hin; [done|].
  apply NoDup_app. split; [done|]. split; [|apply NoDup_singleton].
  intros x Hx ->%list_elem_of_singleton. done.
Qed.

Lemma prefix_setAdd (k : string) (keySet : list string) : keySet `prefix_of` setAdd k keySet.
Proof. unfold setAdd. case_bool_decide; [done|]. by apply prefix_app_r. Qed.

Lemma extractKeys_NoDup (value : jsval) :
  ∀ keySet prefix, NoDup keySet → NoDup (extractKeys value keySet prefix).
Proof.
  induction value as [| | | | |entries IH] using jsval_nested_ind;
    intros keySet prefix Hnd; try done.
  cbn [extractKeys]. revert keySet Hnd.
  induction IH as [|[key value] rest Hvalue _ IHrest]; intros keySet Hnd; [done|].
  apply IHrest. cbn [snd] in Hvalue. by apply Hvalue, NoDup_setAdd.
Qed.

Lemma extractKeys_prefix (value : jsval) :
  ∀ keySet prefix, keySet `prefix_of` extractKeys value keySet prefix.
Proof.
  induction value as [| | | | |entries IH] using jsval_nested_ind;
    intros keySet prefix; try done.
  cbn [extractKeys]. revert keySet.
  induction IH as [|[key value] rest Hvalue _ IHrest]; intros keySet; [done|].
  etrans; [|apply IHrest]. cbn [snd] in Hvalue.
  etrans; [apply (prefix_setAdd (fullKeyOf prefix key))|apply Hvalue].
Qed.

Lemma NoDup_setAdd_all (known listed : list string) :
  NoDup listed → NoDup (foldl (λ acc c, setAdd c acc) listed known).
Proof.
  revert listed. induction known as [|k known IH]; intros listed Hnd; [done|].
  cbn [foldl]. by apply IH, NoDup_setAdd.
Qed.

Lemma prefix_setAdd_all (known listed : list string) :
  listed `prefix_of` foldl (λ acc c, setAdd c acc) listed known.
Proof.
  revert listed. induction known as [|k known IH]; intros listed; [done|].
  cbn [foldl]. etrans; [apply (prefix_setAdd k)|apply IH].
Qed.

Lemma NoDup_listCollections (d : gmap string (gmap string obj)) :
  NoDup (Firestore.listCollections d).
Proof. unfold Firestore.listCollections. apply NoDup_fst_filter, NoDup_fst_map_to_list. Qed.


Lemma discoverCollections_listed env w :
  listFails env = false →
  let r := discoverCollections env w in
  r.2 = discovered (mainDb w)
  ∧ collections r.1 = r.2
  ∧ Stats.collections (syncStats r.1) = r.2
  ∧ countersOf (syncStats r.1) = countersOf (syncStats w)
  ∧ docsOf r.1 = docsOf w
  ∧ (isSyncing r.1, statsFile r.1, warnings r.1) = (isSyncing w, statsFile w, warnings w).
Proof.
  intros Hlist. cbn zeta. unfold discoverCollections. rewrite Hlist.
  set (w1 := with_collections _ w).
  cbn [fst snd]. unfold emitStats, emit, docsOf, countersOf.
  cbn [mainDb backupDb syncMetadata commitLog syncStats collections with_emitted with_syncStats
       isSyncing statsFile warnings
       Stats.totalSynced Stats.lastSync Stats.errors Stats.status Stats.collections
       Stats.duplicatesSkipped Stats.incrementalSyncs Stats.lastFullSync Stats.authSync
       Stats.with_collections].
  destruct (sameButSchema_fields _ _ (analyze_all_frame env (collections w1) w1))
    as (-> & -> & -> & -> & -> & -> & -> & _ & -> & -> & _).
  done.
Qed.

(** ** The scan above a watermark *)

Lemma elem_of_getDocs d c (e : string * obj) :
  e ∈ Firestore.getDocs d c ↔ Firestore.collection d c !! e.1 = Some e.2.
Proof. unfold Firestore.getDocs. destruct e. apply elem_of_map_to_list. Qed.

(** ** The two watermarks of a collection *)

Lemma string_length_app (s1 s2 : string) :
  String.length (s1 +:+ s2) = String.length s1 + String.length s2.
Proof. induction s1 as [|a s1 IH]; [done|]. simpl. by f_equal. Qed.

Lemma recovery_key_differs (c : string) : c +:+ "_recovery" ≠ c.
Proof.
  intros Heq. apply (f_equal String.length) in Heq.
  rewrite string_length_app in Heq. cbn in Heq. lia.
Qed.

(** ** The integrity report *)

Lemma docsMap_from (snapshot : list (string * obj)) :
  ∀ docs : gmap string obj,
    NoDup snapshot.*1 → (∀ i, i ∈ snapshot.*1 → docs !! i = None) →
    foldl (λ docs doc, <[doc.1 := doc.2]> docs) docs snapshot = list_to_map snapshot ∪ docs.
Proof.
  induction snapshot as [|[i d] snapshot IH]; intros docs Hnd Hfresh.
  { cbn. by rewrite (left_id_L ∅ (∪)). }
  cbn [fmap list_fmap fst] in Hnd. apply NoDup_cons in Hnd as [Hi Hnd].
  cbn [foldl list_to_map fst snd]. rewrite IH; [| done |].
  - rewrite <- insert_union_r, insert_union_l; [done|].
    by apply not_elem_of_list_to_map_1.
  - intros j Hj. rewrite lookup_insert_ne by (intros ->; done).
    apply Hfresh. cbn. by apply list_elem_of_further.
Qed.

Lemma docsMap_getDocs (d : gmap string (gmap string obj)) (c : string) :
  docsMap (Firestore.getDocs d c) = Firestore.collection d c.
Proof.
  unfold docsMap, Firestore.getDocs.
  rewrite docsMap_from; [|apply NoDup_fst_map_to_list|done].
  by rewrite (right_id_L ∅ (∪)), list_to_map_to_list.
Qed.

Lemma checkCollection_verdict env w report c :
  checkCollection env w report c
  = {| Integrity.collections := <[c := verdictOf env w c]> (Integrity.collections report);
       Integrity.totalIssues := Integrity.totalIssues report + issueCount env w c;
       Integrity.timestamp := Integrity.timestamp report |}.
Proof.
  unfold checkCollection, issueCount, verdictOf.
  destruct (scanFails env Main c || scanFails env Backup c).
  { by rewrite Nat.add_0_r. }
  cbn zeta. by rewrite !docsMap_getDocs.
Qed.

Lemma integrity_fold env w (cs : list string) :
  ∀ report,
    let r := foldl (checkCollection env w) report cs in
    (∀ c, Integrity.collections r !! c
          = if decide (c ∈ cs) then Some (verdictOf env w c)
            else Integrity.collections report !! c)
    ∧ Integrity.totalIssues r
      = Integrity.totalIssues report + sum_list (issueCount env w <$> cs)
    ∧ Integrity.timestamp r = Integrity.timestamp report.
Proof.
  induction cs as [|c0 cs IH]; intros report; cbn zeta.
  { cbn. split; [|split; [lia|done]]. intros c. by rewrite decide_False by apply not_elem_of_nil. }
  cbn [foldl]. destruct (IH (checkCollection env w report c0)) as (Hc & Ht & Hs).
  rewrite checkCollection_verdict in *. cbn [Integrity.collections Integrity.totalIssues
    Integrity.timestamp] in *.
  split; [|split; [rewrite Ht; cbn; lia|done]].
  intros c. rewrite Hc.
  destruct (decide (c ∈ cs)) as [Hin|Hout].
  - by rewrite decide_True by by apply list_elem_of_further.
  - destruct (decide (c = c0)) as [->|Hne].
    + rewrite lookup_insert_eq. by rewrite decide_True by apply list_elem_of_here.
    + rewrite lookup_insert_ne by done.
      by rewrite decide_False by (intros [?|?]%elem_of_cons; done).
Qed.

Lemma elem_of_missingFrom (present others : gmap string obj) (i : string) :
  i ∈ missingFrom (map_to_list present) others ↔ is_Some (present !! i) ∧ others !! i = None.
Proof.
  unfold missingFrom. rewrite list_elem_of_filter, list_elem_of_fmap. split.
  - intros [Hnone ([j d] & -> & Hin%elem_of_map_to_list)]. eauto.
  - intros [[d Hd] Hnone]. split; [done|]. exists (i, d). split; [done|].
    by apply elem_of_map_to_list.
Qed.

Lemma NoDup_missingFrom (present others : gmap string obj) :
  NoDup (missingFrom (map_to_list present) others).
Proof. unfold missingFrom. apply NoDup_filter, NoDup_fst_map_to_list. Qed.

#[local] Instance missing_in_backup_inj : Inj (=) (=) missing_in_backup.
Proof. by intros i j [=]. Qed.

#[local] Instance missing_in_main_inj : Inj (=) (=) missing_in_main.
Proof. by intros i j [=]. Qed.

Lemma issuesOf_spec (main backup : gmap string obj) :
  NoDup (issuesOf main backup)
  ∧ (∀ i, missing_in_backup i ∈ issuesOf main backup
          ↔ is_Some (main !! i) ∧ backup !! i = None)
  ∧ (∀ i, missing_in_main i ∈ issuesOf main backup
          ↔ is_Some (backup !! i) ∧ main !! i = None).
Proof.
  unfold issuesOf. split; [|split].
  - apply NoDup_app. split; [|split].
    + apply (NoDup_fmap_2 _), NoDup_missingFrom.
    + intros issue (i & -> & _)%list_elem_of_fmap (j & [=] & _)%list_elem_of_fmap.
    + apply (NoDup_fmap_2 _), NoDup_missingFrom.
  - intros i. rewrite elem_of_app, !list_elem_of_fmap, <- elem_of_missingFrom. split.
    + intros [(j & [= <-] & Hj)|(j & [=] & _)]. done.
    + intros Hi. left. eauto.
  - intros i. rewrite elem_of_app, !list_elem_of_fmap, <- elem_of_missingFrom. split.
    + intros [(j & [=] & _)|(j & [= <-] & Hj)]. done.
    + intros Hi. right. eauto.
Qed.

Lemma issuesOf_nil (main backup : gmap string obj) :
  issuesOf main backup = [] ↔ dom main = dom backup.
Proof.
  destruct (issuesOf_spec main backup) as (_ & Hb & Hm). split.
  - intros Hnil. rewrite Hnil in Hb, Hm. apply set_eq. intros i.
    rewrite !elem_of_dom. split; intros Hi.
    + destruct (backup !! i) eqn:Hbi; [done|].
      exfalso. eapply not_elem_of_nil, Hb. eauto.
    + destruct (main !! i) eqn:Hmi; [done|].
      exfalso. eapply not_elem_of_nil, Hm. eauto.
  - intros Hdom. destruct (issuesOf main backup) as [|issue rest] eqn:Hissues; [done|].
    exfalso. destruct issue as [i|i].
    + destruct (proj1 (Hb i)) as [Hi Hnone]; [apply list_elem_of_here|].
      apply elem_of_dom in Hi. rewrite Hdom in Hi.
      apply elem_of_dom in Hi as [? Hi]. congruence.
    + destruct (proj1 (Hm i)) as [Hi Hnone]; [apply list_elem_of_here|].
      apply elem_of_dom in Hi. rewrite <- Hdom in Hi.
      apply elem_of_dom in Hi as [? Hi]. congruence.
Qed.

Lemma sum_list_zero (l : list nat) : sum_list l = 0 ↔ ∀ n, n ∈ l → n = 0.
Proof.
  induction l as [|n l IH]; cbn.
  - split; [|done]. intros _ n Hn. by apply elem_of_nil in Hn.
  - split.
    + intros Hsum k [->|Hk]%elem_of_cons; [lia|]. apply IH; [lia|done].
    + intros Hall. rewrite (Hall n) by apply list_elem_of_here. cbn.
      apply IH. intros k Hk. apply Hall. by apply list_elem_of_further.
Qed.

(** The size comparison the two counts and the issues allow. *)
Lemma missing_balance (main backup : gmap string obj) :
  size main + length (missingFrom (map_to_list backup) main)
  = size backup + length (missingFrom (map_to_list main) backup).
Proof.
  assert (∀ a b : gmap string obj,
            length (missingFrom (map_to_list a) b) = size (dom a ∖ dom b)) as Hlen.
  { intros a b. rewrite <- (size_list_to_set (C := gset string)) by apply NoDup_missingFrom.
    f_equal. apply set_eq. intros i.
    rewrite elem_of_list_to_set, elem_of_missingFrom, elem_of_difference, !elem_of_dom.
    split; intros [? Hn]; split; try done.
    - by rewrite Hn; intros [? [=]].
    - destruct (b !! i); [|done]. exfalso. eauto. }
  rewrite !Hlen, <- !size_dom.
  pose proof (size_union_alt (dom main) (dom backup)) as H1.
  pose proof (size_union_alt (dom backup) (dom main)) as H2.
  rewrite (comm_L (∪) (dom backup)) in H2. lia.
Qed.

(** ** The duplicate check *)

(** X1 ([checkForDuplicates]).  Over documents whose timestamp fields
    hold text: whether the pre-check answers or gives up, the documents
    it returns are the scanned documents in their order with some left
    out; [duplicatesSkipped] grows by exactly the number left out and
    nothing else of the service changes; a document whose id the target
    does not hold is always returned; a document is left out only when
    the target holds, under the id of a scanned document of the same id,
    a copy whose timestamp ([updatedAt], else [createdAt]) is at least
    that document's own, neither being empty; and when no [getAll]
    rejects, every document with such a copy is left out.

    The first two hypotheses are not used by the proof.  They confine
    the statement to the documents on which the embedding reads a
    timestamp as the program does. *)
Theorem duplicate_check_keeps_or_counts (env : Env) (side : Side) (c : string)
    (documents : list Doc.t) (w : World) :
  let r := checkForDuplicates env side c documents w in
  let target := Firestore.collection (db side w) c in
  textStamped target →
  Forall (λ doc, textStamps (Doc.data doc) = true) documents →
  r.1 `sublist_of` documents
  ∧ r.2 = countSkipped (length documents - length r.1) w
  ∧ (∀ doc, doc ∈ documents → target !! Doc.id doc = None → doc ∈ r.1)
  ∧ (∀ doc, doc ∈ documents → doc ∉ r.1 →
       ∃ doc' existingData stored own,
         doc' ∈ documents ∧ Doc.id doc' = Doc.id doc
         ∧ target !! Doc.id doc = Some existingData
         ∧ timestampOf existingData = Some stored
         ∧ timestampOf (Doc.data doc') = Some own
         ∧ stored ≠ "" ∧ own ≠ "" ∧ ge stored own = true)
  ∧ ((∀ k, getAllFails env side c k = false) →
     ∀ doc, doc ∈ documents → hasCurrentCopy target (Doc.id doc) (Doc.data doc) → doc ∉ r.1).
Proof.
  cbn zeta. intros _ _.
  assert ((∀ k, getAllFails env side c k = false) →
          ∀ doc, doc ∈ documents →
            hasCurrentCopy (Firestore.collection (db side w) c) (Doc.id doc) (Doc.data doc) →
            doc ∉ (checkForDuplicates env side c documents w).1) as Hout.
  { intros Hok doc Hin Hcopy. rewrite checkForDuplicates_ok by done. cbn [fst].
    intros [Hkept _]%list_elem_of_filter.
    apply Hkept, elem_of_dupIds. exists doc. split; [done|]. split; [done|].
    by apply isDuplicate_current. }
  destruct (checkForDuplicates_any env side c documents w) as [Hw [Heq|Heq]];
    cbn zeta in *; rewrite Heq in *.
  - split; [done|]. split; [done|]. split; [done|]. split; [|done].
    by intros doc Hin Hnot.
  - split; [apply sublist_filter|]. split; [done|]. split; [|split; [|done]].
    + intros doc Hin Hnone. apply list_elem_of_filter. split; [|done].
      intros (doc' & _ & Hid & Hdup)%elem_of_dupIds.
      unfold isDuplicate in Hdup. by rewrite Hid, Hnone in Hdup.
    + intros doc Hin Hnot.
      destruct (decide (Doc.id doc ∈ dupIds (Firestore.collection (db side w) c) documents))
        as [Hdup|Hdup].
      * apply elem_of_dupIds in Hdup as (doc' & Hin' & Hid & Hdup).
        apply isDuplicate_current in Hdup. unfold hasCurrentCopy, current in Hdup.
        rewrite Hid in Hdup.
        destruct (Firestore.collection (db side w) c !! Doc.id doc) as [existingData|];
          [|done].
        destruct (timestampOf existingData) as [stored|] eqn:Hts; [|done].
        destruct (timestampOf (Doc.data doc')) as [own|] eqn:Hto; [|done].
        destruct Hdup as (Hstored & Hown & Hge).
        exists doc', existingData, stored, own. by repeat split.
      * exfalso. apply Hnot, list_elem_of_filter. done.
Qed.

Lemma duplicate_check_keeps_or_counts_witness :
  let env := Fixture.calm Fixture.june in
  let w := Fixture.staleSource in
  let r := checkForDuplicates env Backup "appointments" [Fixture.a1] w in
  textStamped (Firestore.collection (backupDb w) "appointments")
  ∧ Forall (λ doc, textStamps (Doc.data doc) = true) [Fixture.a1]
  ∧ (∀ k, getAllFails env Backup "appointments" k = false)
  ∧ hasCurrentCopy (Firestore.collection (backupDb w) "appointments")
      (Doc.id Fixture.a1) (Doc.data Fixture.a1)
  ∧ (Fixture.a1 ∉ r.1)
  ∧ r.2 = countSkipped (1 - length r.1) w.
Proof.
  intros env w r.
  assert (textStamped (Firestore.collection (backupDb w) "appointments")) as H1.
  { apply (bool_decide_unpack _). vm_compute. exact I. }
  assert (Forall (λ doc, textStamps (Doc.data doc) = true) [Fixture.a1]) as H2
    by by apply Forall_singleton.
  assert (hasCurrentCopy (Firestore.collection (backupDb w) "appointments")
            (Doc.id Fixture.a1) (Doc.data Fixture.a1)) as H4.
  { apply (bool_decide_unpack _). vm_compute. exact I. }
  do 4 (split; [done|]).
  destruct (duplicate_check_keeps_or_counts env Backup "appointments" [Fixture.a1] w H1 H2)
    as (_ & Hcount & _ & _ & Hout).
  split; [|exact Hcount].
  exact (Hout (λ _, eq_refl) Fixture.a1 (list_elem_of_here _ _) H4).
Defined.

(** ** The incremental scan *)

(** X2 ([getIncrementalDocuments]).  A scan above a non-empty watermark
    that does not reject returns one wrapper per stored document whose
    [updatedAt] field is a string above the watermark, with that string as
    the wrapper's timestamp, and nothing else: a document that carries only
    [createdAt], or no timestamp, is never returned by an incremental
    scan, although the wrapper and the duplicate check fall back to
    [createdAt]. *)
Theorem incremental_scan_needs_updatedAt (env : Env) (side : Side) (w : World)
    (c since : string) :
  scanFails env side c = false →
  since ≠ "" →
  ∃ documents,
    getIncrementalDocuments env side w c (Some since) = Ok documents
    ∧ NoDup (Doc.id <$> documents)
    ∧ (∀ doc, doc ∈ documents →
         Firestore.collection (db side w) c !! Doc.id doc = Some (Doc.data doc)
         ∧ ∃ u, strField "updatedAt" (Doc.data doc) = Some u ∧ gt u since = true
                ∧ Doc.updatedAt doc = Some u)
    ∧ (∀ i data u,
         Firestore.collection (db side w) c !! i = Some data →
         strField "updatedAt" data = Some u → gt u since = true →
         ∃ doc, doc ∈ documents ∧ Doc.id doc = i ∧ Doc.data doc = data).
Proof.
  intros Hscan Hsince. eexists. split; [by apply getIncrementalDocuments_calm|].
  split; [rewrite wrap_ids; apply scanOf_NoDup|]. split.
  - intros doc (e & -> & He)%list_elem_of_fmap.
    apply elem_of_scanOf_above in He as (He & u & Hu & Hgt); [|done].
    apply elem_of_getDocs in He. split; [done|].
    exists u. split; [done|]. split; [done|].
    apply wrap_updatedAt_field; [done|]. by eapply gt_nonempty.
  - intros i data u Hstored Hu Hgt. exists (wrap env (i, data)). split; [|done].
    apply list_elem_of_fmap. exists (i, data). split; [done|].
    apply elem_of_scanOf_above; [done|]. split; [by apply elem_of_getDocs|eauto].
Qed.

Lemma incremental_scan_needs_updatedAt_witness :
  let env := Fixture.calm Fixture.june in
  scanFails env Main "users" = false
  ∧ "2022-01-01T00:00:00Z" ≠ ""
  ∧ Firestore.collection (mainDb Undated.world) "users" !! "u2"
    = Some [("createdAt", JStr "2023-01-01T00:00:00Z")]
  ∧ getIncrementalDocuments env Main Undated.world "users" (Some "2022-01-01T00:00:00Z")
    = Ok [].
Proof.
  intros env.
  split; [reflexivity|]. split; [discriminate|]. split; [vm_compute; reflexivity|].
  destruct (incremental_scan_needs_updatedAt env Main Undated.world "users"
              "2022-01-01T00:00:00Z" eq_refl ltac:(discriminate))
    as (documents & -> & _ & Hall & _).
  destruct documents as [|doc documents]; [reflexivity|].
  destruct (Hall doc (list_elem_of_here _ _)) as (Hstored & u & Hu & _).
  exfalso. revert Hstored Hu. generalize (Doc.id doc) (Doc.data doc). intros i data Hstored.
  apply elem_of_map_to_list in Hstored. revert Hstored.
  vm_compute. intros Hin Hu.
  repeat (apply elem_of_cons in Hin as [Hin|Hin]; [injection Hin as -> ->; discriminate|]).
  by apply elem_of_nil in Hin.
Defined.

(** ** What a collection sync commits *)

(** X3 ([syncCollectionToBackup], [syncCollectionToMain]).  Whatever
    rejects, every batch a collection sync commits goes to the collection
    of the same name on the target, holds between 1 and 450 writes, and
    each write carries the id and the data of a document stored on the
    source when the sync began: no id is rewritten and no document is
    made up. *)
Theorem committed_writes_come_from_source (env : Env) (target : Side) (c : string)
    (incrementalOnly : bool) (w : World) :
  ∃ more,
    commitLog (syncTo target env c incrementalOnly w).2 = commitLog w ++ more
    ∧ Forall (batchOf target c w) more.
Proof.
  rewrite syncTo_shape.
  destruct (syncShape_commits env target c incrementalOnly w) as (more & Hlog & _ & Hall & _).
  eauto.
Qed.

(** X4 ([syncCollectionToBackup], [syncCollectionToMain]).  Whatever
    rejects, a collection sync commits at most one batch, so at most 450
    writes, and the number it returns is the number of writes that batch
    holds (0 when nothing was committed). *)
Theorem returned_count_is_committed_writes (env : Env) (target : Side) (c : string)
    (incrementalOnly : bool) (w : World) :
  let r := syncTo target env c incrementalOnly w in
  ∃ more,
    commitLog r.2 = commitLog w ++ more
    ∧ length more ≤ 1
    ∧ writesIn more ≤ 450
    ∧ ∀ n, r.1 = Ok n → n = writesIn more.
Proof.
  cbn zeta. rewrite syncTo_shape.
  destruct (syncShape_commits env target c incrementalOnly w) as (more & Hlog & Hone & Hall & Hn).
  exists more. split; [done|]. split; [done|]. split; [|done].
  destruct more as [|e [|e' more]]; [cbn; lia| |cbn in Hone; lia].
  apply Forall_singleton in Hall as (_ & Hlen & _). unfold writesIn. cbn. lia.
Qed.

(** X5 ([syncCollectionToBackup], [syncCollectionToMain]).  In a sync in
    which no call rejects, whose source collection holds at most 450
    documents and whose documents carry text in their timestamp fields:
    every scanned document of which the target holds no current copy (no
    copy at all, or a copy without a timestamp, or the document has no
    timestamp, or the copy's timestamp is below the document's own) ends
    up on the target under its own id, merged into the copy the target
    held; when the target held none, the copy is the source data.

    The hypothesis [textSync] is not used by the proof.  It confines the
    statement to the documents on which the embedding reads a timestamp
    as the program does. *)
Theorem scheduled_document_is_merged_into_target (env : Env) (target : Side) (c : string)
    (incrementalOnly : bool) (w : World) (d : string * obj) :
  textSync target c incrementalOnly w →
  quiet env target c →
  size (Firestore.collection (db (other target) w) c) ≤ 450 →
  d ∈ scanOf (db (other target) w) c (sinceOf target c incrementalOnly w) →
  ¬ hasCurrentCopy (Firestore.collection (db target w) c) d.1 d.2 →
  Firestore.collection (db target (syncTo target env c incrementalOnly w).2) c !! d.1
  = Some match Firestore.collection (db target w) c !! d.1 with
         | Some old => Firestore.mergeData old d.2
         | None => d.2
         end.
Proof.
  intros _ Hquiet Hsize Hd Hstale.
  assert (isDup (Firestore.collection (db target w) c) d = false) as Hdup.
  { destruct (isDup _ d) eqn:Hdup; [|done]. by apply isDup_current in Hdup. }
  rewrite syncTo_shape, scheduled_written by done.
  unfold Firestore.setMerge.
  destruct (Firestore.collection (db target w) c !! d.1); by rewrite lookup_insert_eq.
Qed.

Lemma scheduled_document_is_merged_into_target_witness :
  let env := Fixture.calm Fixture.june in
  let w := with_mainDb ∅ (with_backupDb (mainDb Overtaken.world) Overtaken.world) in
  let d : string * obj := ("a1", Fixture.stamped "2024-01-01T00:00:01Z" "first") in
  textSync Main "appointments" true w
  ∧ quiet env Main "appointments"
  ∧ size (Firestore.collection (backupDb w) "appointments") ≤ 450
  ∧ d ∈ scanOf (backupDb w) "appointments" (sinceOf Main "appointments" true w)
  ∧ ¬ hasCurrentCopy (Firestore.collection (mainDb w) "appointments") d.1 d.2
  ∧ Firestore.collection (mainDb (syncCollectionToMain env "appointments" true w).2)
      "appointments" !! "a1"
    = Some (Fixture.stamped "2024-01-01T00:00:01Z" "first").
Proof.
  intros env w d.
  assert (textSync Main "appointments" true w) as H0.
  { apply textWorld_textSync, (bool_decide_unpack _). vm_compute. exact I. }
  assert (quiet env Main "appointments") as H1 by (repeat split; done).
  assert (size (Firestore.collection (backupDb w) "appointments") ≤ 450) as H2
    by (vm_compute; lia).
  assert (d ∈ scanOf (backupDb w) "appointments" (sinceOf Main "appointments" true w)) as H3.
  { unfold d. cbn [sinceOf scanOf]. apply elem_of_map_to_list. vm_compute. reflexivity. }
  assert (¬ hasCurrentCopy (Firestore.collection (mainDb w) "appointments") d.1 d.2) as H4.
  { apply (bool_decide_unpack _). vm_compute. exact I. }
  do 5 (split; [assumption|]).
  exact (scheduled_document_is_merged_into_target env Main "appointments" true w d
           H0 H1 H2 H3 H4).
Defined.

(** ** Watermarks *)

(** X6 ([syncCollectionToBackup], [syncCollectionToMain]).  Whatever
    rejects, an incremental collection sync never lowers its watermark:
    when the watermark was a non-empty string before the sync, it is a
    non-empty string at least as large after it. *)
Theorem incremental_sync_keeps_watermark_up (env : Env) (target : Side) (c : string)
    (w : World) :
  atLeast (metaGet (syncMetadata (syncTo target env c true w).2) (watermarkKey target c))
          (metaGet (syncMetadata w) (watermarkKey target c)).
Proof.
  rewrite syncTo_shape.
  destruct (syncShape_any env target c true w)
    as [[-> _]|(documents & _ & Hrest)]; [apply atLeast_refl|].
  cbn zeta in Hrest.
  destruct (checkForDuplicates_any env target c documents w) as [Hw1 _].
  cbn zeta in Hw1.
  set (checked := checkForDuplicates env target c documents w) in *.
  assert (syncMetadata checked.2 = syncMetadata w) as Hmeta1 by by rewrite Hw1.
  destruct Hrest as [[-> _]|[Hne Hrest]].
  { cbn [snd]. rewrite Hmeta1. apply atLeast_refl. }
  change (sinceOf target c true w) with (metaGet (syncMetadata w) (watermarkKey target c))
    in Hrest.
  set (lastSyncTime := metaGet (syncMetadata w) (watermarkKey target c)) in *.
  pose proof (writeAll_frame env target c (progressOf target) lastSyncTime checked.1 checked.2)
    as [_ _ _ Hmeta2 _ _ _ _].
  destruct (writeAll_outcome env target c (progressOf target) lastSyncTime checked.1 checked.2)
    as [_ Hout]. cbn zeta in Hout.
  set (written := writeAll env target c (progressOf target) lastSyncTime checked.1 checked.2) in *.
  destruct Hrest as [[-> _]|(l & Hl & -> & _)].
  { cbn [snd]. rewrite Hmeta2, Hmeta1. apply atLeast_refl. }
  cbn [syncMetadata with_syncMetadata]. rewrite metaGet_insert.
  destruct Hout as [(_ & _ & [Hthrow|[? _]])|(_ & (l' & Hl' & _ & Hlatest) & _)];
    [congruence|done|].
  assert (l' = l) as -> by congruence.
  rewrite Hlatest. apply latestOf_atLeast_since.
Qed.

(** X7 ([syncCollectionToBackup], [syncCollectionToMain]).  Whatever
    rejects, a sync of collection [c] into a target leaves alone: the
    source database, every other collection of the target, every
    watermark but its own, the collection list, the stored schemas, the
    busy flag, the health flags, the stats file, the warnings, and the
    counters [totalSynced], [incrementalSyncs], [lastSync],
    [lastFullSync] and [status]; the counters [errors] and
    [duplicatesSkipped] do not decrease; and every batch it commits goes
    to collection [c] of the target. *)
Theorem collection_sync_touches_its_collection_only (env : Env) (target : Side) (c : string)
    (incrementalOnly : bool) (w : World) :
  SyncEffect target c w (syncTo target env c incrementalOnly w).2.
Proof. rewrite syncTo_shape. apply syncShape_effect. Qed.

(** X8 ([syncCollectionToBackup], [syncCollectionToMain]).  The forward
    watermark of a collection (key [c]) and its recovery watermark (key
    [c_recovery]) are different entries: a forward sync of [c] leaves the
    recovery watermark of [c] as it was, and a recovery sync of [c] leaves
    the forward watermark of [c] as it was. *)
Theorem forward_and_recovery_watermarks_are_separate (env : Env) (target : Side) (c : string)
    (incrementalOnly : bool) (w : World) :
  watermarkKey (other target) c ≠ watermarkKey target c
  ∧ metaGet (syncMetadata (syncTo target env c incrementalOnly w).2)
      (watermarkKey (other target) c)
    = metaGet (syncMetadata w) (watermarkKey (other target) c).
Proof.
  assert (watermarkKey (other target) c ≠ watermarkKey target c) as Hne.
  { destruct target; cbn; [|apply recovery_key_differs].
    intros Heq. by apply (recovery_key_differs c). }
  split; [done|]. rewrite syncTo_shape.
  destruct (syncShape_effect env target c incrementalOnly w) as [_ _ _ _ _ _ Hmeta _].
  unfold metaGet. by rewrite Hmeta.
Qed.

(** ** What a run writes *)

(** X9 ([EnhancedSyncService.performFullSync], [performFirestoreSync]).
    A forward run never writes to the primary: whatever the probes answer
    and whatever rejects, the primary database is the same after the call,
    and every batch committed during the call went to the standby. *)
Theorem forward_run_never_writes_primary (env : Env) (w : World) :
  let w' := performFullSync env w in
  mainDb w' = mainDb w
  ∧ ∃ more, commitLog w' = commitLog w ++ more ∧ Forall (λ e, e.1.1 = Backup) more.
Proof. cbn zeta. by destruct (performFullSync_effect env w) as [Hsource Hlog _ _ _ _ _ _]. Qed.

(** X10 ([EnhancedSyncService.performRecovery]).  A recovery never writes
    to the standby: whatever rejects, the standby database is the same
    after the call, and every batch committed during the call went to the
    primary. *)
Theorem recovery_never_writes_standby (env : Env) (w : World) :
  let w' := performRecovery env w in
  backupDb w' = backupDb w
  ∧ ∃ more, commitLog w' = commitLog w ++ more ∧ Forall (λ e, e.1.1 = Main) more.
Proof. cbn zeta. by destruct (performRecovery_effect env w) as [Hsource Hlog _ _ _ _ _ _]. Qed.

(** X11 ([EnhancedSyncService.performFullSync], [performRecovery]).  No
    call of a forward run or of a recovery, refused, paused, failed or
    completed, decreases one of the counters [totalSynced], [errors],
    [duplicatesSkipped], [incrementalSyncs]. *)
Theorem run_counters_never_decrease (r : Run) (env : Env) (w : World) :
  let s := syncStats w in
  let s' := syncStats (call r env w) in
  Stats.totalSynced s ≤ Stats.totalSynced s'
  ∧ Stats.errors s ≤ Stats.errors s'
  ∧ Stats.duplicatesSkipped s ≤ Stats.duplicatesSkipped s'
  ∧ Stats.incrementalSyncs s ≤ Stats.incrementalSyncs s'.
Proof.
  cbn zeta. destruct r; cbn [call].
  - by destruct (performFullSync_effect env w).
  - by destruct (performRecovery_effect env w).
Qed.

(** X12 ([EnhancedSyncService.performFullSync], [performFirestoreSync],
    [performRecovery]).  [totalSynced] never counts a write that was not
    committed: over any call of a forward run or of a recovery, the
    counter grows by at most the number of writes in the batches the call
    has committed. *)
Theorem totalSynced_never_overcounts (r : Run) (env : Env) (w : World) :
  let w' := call r env w in
  ∃ more,
    commitLog w' = commitLog w ++ more
    ∧ Stats.totalSynced (syncStats w') ≤ Stats.totalSynced (syncStats w) + writesIn more.
Proof.
  cbn zeta. destruct r; cbn [call].
  - apply performFullSync_accounted.
  - apply performRecovery_accounted.
Qed.

(** ** Rejections after the writes have been queued *)

(** X13 ([syncCollectionToBackup], [performFirestoreSync]).  Over
    documents whose timestamp fields hold text and with a clock that
    returns ASCII text: when the verification read that ends a forward
    collection sync rejects, the sync rejects although its batch, which
    holds the scanned documents without a current copy on the standby,
    has been committed and its watermark set; the loop of the run then
    counts one error and adds nothing to the total of the run for that
    collection.

    The hypotheses [textSync] and [asciiText] are not used by the proof.
    They confine the statement to the documents on which the embedding
    reads a timestamp as the program does. *)
Theorem unverified_sync_is_written_but_not_counted (env : Env) (c : string)
    (incrementalOnly : bool) (w : World) (total : nat) :
  textSync Backup c incrementalOnly w →
  asciiText (now env) = true →
  scanFails env Main c = false →
  (∀ k, getAllFails env Backup c k = false) →
  commitFails env Backup c 0 = false →
  verifyFails env c = true →
  let lastSyncTime := sinceOf Backup c incrementalOnly w in
  let documents := map (wrap env) (scanOf (mainDb w) c lastSyncTime) in
  let toSync :=
    filter (λ doc, ¬ hasCurrentCopy (Firestore.collection (backupDb w) c)
                      (Doc.id doc) (Doc.data doc)) documents in
  0 < length toSync ≤ 450 →
  let r := syncCollectionToBackup env c incrementalOnly w in
  let s := syncOne env (negb incrementalOnly) (total, w) c in
  r.1 = Throw
  ∧ commitLog r.2 = commitLog w ++ [(Backup, c, opOf <$> toSync)]
  ∧ syncMetadata r.2 = <[c := latestOf lastSyncTime toSync]> (syncMetadata w)
  ∧ s.1 = total
  ∧ commitLog s.2 = commitLog r.2
  ∧ Stats.errors (syncStats s.2) = S (Stats.errors (syncStats w)).
Proof.
  intros _ _ Hscan Hget Hcommit Hverify lastSyncTime documents stale.
  set (toSync :=
         filter (λ doc, isDuplicate (Firestore.collection (backupDb w) c) doc = false)
           documents).
  assert (stale = toSync) as ->.
  { apply filter_iff_in. intros doc _. symmetry. apply isDuplicate_stale. }
  intros Hlen r s.
  subst r s. unfold syncOne. rewrite negb_involutive.
  change (syncCollectionToBackup env c incrementalOnly w)
    with (syncTo Backup env c incrementalOnly w).
  rewrite syncTo_shape, syncShape_unverified by done. cbn [fst snd].
  fold lastSyncTime documents toSync.
  split; [done|]. rewrite syncedWorld_log, syncedWorld_meta.
  split; [done|]. split; [done|]. split; [done|].
  unfold countError. cbn [commitLog with_syncStats syncStats Stats.errors Stats.with_errors].
  rewrite syncedWorld_log, syncedWorld_stats. done.
Qed.

Lemma unverified_sync_is_written_but_not_counted_witness :
  let env := Mishap.verifyDown Fixture.june in
  let w := Bringup.world in
  textSync Backup "users" false w
  ∧ asciiText (now env) = true
  ∧ scanFails env Main "users" = false
  ∧ (∀ k, getAllFails env Backup "users" k = false)
  ∧ commitFails env Backup "users" 0 = false
  ∧ verifyFails env "users" = true
  ∧ (syncCollectionToBackup env "users" false w).1 = Throw
  ∧ (∃ ops, commitLog (syncCollectionToBackup env "users" false w).2
            = commitLog w ++ [(Backup, "users", ops)] ∧ length ops = 2)
  ∧ (syncOne env true (7, w) "users").1 = 7.
Proof.
  intros env w.
  assert (textSync Backup "users" false w) as H0.
  { apply textWorld_textSync, (bool_decide_unpack _). vm_compute. exact I. }
  do 6 (split; [done|]).
  destruct (unverified_sync_is_written_but_not_counted env "users" false w 7
              H0 eq_refl eq_refl (λ _, eq_refl) eq_refl eq_refl)
    as (R1 & R2 & _ & R4 & _).
  { vm_compute. lia. }
  split; [exact R1|]. split; [|exact R4].
  eexists. split; [exact R2|]. vm_compute. reflexivity.
Defined.

(** X14 ([syncCollectionToBackup], [syncCollectionToMain]: the write
    loop).  When the batch fills up (450 writes), its commit rejects and
    the commit after the loop is accepted, that second commit sends the
    same 450 writes: they are committed once, 450 is returned, and every
    document past the 450th, which the closed batch refused, has added one
    error, as the rejected commit has. *)
Theorem rejected_batch_is_sent_again (env : Env) (side : Side) (c : string)
    (progress : string → nat → nat → Event) (lastSyncTime : option string)
    (docs : list Doc.t) (w : World) :
  450 ≤ length docs →
  commitFails env side c 0 = true →
  commitFails env side c 1 = false →
  ∃ l w',
    writeAll env side c progress lastSyncTime docs w = (Ok l, w')
    ∧ Loop.totalSynced l = 450
    ∧ Loop.commitCalls l = 2
    ∧ commitLog w' = commitLog w ++ [(side, c, opOf <$> take 450 docs)]
    ∧ Stats.errors (syncStats w') = S (length docs - 450) + Stats.errors (syncStats w).
Proof.
  intros Hlen Hfirst Hsecond. rewrite writeAll_retry, Hsecond by done.
  eexists _, _. split; [done|]. split; [done|]. split; [done|].
  by rewrite commitLog_committedWorld, syncStats_committedWorld, commitLog_iter_countError,
    errors_iter_countError.
Qed.

Lemma rejected_batch_is_sent_again_witness :
  let env := Mishap.firstCommitDown Fixture.june in
  let w := Crowd.world 451 in
  let docs := map (wrap env) (Firestore.getDocs (mainDb w) "appointments") in
  450 ≤ length docs
  ∧ commitFails env Backup "appointments" 0 = true
  ∧ commitFails env Backup "appointments" 1 = false
  ∧ ∃ l w',
      writeAll env Backup "appointments" syncProgress None docs w = (Ok l, w')
      ∧ Loop.totalSynced l = 450
      ∧ Stats.errors (syncStats w') = 2.
Proof.
  intros env w docs.
  assert (length docs = 451) as Hlen by (vm_compute; reflexivity).
  split; [lia|]. do 2 (split; [reflexivity|]).
  destruct (rejected_batch_is_sent_again env Backup "appointments" syncProgress None docs w
              ltac:(lia) eq_refl eq_refl)
    as (l & w' & Hwrite & Htotal & _ & _ & Herrors).
  exists l, w'. split; [exact Hwrite|]. split; [exact Htotal|].
  rewrite Herrors, Hlen. reflexivity.
Defined.

(** ** Calls that are refused *)

(** X15 ([SyncService.forceFullSync]).  [forceFullSync] clears the
    watermarks and resets [duplicatesSkipped] before the busy check of
    [performFullSync]: called while a run is under way, it starts no run
    and writes nothing, yet every watermark is gone and the counter is 0,
    so the collections the running pass has not reached are scanned from a
    missing watermark. *)
Theorem forceFullSync_while_busy_clears_watermarks (env : Env) (w : World) :
  isSyncing w = true →
  let w' := forceFullSync env w in
  syncMetadata w' = ∅
  ∧ Stats.duplicatesSkipped (syncStats w') = 0
  ∧ isSyncing w' = true
  ∧ mainDb w' = mainDb w
  ∧ backupDb w' = backupDb w
  ∧ commitLog w' = commitLog w
  ∧ emitted w' = emitted w
  ∧ statsFile w' = statsFile w
  ∧ warnings w' = warnings w ++ ["Sync already in progress, skipping..."].
Proof.
  intros Hbusy. cbn zeta. unfold forceFullSync, performFullSync.
  cbn [isSyncing with_syncStats with_syncMetadata]. by rewrite Hbusy.
Qed.

Lemma forceFullSync_while_busy_clears_watermarks_witness :
  let env := Fixture.calm Fixture.june in
  let w := beginFullSync env (performFullSync env Bringup.world) in
  isSyncing w = true
  ∧ metaGet (syncMetadata w) "users" = Some "2024-01-01T00:00:05Z"
  ∧ metaGet (syncMetadata (forceFullSync env w)) "users" = None
  ∧ backupDb (forceFullSync env w) = backupDb w.
Proof.
  intros env w.
  assert (isSyncing w = true) as Hbusy by (vm_compute; reflexivity).
  assert (metaGet (syncMetadata w) "users" = Some "2024-01-01T00:00:05Z") as Hmeta
    by (vm_compute; reflexivity).
  clearbody w.
  destruct (forceFullSync_while_busy_clears_watermarks env w Hbusy)
    as (R1 & _ & _ & _ & R5 & _).
  split; [exact Hbusy|]. split; [exact Hmeta|].
  split; [by rewrite R1|exact R5].
Defined.

(** X16 ([EnhancedSyncService.performRecovery]).  A recovery does not
    probe the databases: it reads the flags the last health check left.
    When they say that the primary database or its authentication is
    offline, the call writes nothing, saves nothing and counts nothing,
    lowers the busy flag again, logs one warning, and leaves the status at
    [recovering]. *)
Theorem refused_recovery_keeps_status_recovering (env : Env) (w : World) :
  isSyncing w = false →
  isMainDbOnline w && isMainAuthOnline w = false →
  let w' := performRecovery env w in
  Stats.status (syncStats w') = recovering
  ∧ isSyncing w' = false
  ∧ docsOf w' = docsOf w
  ∧ statsFile w' = statsFile w
  ∧ (Stats.totalSynced (syncStats w'), Stats.errors (syncStats w'))
    = (Stats.totalSynced (syncStats w), Stats.errors (syncStats w))
  ∧ warnings w' = warnings w ++ ["Main database or auth still offline, cannot recover"].
Proof.
  intros Hidle Hdown. cbn zeta. unfold performRecovery. rewrite Hidle.
  unfold continueRecovery, beginRecovery, emitStats, emit, withStatus.
  cbn [isMainDbOnline isMainAuthOnline with_emitted with_syncStats with_isSyncing].
  apply andb_false_iff in Hdown as [->| ->]; cbn [negb orb]; [done|].
  by rewrite orb_true_r.
Qed.

Lemma refused_recovery_keeps_status_recovering_witness :
  let env := Fixture.calm Fixture.june in
  let w := Bringup.world in
  isSyncing w = false
  ∧ isMainDbOnline w && isMainAuthOnline w = false
  ∧ probeMainDb env && probeMainAuth env = true
  ∧ Stats.status (syncStats (performRecovery env w)) = recovering
  ∧ isSyncing (performRecovery env w) = false.
Proof.
  intros env w.
  destruct (refused_recovery_keeps_status_recovering env w eq_refl eq_refl)
    as (R1 & R2 & _).
  do 3 (split; [reflexivity|]). split; [exact R1|exact R2].
Defined.

(** ** Discovery and schema tracking *)

(** X17 ([discoverCollections]).  A discovery whose listing does not
    reject returns the list it stores in the service and in
    [syncStats.collections]; that list names no collection twice and
    starts with the listed collections in the order of the listing.  The
    documents, the watermarks, the log of commits, the busy flag, the
    stats file, the warnings and every counter are left as they were. *)
Theorem discovery_lists_each_collection_once (env : Env) (w : World) :
  listFails env = false →
  let r := discoverCollections env w in
  NoDup r.2
  ∧ Firestore.listCollections (mainDb w) `prefix_of` r.2
  ∧ collections r.1 = r.2
  ∧ Stats.collections (syncStats r.1) = r.2
  ∧ countersOf (syncStats r.1) = countersOf (syncStats w)
  ∧ mainDb r.1 = mainDb w
  ∧ backupDb r.1 = backupDb w
  ∧ syncMetadata r.1 = syncMetadata w
  ∧ commitLog r.1 = commitLog w
  ∧ (isSyncing r.1, statsFile r.1, warnings r.1) = (isSyncing w, statsFile w, warnings w).
Proof.
  intros Hlist. cbn zeta.
  destruct (discoverCollections_listed env w Hlist)
    as (Hr & Hcolls & Hstats & Hcounters & Hdocs & Hrest).
  cbn zeta in *. rewrite Hcolls, Hstats, Hr.
  split; [apply NoDup_setAdd_all, NoDup_listCollections|].
  split; [apply prefix_setAdd_all|].
  unfold docsOf in Hdocs. injection Hdocs as -> -> -> ->. done.
Qed.

Lemma discovery_lists_each_collection_once_witness :
  let env := Fixture.calm Fixture.june in
  let r := discoverCollections env Bringup.world in
  listFails env = false
  ∧ NoDup r.2
  ∧ length (filter (λ c, c = "users") r.2) = 1
  ∧ mainDb r.1 = mainDb Bringup.world.
Proof.
  intros env r.
  destruct (discovery_lists_each_collection_once env Bringup.world eq_refl)
    as (R1 & _ & _ & _ & _ & R6 & _).
  split; [reflexivity|]. split; [exact R1|]. split; [vm_compute; reflexivity|exact R6].
Defined.

(** X18 ([extractKeysFromObject]).  The key set is a [Set] kept in
    insertion order: the keys it held stay in front in their order, no key
    is added twice, and a key is in the result exactly when it was in the
    set or is the dotted path of a field of the object or of a map nested
    in it; arrays are not entered. *)
Theorem extractKeysFromObject_adds_each_path_once (o : obj) (keySet : list string)
    (prefix : string) :
  NoDup keySet →
  let result := extractKeysFromObject o keySet prefix in
  NoDup result
  ∧ keySet `prefix_of` result
  ∧ ∀ k, k ∈ result ↔ k ∈ keySet ∨ hasPath prefix o k.
Proof.
  intros Hnd. cbn zeta. unfold extractKeysFromObject.
  split; [by apply extractKeys_NoDup|]. split; [apply extractKeys_prefix|].
  intros k. rewrite extractKeys_spec. split.
  - intros [?|(o' & [= <-] & Hp)]; auto.
  - intros [?|Hp]; eauto.
Qed.

Lemma extractKeysFromObject_adds_each_path_once_witness :
  NoDup ["tags"]
  ∧ extractKeysFromObject Mishap.nested ["tags"] "" = ["tags"; "a"; "a.b"]
  ∧ ["tags"] `prefix_of` extractKeysFromObject Mishap.nested ["tags"] ""
  ∧ ¬ hasPath "" Mishap.nested "tags.x".
Proof.
  assert (NoDup ["tags"]) as Hnd by (repeat constructor; set_solver).
  destruct (extractKeysFromObject_adds_each_path_once Mishap.nested ["tags"] "" Hnd)
    as (_ & R2 & R3).
  split; [exact Hnd|]. split; [vm_compute; reflexivity|]. split; [exact R2|].
  intros Hp. assert ("tags.x" ∈ extractKeysFromObject Mishap.nested ["tags"] "") as Hin
    by (apply R3; by right).
  revert Hin. vm_compute. set_solver.
Defined.

(** ** The integrity check *)

(** X19 ([performDataIntegrityCheck]).  The entry of a listed collection
    whose two reads resolve holds the sizes of the two sides and, once
    each, first the ids that are on the primary and not on the standby
    (as [missing_in_backup]), then the ids that are on the standby and not
    on the primary (as [missing_in_main]); the two sizes and the two
    numbers of issues balance.  The entry of a listed collection one of
    whose reads rejects is the error entry. *)
Theorem integrity_entry_lists_id_differences (env : Env) (w : World) (c : string) :
  c ∈ collections w →
  let report := performDataIntegrityCheck env w in
  let main := Firestore.collection (mainDb w) c in
  let backup := Firestore.collection (backupDb w) c in
  (readable env c →
   ∃ inMainOnly inBackupOnly,
     Integrity.collections report !! c
     = Some (compared (size main) (size backup)
               (length inMainOnly + length inBackupOnly)
               ((missing_in_backup <$> inMainOnly) ++ (missing_in_main <$> inBackupOnly)))
     ∧ NoDup inMainOnly ∧ NoDup inBackupOnly
     ∧ (∀ i, i ∈ inMainOnly ↔ is_Some (main !! i) ∧ backup !! i = None)
     ∧ (∀ i, i ∈ inBackupOnly ↔ is_Some (backup !! i) ∧ main !! i = None)
     ∧ size main + length inBackupOnly = size backup + length inMainOnly)
  ∧ (¬ readable env c → Integrity.collections report !! c = Some unread).
Proof.
  intros Hc. cbn zeta. unfold performDataIntegrityCheck.
  destruct (integrity_fold env w (collections w)
              {| Integrity.collections := ∅; Integrity.totalIssues := 0;
                 Integrity.timestamp := now env |}) as (Hentry & _).
  rewrite Hentry, decide_True by done. unfold verdictOf, readable.
  split.
  - intros [-> ->]. cbn [orb].
    exists (missingFrom (map_to_list (Firestore.collection (mainDb w) c))
              (Firestore.collection (backupDb w) c)),
           (missingFrom (map_to_list (Firestore.collection (backupDb w) c))
              (Firestore.collection (mainDb w) c)).
    split; [unfold issuesOf; by rewrite length_app, !length_fmap|].
    split; [apply NoDup_missingFrom|]. split; [apply NoDup_missingFrom|].
    split; [intros i; apply elem_of_missingFrom|].
    split; [intros i; apply elem_of_missingFrom|].
    apply missing_balance.
  - intros Hno. destruct (scanFails env Main c), (scanFails env Backup c); try done.
    exfalso. by apply Hno.
Qed.

Lemma integrity_entry_lists_id_differences_witness :
  let env := Mishap.standbyUnread Fixture.june "users" in
  let w := with_collections ["appointments"; "users"] Overtaken.world in
  let report := performDataIntegrityCheck env w in
  "appointments" ∈ collections w
  ∧ readable env "appointments"
  ∧ "users" ∈ collections w
  ∧ ¬ readable env "users"
  ∧ Integrity.collections report !! "appointments"
    = Some (compared 2 1 1 [missing_in_backup "a1"])
  ∧ Integrity.collections report !! "users" = Some unread
  ∧ Integrity.totalIssues report = 1.
Proof.
  intros env w report.
  assert ("appointments" ∈ collections w) as H1 by (cbn; set_solver).
  assert (readable env "appointments") as H2 by done.
  assert ("users" ∈ collections w) as H3 by (cbn; set_solver).
  assert (¬ readable env "users") as H4 by (by intros [_ ?]).
  do 4 (split; [assumption|]).
  split; [vm_compute; reflexivity|].
  split; [|vm_compute; reflexivity].
  exact (proj2 (integrity_entry_lists_id_differences env w "users" H3) H4).
Defined.

(** X20 ([performDataIntegrityCheck]).  The report counts no issue
    exactly when, in every listed collection whose two reads resolve, the
    primary and the standby hold the same document ids.  Payloads are not
    compared, and a collection a read of which rejects adds nothing to
    [totalIssues]. *)
Theorem clean_integrity_report_means_same_ids (env : Env) (w : World) :
  Integrity.totalIssues (performDataIntegrityCheck env w) = 0
  ↔ ∀ c, c ∈ collections w → readable env c →
         dom (Firestore.collection (mainDb w) c) = dom (Firestore.collection (backupDb w) c).
Proof.
  unfold performDataIntegrityCheck.
  destruct (integrity_fold env w (collections w)
              {| Integrity.collections := ∅; Integrity.totalIssues := 0;
                 Integrity.timestamp := now env |}) as (_ & -> & _).
  cbn [Integrity.totalIssues]. rewrite Nat.add_0_l, sum_list_zero.
  assert (∀ c, issueCount env w c = 0
               ↔ (readable env c →
                  dom (Firestore.collection (mainDb w) c)
                  = dom (Firestore.collection (backupDb w) c))) as Hone.
  { intros c. unfold issueCount, verdictOf, readable.
    destruct (scanFails env Main c), (scanFails env Backup c); cbn [orb];
      try (split; [by intros _ [? ?]|done]).
    rewrite length_zero_iff_nil, issuesOf_nil. split; [auto|]. intros H. by apply H. }
  split.
  - intros Hall c Hc. apply Hone, Hall, list_elem_of_fmap. eauto.
  - intros Hall n (c & -> & Hc)%list_elem_of_fmap. apply Hone. auto.
Qed.

(** ** The reset route *)

(** X21 ([POST /api/reset-stats], [saveStats], [loadStats],
    [performFirestoreSync]).  The reset route puts the counters of a new
    service into [syncStats] and into the stats file, so that a restart
    loads them; it leaves the documents, the watermarks and the busy flag
    as they were.  Since [lastFullSync] is cleared, the run that follows
    is a first sync: its loop syncs every collection with
    [incrementalOnly = false], that is without reading the watermarks the
    reset has kept. *)
Theorem reset_makes_next_run_full (env : Env) (w : World) :
  let w0 := resetStats w in
  syncStats w0 = Stats.zero
  ∧ statsFile w0 = Some Stats.zero
  ∧ syncStats (construct (mainDb w0) (backupDb w0) (statsFile w0)) = Stats.zero
  ∧ docsOf w0 = docsOf w
  ∧ isSyncing w0 = isSyncing w
  ∧ loopOf env w0
    = foldl (syncOne env true) (0, loopStart env w0) (collections (loopStart env w0)).
Proof.
  cbn zeta. do 5 (split; [done|]).
  unfold loopOf.
  destruct (loopStart_spec env (resetStats w)) as (_ & _ & _ & -> & _).
  done.
Qed.

(** ** The counters across runs and restarts *)

(** X22 ([EnhancedSyncService.performFullSync], [performFirestoreSync],
    [performRecovery]).  [lastFullSync] is written once: when it holds a
    non-empty string, no call of a forward run or of a recovery changes
    it, whatever the probes answer and whatever rejects. *)
Theorem lastFullSync_is_set_once (r : Run) (env : Env) (w : World) :
  truthy (Stats.lastFullSync (syncStats w)) = true →
  Stats.lastFullSync (syncStats (call r env w)) = Stats.lastFullSync (syncStats w).
Proof.
  intros Hset. destruct r; cbn [call].
  - by destruct (performFullSync_effect env w) as [_ _ _ _ _ _ -> _].
  - by destruct (performRecovery_effect env w) as [_ _ _ _ _ _ -> _].
Qed.

Lemma lastFullSync_is_set_once_witness :
  let w := performFullSync (Fixture.calm Fixture.june) Bringup.world in
  let later := Fixture.calm "2024-07-01T00:00:00.000Z" in
  truthy (Stats.lastFullSync (syncStats w)) = true
  ∧ Stats.lastFullSync (syncStats w) = Some Fixture.june
  ∧ Stats.lastFullSync (syncStats (performFullSync later w)) = Some Fixture.june.
Proof.
  intros w later.
  assert (truthy (Stats.lastFullSync (syncStats w)) = true) as Hset
    by (vm_compute; reflexivity).
  assert (Stats.lastFullSync (syncStats w) = Some Fixture.june) as Hjune
    by (vm_compute; reflexivity).
  clearbody w.
  split; [exact Hset|]. split; [exact Hjune|].
  rewrite <- Hjune. exact (lastFullSync_is_set_once forward later w Hset).
Defined.

(** X23 ([saveStats], [loadStats], the constructor).  What a restart
    keeps: a service constructed on the file [saveStats] has just written
    starts from the counters as they were serialised, the shared
    authentication counters included, and saving them again writes the
    same file.  Everything else starts anew: no watermark, no collection,
    no schema, the counters of the authentication service at zero, the
    four health flags down. *)
Theorem restart_keeps_saved_counters_only (w : World) :
  let saved := saveStats w in
  let w' := construct (mainDb saved) (backupDb saved) (statsFile saved) in
  syncStats w' = statsView w
  ∧ statsFile (saveStats w') = statsFile saved
  ∧ syncMetadata w' = ∅
  ∧ collections w' = []
  ∧ collectionsSchema w' = ∅
  ∧ authSyncStats w' = Auth.zero
  ∧ isSyncing w' = false
  ∧ isMainDbOnline w' = false ∧ isBackupDbOnline w' = false
  ∧ isMainAuthOnline w' = false ∧ isBackupAuthOnline w' = false.
Proof.
  cbn zeta. split; [done|]. split; [|done].
  unfold saveStats, construct, loadStats, statsView.
  cbn [statsFile with_statsFile syncStats with_syncStats].
  destruct (Stats.authSync (syncStats w)) eqn:Hauth; cbn; by rewrite ?Hauth.
Qed.

(** X24 ([EnhancedSyncService.performFullSync], [performRecovery]).
    After an authentication pass has returned once, [syncStats.authSync]
    is the object the authentication service keeps mutating, and no call
    of a forward run or of a recovery gives it an object of its own again:
    what is saved and emitted from then on carries the live counters of
    the authentication service, those of a failed pass included. *)
Theorem shared_auth_counters_stay_shared (r : Run) (env : Env) (w : World) :
  Stats.authSync (syncStats w) = AuthShared →
  let w' := call r env w in
  Stats.authSync (syncStats w') = AuthShared
  ∧ Stats.authSync (statsView w') = AuthOwn (authSyncStats w').
Proof.
  intros Hshared. cbn zeta.
  assert (Stats.authSync (syncStats (call r env w)) = AuthShared) as Hafter.
  { destruct r; cbn [call].
    - by destruct (performFullSync_effect env w) as [_ _ _ _ _ _ _ ->].
    - by destruct (performRecovery_effect env w) as [_ _ _ _ _ _ _ ->]. }
  split; [done|]. unfold statsView. by rewrite Hafter.
Qed.

Lemma shared_auth_counters_stay_shared_witness :
  let w := performFullSync (Fixture.calm Fixture.june) Bringup.world in
  let failing :=
    {| now := "2024-07-01T00:00:00.000Z"; probeMainDb := true; probeBackupDb := true;
       probeMainAuth := true; probeBackupAuth := true; listFails := false;
       sampleFails := λ _, false; scanFails := λ _ _, false;
       getAllFails := λ _ _ _, false; commitFails := λ _ _ _, false;
       verifyFails := λ _, false; authPlan := authExportFails |} in
  let w' := performFullSync failing w in
  Stats.authSync (syncStats w) = AuthShared
  ∧ Stats.authSync (syncStats w') = AuthShared
  ∧ Auth.errors (authSyncStats w) = 0
  ∧ option_map (λ s, match Stats.authSync s with AuthOwn a => Auth.errors a | AuthShared => 0 end)
      (statsFile w') = Some 1.
Proof.
  intros w failing w'.
  assert (Stats.authSync (syncStats w) = AuthShared) as Hshared by (vm_compute; reflexivity).
  split; [exact Hshared|].
  split; [exact (proj1 (shared_auth_counters_stay_shared forward failing w Hshared))|].
  split; vm_compute; reflexivity.
Defined.

(** ** The authentication replicator *)

Lemma batchesOf_concat {A} (batchSize : nat) (users : list A) :
  0 < batchSize → concat (AuthSync.batchesOf batchSize users) = users.
Proof.
  intros Hpos. unfold AuthSync.batchesOf. rewrite concat_reshape, sum_list_replicate.
  apply take_ge.
  pose proof (Nat.div_mod_eq (length users + (batchSize - 1)) batchSize) as Hdiv.
  pose proof (Nat.mod_upper_bound (length users + (batchSize - 1)) batchSize) as Hmod.
  nia.
Qed.

Lemma reshape_bounded {A} (n : nat) (sizes : list nat) (l : list A) :
  Forall (λ size, size ≤ n) sizes → Forall (λ batch, length batch ≤ n) (reshape sizes l).
Proof.
  intros Hsizes. revert l. induction Hsizes as [|size sizes Hsize _ IH]; intros l; cbn.
  { constructor. }
  constructor; [|apply IH]. rewrite length_take. lia.
Qed.

Lemma batchesOf_bounded {A} (batchSize : nat) (users : list A) :
  Forall (λ batch, length batch ≤ batchSize) (AuthSync.batchesOf batchSize users).
Proof.
  unfold AuthSync.batchesOf. apply reshape_bounded, Forall_replicate. done.
Qed.

Lemma rejectedImports_S env calls :
  rejectedImports env (S calls)
  = rejectedImports env calls + match importResult env calls with None => 1 | Some _ => 0 end.
Proof.
  unfold rejectedImports. rewrite seq_S, filter_app, length_app. cbn [Nat.add]. f_equal.
  rewrite filter_cons, filter_nil. by destruct (importResult env calls) as [[? ?]|].
Qed.

Lemma importedBy_S env calls :
  importedBy env (S calls)
  = importedBy env calls + match importResult env calls with Some (ok, _) => ok | None => 0 end.
Proof.
  unfold importedBy. rewrite seq_S, fmap_app. cbn [Nat.add fmap list_fmap].
  generalize (match importResult env calls with Some (ok, _) => ok | None => 0 end). intros k.
  induction (_ <$> seq 0 calls) as [|x l IH]; cbn in *; lia.
Qed.

(** The loop of [importUsersToBackup], from any state of its variables. *)
Lemma importLoop_spec env (batches : list (list User.t)) :
  ∀ call total st,
    let r := foldl (AuthSync.importStep env) (call, total, st) batches in
    r.1.1 = call + length batches
    ∧ r.1.2 + importedBy env call = total + importedBy env (call + length batches)
    ∧ Auth.errors (authStats r.2) + rejectedImports env call
      = Auth.errors (authStats st) + rejectedImports env (call + length batches)
    ∧ importCalls r.2
      = importCalls st ++ ((λ batch : list User.t, AuthSync.toImport <$> batch) <$> batches)
    ∧ claimCalls r.2 = claimCalls st
    ∧ (Auth.totalUsers (authStats r.2), Auth.syncedUsers (authStats r.2),
       Auth.lastSync (authStats r.2), Auth.customClaims (authStats r.2))
      = (Auth.totalUsers (authStats st), Auth.syncedUsers (authStats st),
         Auth.lastSync (authStats st), Auth.customClaims (authStats st)).
Proof.
  induction batches as [|batch batches IH]; intros call total st; cbn zeta.
  { cbn. rewrite !Nat.add_0_r, app_nil_r. done. }
  cbn [foldl length fmap list_fmap].
  replace (call + S (length batches)) with (S call + length batches) by lia.
  set (st1 := {| authStats := authStats st;
                 importCalls := importCalls st ++ [AuthSync.toImport <$> batch];
                 claimCalls := claimCalls st |}).
  assert (AuthSync.importStep env (call, total, st) batch
          = match importResult env call with
            | Some (ok, _) => (S call, total + ok, st1)
            | None => (S call, total, AuthSync.countError st1)
            end) as -> by done.
  destruct (importResult env call) as [[ok failed]|] eqn:Hres.
  - destruct (IH (S call) (total + ok) st1) as (H1 & H2 & H3 & H4 & H5 & H6).
    cbn zeta in *. subst st1. cbn [authStats importCalls claimCalls] in *.
    rewrite importedBy_S, Hres in H2. rewrite rejectedImports_S, Hres in H3.
    rewrite H4, <- (assoc_L (++)). repeat split; try done; lia.
  - destruct (IH (S call) total (AuthSync.countError st1)) as (H1 & H2 & H3 & H4 & H5 & H6).
    cbn zeta in *. subst st1. unfold AuthSync.countError in *.
    cbn [authStats importCalls claimCalls Auth.errors Auth.totalUsers Auth.syncedUsers
         Auth.lastSync Auth.customClaims] in *.
    rewrite importedBy_S, Hres in H2. rewrite rejectedImports_S, Hres in H3.
    rewrite H4, <- (assoc_L (++)). repeat split; try done; lia.
Qed.

Lemma concat_fmap_fmap {A B} (f : A → B) (batches : list (list A)) :
  concat ((λ batch : list A, f <$> batch) <$> batches) = f <$> concat batches.
Proof.
  induction batches as [|batch batches IH]; [done|].
  cbn [fmap list_fmap concat]. rewrite fmap_app. f_equal. exact IH.
Qed.

(** The loop of [syncCustomClaims]. *)
Lemma claimLoop_spec env (users : list User.t) :
  ∀ claimsSynced st,
    let r := foldl (AuthSync.claimStep env) (claimsSynced, st) users in
    r.1 = claimsSynced + length (claimsSetFor env users)
    ∧ authStats r.2 = authStats st
    ∧ importCalls r.2 = importCalls st
    ∧ claimCalls r.2
      = claimCalls st
        ++ ((λ user, (User.uid user, default [] (User.customClaims user)))
              <$> claimsSetFor env users).
Proof.
  induction users as [|user users IH]; intros claimsSynced st; cbn zeta.
  { cbn. by rewrite Nat.add_0_r, app_nil_r. }
  cbn [foldl]. unfold claimsSetFor in *. rewrite filter_cons.
  unfold AuthSync.claimStep at 2 4 6 8.
  destruct (AuthSync.hasClaims user) eqn:Hclaims;
    [destruct (claimsFail env (User.uid user)) eqn:Hfail|].
  - rewrite decide_False by (by intros [_ ?]). apply IH.
  - rewrite decide_True by done.
    destruct (IH (S claimsSynced)
                {| authStats := authStats st; importCalls := importCalls st;
                   claimCalls :=
                     claimCalls st ++ [(User.uid user, default [] (User.customClaims user))] |})
      as (H1 & H2 & H3 & H4).
    cbn zeta in *. cbn [authStats importCalls claimCalls length fmap list_fmap] in *.
    rewrite H1, H2, H3, H4, <- (assoc_L (++)). repeat split; try done. lia.
  - rewrite decide_False by (by intros [? _]). apply IH.
Qed.

Lemma elem_of_toSet (uids : list string) (uid : string) :
  uid ∈ AuthSync.toSet uids ↔ uid ∈ uids.
Proof.
  unfold AuthSync.toSet. rewrite elem_of_setAdd_all. split; [|auto].
  intros [Hnil|?]; [|done]. by apply elem_of_nil in Hnil.
Qed.

Lemma NoDup_toSet (uids : list string) : NoDup (AuthSync.toSet uids).
Proof. apply NoDup_setAdd_all, NoDup_nil_2. Qed.

Lemma importUsersToBackup_stats env (users : list User.t) (st : AuthState) :
  let r := AuthSync.importUsersToBackup env users st in
  let calls := length (AuthSync.batchesOf 1000 users) in
  r.1 = importedBy env calls
  ∧ authStats r.2
    = {| Auth.totalUsers := Auth.totalUsers (authStats st);
         Auth.syncedUsers := Auth.syncedUsers (authStats st);
         Auth.errors := Auth.errors (authStats st) + rejectedImports env calls;
         Auth.lastSync := Auth.lastSync (authStats st);
         Auth.customClaims := Auth.customClaims (authStats st) |}.
Proof.
  cbn zeta. unfold AuthSync.importUsersToBackup.
  destruct (importLoop_spec env (AuthSync.batchesOf 1000 users) 0 0 st)
    as (_ & Htotal & Herrors & _ & _ & Hkeep).
  cbn zeta in *.
  destruct (foldl _ _ _) as [[call total] st1]. cbn [fst snd] in *.
  change (importedBy env 0) with 0 in Htotal.
  change (rejectedImports env 0) with 0 in Herrors.
  cbn [Nat.add] in Htotal, Herrors.
  split; [lia|]. destruct (authStats st1) as [t s e l c]. cbn in *.
  injection Hkeep as -> -> -> ->. f_equal. lia.
Qed.

(** X25 ([AuthSyncService.importUsersToBackup]).  The import sends every
    exported user to the backup directory exactly once and in order, in
    calls of at most 1000 records, whether calls reject or not; the number
    it returns is the sum of the success counts of the calls that
    resolved, and [errors] grows by the number of calls that rejected.  No
    custom claim is set. *)
Theorem import_sends_every_user_once (env : AuthEnv) (users : list User.t) (st : AuthState) :
  let r := AuthSync.importUsersToBackup env users st in
  ∃ calls : list (list Imported.t),
    importCalls r.2 = importCalls st ++ calls
    ∧ Forall (λ call, length call ≤ 1000) calls
    ∧ concat calls = AuthSync.toImport <$> users
    ∧ r.1 = importedBy env (length calls)
    ∧ Auth.errors (authStats r.2)
      = Auth.errors (authStats st) + rejectedImports env (length calls)
    ∧ claimCalls r.2 = claimCalls st.
Proof.
  cbn zeta. unfold AuthSync.importUsersToBackup.
  destruct (importLoop_spec env (AuthSync.batchesOf 1000 users) 0 0 st)
    as (_ & Htotal & Herrors & Hcalls & Hclaims & _).
  cbn zeta in *.
  destruct (foldl _ _ _) as [[call total] st1]. cbn [fst snd] in *.
  exists ((λ batch : list User.t, AuthSync.toImport <$> batch) <$> AuthSync.batchesOf 1000 users).
  rewrite length_fmap. split; [done|]. split.
  { apply Forall_fmap. eapply Forall_impl; [apply (batchesOf_bounded 1000)|].
    intros batch Hlen. cbn. by rewrite length_fmap. }
  split; [by rewrite concat_fmap_fmap, batchesOf_concat by lia|].
  change (importedBy env 0) with 0 in Htotal.
  change (rejectedImports env 0) with 0 in Herrors.
  cbn [Nat.add] in Htotal, Herrors.
  split; [lia|]. split; [lia|done].
Qed.

(** X26 ([AuthSyncService.performFullAuthSync], [exportUsersFromMain],
    [importUsersToBackup], [syncCustomClaims]).  The counters an
    authentication pass leaves, and whether it rejects, are those of the
    summary the coordinator is modelled with: the pass rejects exactly
    when one of its two listings of the main directory does, each of
    which adds one error; [totalUsers] is the number of users the first
    listing returned, [syncedUsers] the number the import calls that
    resolved report, [errors] grows by one for every import call that
    rejected, and [customClaims] is the number of users of the second
    listing that carry a claim and whose claim was set. *)
Theorem auth_pass_is_summarised_by_its_plan (aenv : AuthEnv) (st : AuthState)
    (env : Env) (w : World) :
  authPlan env = planOf aenv →
  now env = clock aenv →
  authSyncStats w = authStats st →
  let detailed := AuthSync.performFullAuthSync aenv st in
  let summary := performFullAuthSync env w in
  authSyncStats summary.2 = authStats detailed.2
  ∧ (summary.1 = Throw ↔ detailed.1 = Throw)
  ∧ (∀ a, detailed.1 = Ok a → a = authStats detailed.2).
Proof.
  intros Hplan Hnow Hstats. cbn zeta.
  unfold performFullAuthSync, AuthSync.performFullAuthSync, planOf in *.
  rewrite Hplan, Hnow, Hstats. clear Hplan Hnow Hstats.
  destruct (AuthSync.exportUsersFromMain aenv 0) as [users|] eqn:Hfirst; [|done].
  set (st1 := AuthSync.setStats _ (AuthSync.setStats _ st)).
  destruct (importUsersToBackup_stats aenv users st1) as (Hcount & Hst2). cbn zeta in *.
  destruct (AuthSync.importUsersToBackup aenv users st1) as [syncedCount st2].
  cbn [fst snd] in *. subst syncedCount st1.
  unfold AuthSync.setStats in Hst2. cbn in Hst2.
  unfold AuthSync.syncCustomClaims.
  destruct (AuthSync.exportUsersFromMain aenv 1) as [again|] eqn:Hsecond.
  - destruct (claimLoop_spec aenv again 0 (AuthSync.setStats
                (λ a, {| Auth.totalUsers := Auth.totalUsers a;
                         Auth.syncedUsers :=
                           importedBy aenv (length (AuthSync.batchesOf 1000 users));
                         Auth.errors := Auth.errors a; Auth.lastSync := Auth.lastSync a;
                         Auth.customClaims := Auth.customClaims a |}) st2))
      as (Hk & Hst & _). cbn zeta in *.
    destruct (foldl _ _ _) as [claimsSynced st4]. cbn [fst snd] in *.
    unfold AuthSync.setStats in *. cbn [authStats] in *. rewrite Hst, Hst2, Hk. cbn.
    split; [done|]. split; [done|]. by intros a [= <-].
  - cbn [fst snd]. unfold AuthSync.countError, AuthSync.setStats. cbn [authStats].
    rewrite Hst2. cbn.
    split; [done|]. split; [done|]. done.
Qed.

Lemma auth_pass_is_summarised_by_its_plan_witness :
  let env :=
    {| now := Fixture.june; probeMainDb := true; probeBackupDb := true;
       probeMainAuth := true; probeBackupAuth := true; listFails := false;
       sampleFails := λ _, false; scanFails := λ _ _, false;
       getAllFails := λ _ _ _, false; commitFails := λ _ _ _, false;
       verifyFails := λ _, false; authPlan := authOk 2 2 0 1 |} in
  authPlan env = planOf Staff.env
  ∧ now env = clock Staff.env
  ∧ authSyncStats Bringup.world = authStats Staff.start
  ∧ authSyncStats (performFullAuthSync env Bringup.world).2
    = authStats (AuthSync.performFullAuthSync Staff.env Staff.start).2
  ∧ claimCalls (AuthSync.performFullAuthSync Staff.env Staff.start).2
    = [("u2", [("admin", JBool true)])].
Proof.
  intros env.
  assert (authPlan env = planOf Staff.env) as H1 by (vm_compute; reflexivity).
  split; [exact H1|]. do 2 (split; [reflexivity|]).
  split; [|vm_compute; reflexivity].
  exact (proj1 (auth_pass_is_summarised_by_its_plan Staff.env Staff.start env Bringup.world
                  H1 eq_refl eq_refl)).
Defined.

(** X27 ([AuthSyncService.verifyAuthSyncIntegrity]).  When both listings
    resolve, the report counts the users listed on each side, and lists,
    once each, the uids listed on the main directory and not on the backup
    directory ([missingUids]) and the uids listed on the backup directory
    and not on the main one ([extraUids]); the two numbers are the lengths
    of the two lists, so both are 0 exactly when the two directories list
    the same uids.  Nothing but the uid is compared. *)
Theorem auth_report_lists_uid_differences (env : AuthEnv) (report : AuthSync.Report) :
  AuthSync.verifyAuthSyncIntegrity env = Ok report →
  ∃ mainUsers backupUsers,
    AuthSync.exportUsersFromMain env 0 = Ok mainUsers
    ∧ AuthSync.listAll (listing env Backup 0) = Ok backupUsers
    ∧ AuthSync.mainCount report = length mainUsers
    ∧ AuthSync.backupCount report = length backupUsers
    ∧ AuthSync.missingInBackup report = length (AuthSync.missingUids report)
    ∧ AuthSync.extraInBackup report = length (AuthSync.extraUids report)
    ∧ NoDup (AuthSync.missingUids report)
    ∧ NoDup (AuthSync.extraUids report)
    ∧ (∀ uid, uid ∈ AuthSync.missingUids report
              ↔ uid ∈ User.uid <$> mainUsers ∧ uid ∉ User.uid <$> backupUsers)
    ∧ (∀ uid, uid ∈ AuthSync.extraUids report
              ↔ uid ∈ User.uid <$> backupUsers ∧ uid ∉ User.uid <$> mainUsers)
    ∧ (AuthSync.missingInBackup report = 0 ∧ AuthSync.extraInBackup report = 0
       ↔ ∀ uid, uid ∈ User.uid <$> mainUsers ↔ uid ∈ User.uid <$> backupUsers).
Proof.
  unfold AuthSync.verifyAuthSyncIntegrity.
  destruct (AuthSync.exportUsersFromMain env 0) as [mainUsers|]; [|done].
  destruct (AuthSync.listAll (listing env Backup 0)) as [backupUsers|]; [|done].
  intros [= <-]. exists mainUsers, backupUsers.
  cbn [AuthSync.mainCount AuthSync.backupCount AuthSync.missingInBackup
       AuthSync.extraInBackup AuthSync.missingUids AuthSync.extraUids].
  set (mainUids := AuthSync.toSet (User.uid <$> mainUsers)).
  set (backupUids := AuthSync.toSet (User.uid <$> backupUsers)).
  assert (∀ uid, uid ∈ filter (λ uid, uid ∉ backupUids) mainUids
                 ↔ uid ∈ User.uid <$> mainUsers ∧ uid ∉ User.uid <$> backupUsers) as Hmissing.
  { intros uid. subst mainUids backupUids.
    rewrite list_elem_of_filter, !elem_of_toSet. tauto. }
  assert (∀ uid, uid ∈ filter (λ uid, uid ∉ mainUids) backupUids
                 ↔ uid ∈ User.uid <$> backupUsers ∧ uid ∉ User.uid <$> mainUsers) as Hextra.
  { intros uid. subst mainUids backupUids.
    rewrite list_elem_of_filter, !elem_of_toSet. tauto. }
  do 6 (split; [done|]).
  split; [apply NoDup_filter, NoDup_toSet|]. split; [apply NoDup_filter, NoDup_toSet|].
  split; [done|]. split; [done|].
  rewrite !length_zero_iff_nil. split.
  - intros [Hm He] uid. rewrite Hm in Hmissing. rewrite He in Hextra.
    specialize (Hmissing uid). specialize (Hextra uid).
    rewrite elem_of_nil in Hmissing, Hextra.
    destruct (decide (uid ∈ User.uid <$> mainUsers)),
             (decide (uid ∈ User.uid <$> backupUsers)); tauto.
  - intros Hsame. split.
    + apply filter_none. intros uid Hin. subst mainUids backupUids.
      rewrite elem_of_toSet in *. intros Hout. apply Hout. by apply Hsame.
    + apply filter_none. intros uid Hin. subst mainUids backupUids.
      rewrite elem_of_toSet in *. intros Hout. apply Hout. by apply Hsame.
Qed.

Lemma auth_report_lists_uid_differences_witness :
  ∃ report,
    AuthSync.verifyAuthSyncIntegrity Staff.env = Ok report
    ∧ AuthSync.missingUids report = ["u2"]
    ∧ AuthSync.extraUids report = ["u9"]
    ∧ NoDup (AuthSync.missingUids report).
Proof.
  eexists. split; [vm_compute; reflexivity|]. do 2 (split; [reflexivity|]).
  destruct (auth_report_lists_uid_differences Staff.env _ eq_refl)
    as (mainUsers & backupUsers & _ & _ & _ & _ & _ & _ & Hnd & _).
  exact Hnd.
Defined.
